(** * Hypertrophy tracker: record store, metrics engine and sync bridge

    A shallow embedding of the logic of the workout tracker: the page
    component [GymTracker] with its storage hook [useLocalStorage], the two
    helpers of [lib/database], and the two API routes [sync-data] and
    [load-data]; and the properties its specification states about it.

    Modelling conventions.

    - A JavaScript [number] is modelled by [JS.number]: a rational, the two
      infinities or [NaN].  Sums, products and parsed literals are rounded to
      the nearest binary64 value, ties to even, and overflow to an infinity
      ([JS.numberValue]); comparisons are those of the values.  The two zeros
      are one value: the page never divides, and no comparison, sum or
      product it computes tells them apart.
    - A JavaScript string is modelled by its UTF-8 encoding, a [string] of
      bytes; strings that are not well formed (lone surrogates) have no
      counterpart.
    - The [date] and [createdAt] fields hold ISO-8601 strings produced by
      [new Date().toISOString()] and are only ever read back through
      [new Date(d).getTime()].  The model stores that millisecond timestamp
      (an integer) directly.
    - [Date.now()] and [new Date()] read the clock: every operation that
      reads it takes the value read as an argument.
    - A JavaScript array is a [list]; the arrays held in component state are
      cells of the record [Component.State], so that an operation that sorts
      an array in place is a write to that cell.
    - [fetch] is an interaction with the outside: its outcome is an argument
      of the function that awaits it.
    - [localStorage] is a field of the component state.  The writes of the
      component are those of a storage that takes them, and an item is the
      array written; what the hook does when there is no storage, or when
      the storage refuses a write, is modelled apart, in [Hook]. *)

From Stdlib Require Import ZArith QArith Qcanon Qround Qabs Qpower Lia.
From Stdlib Require Import Ascii String SpecFloat.
From Stdlib Require Import Sorting.Permutation Sorting.Sorted.
From stdpp Require Import gmap strings list pretty.

#[local] Set Warnings "-clear-no-such-hyp".

Local Open Scope Z_scope.

(* ===================================================================== *)
(** ** JavaScript values used by the page *)
(* ===================================================================== *)

Module JS.

(** The [number] type. *)
Inductive number : Type :=
| NaN
| NegInf
| Fin (q : Qc)
| PosInf.

Definition ofZ (z : Z) : number := Fin (Q2Qc (inject_Z z)).

Definition zero : number := ofZ 0.

(** Sign of a rational, as a comparison with zero. *)
Definition sgn (q : Qc) : comparison := Qccompare q (Q2Qc 0).

(** *** Rounding to binary64 *)

(** The greatest [k] with [2 ^ k <= a], for a rational [a] above zero. *)
Definition floorLog2 (a : Q) : Z :=
  if Qle_bool 1 a then Z.log2 (Qfloor a)
  else - Z.log2_up (Qceiling (/ a)).

(** The exponent of the last of the 53 bits of the binary64 values next to
    [a]; it is [-1074] in the subnormal range. *)
Definition ulpExponent (a : Q) : Z := Z.max (-1074) (floorLog2 a - 52).

(** The nearest integer, the even one of two that are equally near. *)
Definition roundHalfEven (x : Q) : Z :=
  let f := Qfloor x in
  match Qcompare (x - inject_Z f) (1 # 2) with
  | Lt => f
  | Gt => f + 1
  | Eq => if Z.even f then f else f + 1
  end.

(** The Number value for a rational: the nearest binary64 value, ties to
    even; an infinity when the rounded magnitude reaches [2 ^ 1024]. *)
Definition numberValue (q : Q) : number :=
  match Qcompare q 0 with
  | Eq => Fin (Q2Qc 0)
  | s =>
      let a := Qabs q in
      let e := ulpExponent a in
      let r := (inject_Z (roundHalfEven (a / 2 ^ e)) * 2 ^ e)%Q in
      if Qle_bool (2 ^ 1024) r
      then match s with Lt => NegInf | _ => PosInf end
      else Fin (Q2Qc match s with Lt => - r | _ => r end)
  end.

(** [Number.MAX_SAFE_INTEGER] *)
Definition maxSafe : Z := 2 ^ 53 - 1.

(** The value of a finite binary64 number given by sign, mantissa and
    exponent, as the Standard Library's specification of IEEE 754 has it. *)
Definition ofSpecFloat (f : spec_float) : number :=
  match f with
  | S754_zero _ => zero
  | S754_infinity negative => if negative then NegInf else PosInf
  | S754_nan => NaN
  | S754_finite negative m e =>
      Fin (Q2Qc (inject_Z (if negative then Z.neg m else Z.pos m) * 2 ^ e))
  end.

(** Two numbers are the same value. *)
Definition sameValue (a b : number) : bool :=
  match a, b with
  | NaN, NaN | NegInf, NegInf | PosInf, PosInf => true
  | Fin x, Fin y => Qeq_bool x y
  | _, _ => false
  end.

(** [a + b] *)
Definition add (a b : number) : number :=
  match a, b with
  | NaN, _ | _, NaN => NaN
  | Fin x, Fin y => numberValue (x + y)%Qc
  | PosInf, NegInf | NegInf, PosInf => NaN
  | PosInf, _ | _, PosInf => PosInf
  | NegInf, _ | _, NegInf => NegInf
  end.

Definition neg (a : number) : number :=
  match a with
  | NaN => NaN
  | NegInf => PosInf
  | Fin x => Fin (- x)%Qc
  | PosInf => NegInf
  end.

(** An infinity scaled by the sign of the other factor. *)
Definition scale_inf (inf : number) (s : comparison) : number :=
  match s with
  | Eq => NaN
  | Gt => inf
  | Lt => neg inf
  end.

(** [a * b] *)
Definition mul (a b : number) : number :=
  match a, b with
  | NaN, _ | _, NaN => NaN
  | Fin x, Fin y => numberValue (x * y)%Qc
  | Fin x, (PosInf | NegInf) => scale_inf b (sgn x)
  | (PosInf | NegInf), Fin y => scale_inf a (sgn y)
  | PosInf, PosInf | NegInf, NegInf => PosInf
  | PosInf, NegInf | NegInf, PosInf => NegInf
  end.

(** [a < b]; every comparison with [NaN] is false. *)
Definition lt (a b : number) : bool :=
  match a, b with
  | NaN, _ | _, NaN => false
  | Fin x, Fin y => match Qccompare x y with Lt => true | _ => false end
  | NegInf, (Fin _ | PosInf) => true
  | Fin _, PosInf => true
  | _, _ => false
  end.

(** [a > b] *)
Definition gt (a b : number) : bool := lt b a.

(** [a >= b] *)
Definition ge (a b : number) : bool :=
  match a, b with
  | NaN, _ | _, NaN => false
  | _, _ => negb (lt a b)
  end.

(** Truthiness of a number: [0] and [NaN] are falsy. *)
Definition truthy (a : number) : bool :=
  match a with
  | NaN => false
  | Fin x => match sgn x with Eq => false | _ => true end
  | _ => true
  end.

(** Truthiness of a string: only the empty string is falsy. *)
Definition truthyS (s : string) : bool :=
  match s with
  | EmptyString => false
  | _ => true
  end.

(** [v || d] for a possibly undefined number. *)
Definition orDefault (v : option number) (d : number) : number :=
  match v with
  | Some x => if truthy x then x else d
  | None => d
  end.

(** *** Strings: [trim], [parseInt], [parseFloat] *)

(** The string of the given bytes. *)
Definition bytes (l : list Z) : string :=
  string_of_list_ascii (map (fun z => ascii_of_nat (Z.to_nat z)) l).

(** The white space and line terminator characters, which [trim],
    [parseInt] and [parseFloat] skip, in UTF-8: U+0009 to U+000D, U+0020,
    U+00A0, U+1680, U+2000 to U+200A, U+2028, U+2029, U+202F, U+205F, U+3000
    and U+FEFF. *)
Definition whiteSpace : list string :=
  map bytes
    [[9]; [10]; [11]; [12]; [13]; [32]; [194; 160]; [225; 154; 128];
     [226; 128; 128]; [226; 128; 129]; [226; 128; 130]; [226; 128; 131];
     [226; 128; 132]; [226; 128; 133]; [226; 128; 134]; [226; 128; 135];
     [226; 128; 136]; [226; 128; 137]; [226; 128; 138];
     [226; 128; 168]; [226; 128; 169]; [226; 128; 175]; [226; 129; 159];
     [227; 128; 128]; [239; 187; 191]].

(** [s] without the prefix [p], when it starts with it. *)
Fixpoint dropPrefix (p s : string) : option string :=
  match p, s with
  | EmptyString, _ => Some s
  | String a p', String b s' => if Ascii.eqb a b then dropPrefix p' s' else None
  | String _ _, EmptyString => None
  end.

(** [s] without the first of the given sequences that it starts with. *)
Fixpoint dropFirst (ps : list string) (s : string) : option string :=
  match ps with
  | [] => None
  | p :: rest =>
      match dropPrefix p s with
      | Some r => Some r
      | None => dropFirst rest s
      end
  end.

(** [s] without the sequences it starts with, at most [fuel] of them; the
    length of [s] is fuel enough, the sequences not being empty. *)
Fixpoint skip (ps : list string) (fuel : nat) (s : string) : string :=
  match fuel with
  | O => s
  | S n =>
      match dropFirst ps s with
      | Some r => skip ps n r
      | None => s
      end
  end.

Definition trimStart (s : string) : string :=
  skip whiteSpace (String.length s) s.

Definition trimEnd (s : string) : string :=
  String.rev (skip (map String.rev whiteSpace) (String.length s) (String.rev s)).

(** [s.trim()] *)
Definition trim (s : string) : string := trimEnd (trimStart s).

(** Value of a character as a digit in the given radix. *)
Definition digitVal (radix : Z) (c : ascii) : option Z :=
  let n := Z.of_nat (nat_of_ascii c) in
  let v :=
    if (48 <=? n) && (n <=? 57) then Some (n - 48)
    else if (97 <=? n) && (n <=? 122) then Some (n - 87)
    else if (65 <=? n) && (n <=? 90) then Some (n - 55)
    else None in
  match v with
  | Some d => if d <? radix then Some d else None
  | None => None
  end.

(** The longest prefix of digits, and what follows it. *)
Fixpoint takeDigits (radix : Z) (s : string) : list Z * string :=
  match s with
  | String c r =>
      match digitVal radix c with
      | Some d => let '(ds, rest) := takeDigits radix r in (d :: ds, rest)
      | None => ([], s)
      end
  | EmptyString => ([], EmptyString)
  end.

Definition digitsValue (radix : Z) (ds : list Z) : Z :=
  fold_left (fun acc d => acc * radix + d) ds 0.

(** An optional sign: [true] for a minus sign. *)
Definition takeSign (s : string) : bool * string :=
  match s with
  | String "-" r => (true, r)
  | String "+" r => (false, r)
  | _ => (false, s)
  end.

Definition signed (negative : bool) (z : Z) : Z :=
  if negative then - z else z.

(** [parseInt(s)] with no radix argument. *)
Definition parseInt (s : string) : number :=
  let '(negative, s1) := takeSign (trimStart s) in
  let '(radix, s2) :=
    match s1 with
    | String "0" (String "x" r) | String "0" (String "X" r) => (16, r)
    | _ => (10, s1)
    end in
  match takeDigits radix s2 with
  | ([], _) => NaN
  | (ds, _) => numberValue (inject_Z (signed negative (digitsValue radix ds)))
  end.

(** [10 ^ e] as a rational, for a positive or negative exponent. *)
Definition pow10 (e : Z) : Q :=
  match e with
  | Z0 => 1
  | Zpos p => inject_Z (10 ^ Zpos p)
  | Zneg p => 1 # (Pos.pow 10 p)
  end.

(** The exponent part of a decimal literal, [0] when there is none. *)
Definition takeExponent (s : string) : Z :=
  match s with
  | String "e" r | String "E" r =>
      let '(negative, r1) := takeSign r in
      match takeDigits 10 r1 with
      | ([], _) => 0
      | (ds, _) => signed negative (digitsValue 10 ds)
      end
  | _ => 0
  end.

(** [parseFloat(s)]: the longest prefix of the trimmed string that is a
    decimal literal. *)
Definition parseFloat (s : string) : number :=
  let '(negative, s1) := takeSign (trimStart s) in
  if String.prefix "Infinity" s1 then (if negative then NegInf else PosInf)
  else
    let '(ip, s2) := takeDigits 10 s1 in
    let '(fp, s3) :=
      match s2 with
      | String "." r => takeDigits 10 r
      | _ => ([], s2)
      end in
    match ip, fp with
    | [], [] => NaN
    | _, _ =>
        let mantissa := digitsValue 10 (ip ++ fp) in
        let e := takeExponent s3 - Z.of_nat (length fp) in
        numberValue (inject_Z (signed negative mantissa) * pow10 e)
    end.

(** [arr.sort(comparefn)]: the sort is stable, and [comparefn a b <= 0]
    keeps [a] before [b].  Insertion from the right realises it. *)
Section Sort.
Context {A : Type} (comparefn : A -> A -> Z).

Fixpoint insert (x : A) (l : list A) : list A :=
  match l with
  | [] => [x]
  | y :: ys => if comparefn x y <=? 0 then x :: y :: ys else y :: insert x ys
  end.

Fixpoint sort (l : list A) : list A :=
  match l with
  | [] => []
  | x :: xs => insert x (sort xs)
  end.

End Sort.

(** [arr.slice(0, n)] *)
Definition slice0 {A : Type} (n : nat) (l : list A) : list A := firstn n l.

End JS.

(* ===================================================================== *)
(** ** Data model *)
(* ===================================================================== *)

(** The literal type [1 | 2 | 3 | 4 | 5]. *)
Inductive Difficulty : Type := D1 | D2 | D3 | D4 | D5.

Definition Difficulty_value (d : Difficulty) : Z :=
  match d with D1 => 1 | D2 => 2 | D3 => 3 | D4 => 4 | D5 => 5 end.

Module Lift.
Record t : Type := mk {
  id : string;
  name : string;
  createdAt : Z
}.
End Lift.

Module WorkoutEntry.
Record t : Type := mk {
  id : string;
  liftId : string;
  weight : JS.number;
  reps : JS.number;
  sets : JS.number;
  difficulty : Difficulty;
  date : Z
}.
End WorkoutEntry.

(* ===================================================================== *)
(** ** Sync bridge ([lib/database]) *)
(* ===================================================================== *)

Module Database.

(** What a statement of the source can do: complete, or throw. *)
Inductive completion (A : Type) : Type :=
| Normal (a : A)
| Throw.
Arguments Normal {A} a.
Arguments Throw {A}.

(** [try { body } catch { handler }] *)
Definition tryCatch {A : Type} (body handler : completion A) : completion A :=
  match body with
  | Normal a => Normal a
  | Throw => handler
  end.

(** The requests the page sends. *)
Inductive Request : Type :=
| PostSyncData (lifts : list Lift.t) (workouts : list WorkoutEntry.t)
               (userId : string)
| GetLoadData (userId : string).

(** The body of a response, as [response.json()] reads it: not JSON at all
    (the promise rejects), the value [null], or an object whose [lifts] and
    [workouts] members are arrays or are absent (or falsy). *)
Inductive Json : Type :=
| JsonInvalid
| JsonNull
| JsonObject (lifts : option (list Lift.t))
             (workouts : option (list WorkoutEntry.t)).

Record Response : Type := mkResponse {
  ok : bool;
  body : Json
}.

(** The network: what [await fetch(request)] yields. *)
Definition Network : Type := Request -> completion Response.

(** Computations that send requests: the value together with the requests
    sent, in order. *)
Definition Net (A : Type) : Type := Network -> A * list Request.

Definition ret {A : Type} (a : A) : Net A := fun _ => (a, []).

Definition bind {A B : Type} (m : Net A) (k : A -> Net B) : Net B :=
  fun net =>
    let '(a, sent1) := m net in
    let '(b, sent2) := k a net in
    (b, sent1 ++ sent2).

Definition fetch (r : Request) : Net (completion Response) :=
  fun net => (net r, [r]).

Notation "'let*' x ':=' m 'in' k" := (bind m (fun x => k))
  (at level 10, x name, m at level 100, k at level 200).

Record CloudData : Type := mkCloudData {
  lifts : list Lift.t;
  workouts : list WorkoutEntry.t
}.

Definition emptyData : CloudData := mkCloudData [] [].

(** [x || []] *)
Definition orEmpty {A : Type} (x : option (list A)) : list A :=
  match x with
  | Some l => l
  | None => []
  end.

Definition syncDataToCloud (lifts : list Lift.t)
    (workouts : list WorkoutEntry.t) (userId : string)
  : Net (completion bool) :=
  if negb (JS.truthyS userId) then ret (Normal false)
  else
    let* response := fetch (PostSyncData lifts workouts userId) in
    ret (tryCatch
           match response with
           | Normal r => Normal (ok r)
           | Throw => Throw
           end
           (Normal false)).

(** [await response.json()] followed by the two member reads. *)
Definition readData (b : Json) : completion CloudData :=
  match b with
  | JsonInvalid => Throw
  | JsonNull => Throw
  | JsonObject l w => Normal (mkCloudData (orEmpty l) (orEmpty w))
  end.

Definition loadDataFromCloud (userId : string) : Net (completion CloudData) :=
  if negb (JS.truthyS userId) then ret (Normal emptyData)
  else
    let* response := fetch (GetLoadData userId) in
    ret match
          tryCatch
            match response with
            | Normal r => if ok r then
                            match readData (body r) with
                            | Normal d => Normal (Some d)
                            | Throw => Throw
                            end
                          else Normal None
            | Throw => Throw
            end
            (Normal None)
        with
        | Normal (Some d) => Normal d
        | Normal None => Normal emptyData
        | Throw => Throw
        end.

(** The data a response carries, when it carries any: the lists read from
    the body of an ok response, and empty lists in every other case. *)
Definition carried (r : completion Response) : CloudData :=
  match r with
  | Normal r =>
      if ok r then
        match body r with
        | JsonObject l w => mkCloudData (orEmpty l) (orEmpty w)
        | _ => emptyData
        end
      else emptyData
  | Throw => emptyData
  end.

End Database.

(* ===================================================================== *)
(** ** The page component ([GymTracker]) *)
(* ===================================================================== *)

Module Component.

Import Database.

(** What [useUser()] gives: the three values the page reads.  [user] is the
    identifier of the signed-in user, when there is a user object. *)
Record Session : Type := mkSession {
  isSignedIn : bool;
  user : option string;
  isLoaded : bool
}.

(** [user?.id], as a condition. *)
Definition hasUserId (ss : Session) : bool :=
  match user ss with
  | Some uid => JS.truthyS uid
  | None => false
  end.

(** [user.id] where the page has tested it. *)
Definition userId (ss : Session) : string :=
  match user ss with
  | Some uid => uid
  | None => ""
  end.

Definition storageKey (ss : Session) : string :=
  if isSignedIn ss && hasUserId ss then userId ss else "anonymous".

(** A value kept in [localStorage]: the serialised array of one of the two
    kinds, represented by the array it serialises.  (The JSON text has
    [null] where a number is NaN or infinite; the statements below that
    read the storage compare one state of it with another.) *)
Inductive Stored : Type :=
| StoredLifts (l : list Lift.t)
| StoredWorkouts (l : list WorkoutEntry.t).

(** The state of the component: the two arrays, the form fields, the sync
    flag, and the browser storage the hooks write to. *)
Record State : Type := mkState {
  lifts : list Lift.t;
  workouts : list WorkoutEntry.t;
  newLiftName : string;
  selectedLiftId : string;
  weight : string;
  reps : string;
  sets : string;
  difficulty : Difficulty;
  issyncing : bool;
  localStorage : gmap string Stored
}.

Definition initial : State :=
  mkState [] [] "" "" "" "" "" D3 false ∅.

Definition liftsKey (key : string) : string := "gym-lifts-" +:+ key.
Definition workoutsKey (key : string) : string := "gym-workouts-" +:+ key.

(** The setter returned by [useLocalStorage] for the exercise list.  The
    state is set and the item written; the write is that of a storage that
    takes it.  (The hook swallows a write that throws, leaving the state
    ahead of the storage: that path is in [Hook.setValue].) *)
Definition setLifts (key : string) (value : list Lift.t) (s : State) : State :=
  mkState value (workouts s) (newLiftName s) (selectedLiftId s) (weight s)
          (reps s) (sets s) (difficulty s) (issyncing s)
          (<[liftsKey key := StoredLifts value]> (localStorage s)).

(** The setter returned by [useLocalStorage] for the workout list. *)
Definition setWorkouts (key : string) (value : list WorkoutEntry.t)
    (s : State) : State :=
  mkState (lifts s) value (newLiftName s) (selectedLiftId s) (weight s)
          (reps s) (sets s) (difficulty s) (issyncing s)
          (<[workoutsKey key := StoredWorkouts value]> (localStorage s)).

Definition setNewLiftName (v : string) (s : State) : State :=
  mkState (lifts s) (workouts s) v (selectedLiftId s) (weight s)
          (reps s) (sets s) (difficulty s) (issyncing s) (localStorage s).

Definition setSelectedLiftId (v : string) (s : State) : State :=
  mkState (lifts s) (workouts s) (newLiftName s) v (weight s)
          (reps s) (sets s) (difficulty s) (issyncing s) (localStorage s).

Definition setWeight (v : string) (s : State) : State :=
  mkState (lifts s) (workouts s) (newLiftName s) (selectedLiftId s) v
          (reps s) (sets s) (difficulty s) (issyncing s) (localStorage s).

Definition setReps (v : string) (s : State) : State :=
  mkState (lifts s) (workouts s) (newLiftName s) (selectedLiftId s) (weight s)
          v (sets s) (difficulty s) (issyncing s) (localStorage s).

Definition setSets (v : string) (s : State) : State :=
  mkState (lifts s) (workouts s) (newLiftName s) (selectedLiftId s) (weight s)
          (reps s) v (difficulty s) (issyncing s) (localStorage s).

Definition setDifficulty (v : Difficulty) (s : State) : State :=
  mkState (lifts s) (workouts s) (newLiftName s) (selectedLiftId s) (weight s)
          (reps s) (sets s) v (issyncing s) (localStorage s).

Definition setIsSyncing (v : bool) (s : State) : State :=
  mkState (lifts s) (workouts s) (newLiftName s) (selectedLiftId s) (weight s)
          (reps s) (sets s) (difficulty s) v (localStorage s).

(** [localStorage.setItem(key, JSON.stringify(value))] *)
Definition setItem (key : string) (value : Stored) (s : State) : State :=
  mkState (lifts s) (workouts s) (newLiftName s) (selectedLiftId s) (weight s)
          (reps s) (sets s) (difficulty s) (issyncing s)
          (<[key := value]> (localStorage s)).

(** [arr.sort(...)] on the array held in the [workouts] cell: the array
    itself is reordered; no setter runs and nothing is stored. *)
Definition sortWorkoutsInPlace (comparefn : WorkoutEntry.t -> WorkoutEntry.t -> Z)
    (s : State) : State :=
  mkState (lifts s) (JS.sort comparefn (workouts s)) (newLiftName s)
          (selectedLiftId s) (weight s) (reps s) (sets s) (difficulty s)
          (issyncing s) (localStorage s).

(** *** Record store operations *)

Definition addLift (key : string) (now nowDate : Z) (s : State) : State :=
  if JS.truthyS (JS.trim (newLiftName s)) then
    let newLift := Lift.mk (pretty now) (JS.trim (newLiftName s)) nowDate in
    setNewLiftName "" (setLifts key (lifts s ++ [newLift]) s)
  else s.

Definition deleteLift (key : string) (id : string) (s : State) : State :=
  setWorkouts key
    (List.filter (fun workout => negb (String.eqb (WorkoutEntry.liftId workout) id))
                 (workouts s))
    (setLifts key
       (List.filter (fun lift => negb (String.eqb (Lift.id lift) id)) (lifts s))
       s).

Definition logWorkout (key : string) (now nowDate : Z) (s : State) : State :=
  if JS.truthyS (selectedLiftId s) && JS.truthyS (weight s)
     && JS.truthyS (reps s) && JS.truthyS (sets s) then
    let newWorkout :=
      WorkoutEntry.mk (pretty now) (selectedLiftId s)
                      (JS.parseFloat (weight s)) (JS.parseInt (reps s))
                      (JS.parseInt (sets s)) (difficulty s) nowDate in
    setDifficulty D3
      (setSets "" (setReps "" (setWeight ""
         (setWorkouts key (newWorkout :: workouts s) s))))
  else s.

Definition deleteWorkout (key : string) (id : string) (s : State) : State :=
  setWorkouts key
    (List.filter (fun workout => negb (String.eqb (WorkoutEntry.id workout) id))
                 (workouts s))
    s.

(** *** Metrics engine *)

Record Metrics : Type := mkMetrics {
  totalSessions : nat;
  totalWeight : JS.number;
  uniqueExercises : nat;
  lastWorkoutDate : option Z;
  daysSinceLastWorkout : option Z;
  personalRecords : nat
}.

(** [Math.max(...l)] on a non-empty argument list. *)
Definition maxOf (first : Z) (others : list Z) : Z :=
  fold_left Z.max others first.

(** The callback of [workouts.reduce]. *)
Definition addVolume (sum : JS.number) (w : WorkoutEntry.t) : JS.number :=
  JS.add sum (JS.mul (JS.mul (WorkoutEntry.weight w) (WorkoutEntry.reps w))
                     (WorkoutEntry.sets w)).

(** The callback of [workouts.forEach], on the map of records. *)
Definition trackRecord (personalRecords : gmap string JS.number)
    (w : WorkoutEntry.t) : gmap string JS.number :=
  let current :=
    JS.orDefault (personalRecords !! WorkoutEntry.liftId w) JS.zero in
  if JS.gt (WorkoutEntry.weight w) current
  then <[WorkoutEntry.liftId w := WorkoutEntry.weight w]> personalRecords
  else personalRecords.

Definition msPerDay : Z := 1000 * 60 * 60 * 24.

Definition getMetrics (now : Z) (s : State) : Metrics * State :=
  let totalSessions := length (workouts s) in
  let totalWeight := fold_left addVolume (workouts s) JS.zero in
  let uniqueExercises :=
    size (list_to_set (map WorkoutEntry.liftId (workouts s)) : gset string) in
  let lastWorkoutDate :=
    match map WorkoutEntry.date (workouts s) with
    | d :: ds => Some (maxOf d ds)
    | [] => None
    end in
  let daysSinceLastWorkout :=
    match lastWorkoutDate with
    | Some d => Some ((now - d) / msPerDay)
    | None => None
    end in
  let personalRecords := fold_left trackRecord (workouts s) ∅ in
  (mkMetrics totalSessions totalWeight uniqueExercises lastWorkoutDate
             daysSinceLastWorkout (size personalRecords),
   s).

Inductive Progression : Type := up | down | neutral.

(** The comparison of the last two entries of an exercise. *)
Definition compareEntries (recent previous : WorkoutEntry.t) : Progression :=
  if JS.gt (WorkoutEntry.weight recent) (WorkoutEntry.weight previous) then up
  else if JS.lt (WorkoutEntry.weight recent) (WorkoutEntry.weight previous) then down
  else if JS.gt (WorkoutEntry.reps recent) (WorkoutEntry.reps previous) then up
  else if JS.lt (WorkoutEntry.reps recent) (WorkoutEntry.reps previous) then down
  else neutral.

Definition byDateAscending (a b : WorkoutEntry.t) : Z :=
  WorkoutEntry.date a - WorkoutEntry.date b.

Definition byDateDescending (a b : WorkoutEntry.t) : Z :=
  WorkoutEntry.date b - WorkoutEntry.date a.

(** [filter] builds a new array, which is the one sorted: the state array
    is only read. *)
Definition getExerciseProgression (liftId : string) (s : State)
  : Progression * State :=
  let exerciseWorkouts :=
    JS.sort byDateAscending
      (List.filter (fun w => String.eqb (WorkoutEntry.liftId w) liftId)
                   (workouts s)) in
  (if (length exerciseWorkouts <? 2)%nat then neutral
   else
     match exerciseWorkouts !! (length exerciseWorkouts - 1)%nat,
           exerciseWorkouts !! (length exerciseWorkouts - 2)%nat with
     | Some recent, Some previous => compareEntries recent previous
     | _, _ => neutral (* not reached: both indices are in range *)
     end,
   s).

(** [sort] is called on the state array itself, [slice] copies. *)
Definition getRecentWorkouts (s : State) : list WorkoutEntry.t * State :=
  let s' := sortWorkoutsInPlace byDateDescending s in
  (JS.slice0 5 (workouts s'), s').

(** *** Cloud synchronisation *)

(** The callbacks below are created by a render and read the arrays and
    the flag of that render ([closure]); the setters they call act on the
    state current when they run ([s]). *)

Definition syncToCloud (ss : Session) (closure s : State) : Net State :=
  if negb (hasUserId ss) || issyncing closure then ret s
  else
    let* _ := syncDataToCloud (lifts closure) (workouts closure) (userId ss) in
    ret (setIsSyncing false (setIsSyncing true s)).

Definition loadFromCloud (ss : Session) (s : State) : Net State :=
  if negb (hasUserId ss) then ret s
  else
    let* cloudData := loadDataFromCloud (userId ss) in
    ret match cloudData with
        | Normal cloudData =>
            if (0 <? length (Database.lifts cloudData))%nat
               || (0 <? length (Database.workouts cloudData))%nat
            then
              setItem (workoutsKey (userId ss))
                      (StoredWorkouts (Database.workouts cloudData))
                (setItem (liftsKey (userId ss))
                         (StoredLifts (Database.lifts cloudData))
                   (setWorkouts (storageKey ss) (Database.workouts cloudData)
                      (setLifts (storageKey ss) (Database.lifts cloudData) s)))
            else s
        | Throw => s
        end.

(** The effect that runs when the user signs in: the pull is started, then
    the push of the arrays of the current render. *)
Definition autoSync (ss : Session) (s : State) : Net State :=
  if isSignedIn ss && hasUserId ss && isLoaded ss then
    let* s1 := loadFromCloud ss s in
    if (0 <? length (lifts s))%nat || (0 <? length (workouts s))%nat
    then syncToCloud ss s s1
    else ret s1
  else ret s.

(** *** The operations a user can perform, and runs of them *)

Inductive Action : Type :=
| TypeNewLiftName (v : string)
| AddLift (now nowDate : Z)
| SelectLift (v : string)
| TypeWeight (v : string)
| TypeReps (v : string)
| TypeSets (v : string)
| PickDifficulty (v : Difficulty)
| LogWorkout (now nowDate : Z)
| DeleteLift (id : string)
| DeleteWorkout (id : string).

Definition step (key : string) (s : State) (a : Action) : State :=
  match a with
  | TypeNewLiftName v => setNewLiftName v s
  | AddLift now nowDate => addLift key now nowDate s
  | SelectLift v => setSelectedLiftId v s
  | TypeWeight v => setWeight v s
  | TypeReps v => setReps v s
  | TypeSets v => setSets v s
  | PickDifficulty v => setDifficulty v s
  | LogWorkout now nowDate => logWorkout key now nowDate s
  | DeleteLift id => deleteLift key id s
  | DeleteWorkout id => deleteWorkout key id s
  end.

Definition run (key : string) (actions : list Action) (s : State) : State :=
  fold_left (step key) actions s.

End Component.

(* ===================================================================== *)
(** ** What the specification says, in its own terms *)
(* ===================================================================== *)

Module Spec.

(** The strings made of the given sequences, one after another. *)
Inductive madeOf (ps : list string) : string -> Prop :=
| madeOf_nil : madeOf ps ""
| madeOf_cons (p s : string) : In p ps -> madeOf ps s -> madeOf ps (p +:+ s).

(** None of the sequences is empty, and none starts with another. *)
Definition nonEmptyAll (ps : list string) : bool :=
  forallb (fun p => negb (String.eqb p "")) ps.

Definition prefixFree (ps : list string) : bool :=
  forallb (fun p =>
    forallb (fun q => match JS.dropPrefix p q with
                      | Some r => String.eqb r ""
                      | None => true
                      end) ps) ps.

(** The volume of one entry: weight x reps x sets. *)
Definition volume (w : WorkoutEntry.t) : JS.number :=
  JS.mul (JS.mul (WorkoutEntry.weight w) (WorkoutEntry.reps w))
         (WorkoutEntry.sets w).

(** The rational value of a finite number. *)
Definition rational (a : JS.number) : Qc :=
  match a with
  | JS.Fin q => q
  | _ => Q2Qc 0
  end.

Definition isFinite (a : JS.number) : Prop :=
  match a with
  | JS.Fin _ => True
  | _ => False
  end.

Definition finiteEntry (w : WorkoutEntry.t) : Prop :=
  isFinite (WorkoutEntry.weight w) /\ isFinite (WorkoutEntry.reps w)
  /\ isFinite (WorkoutEntry.sets w).

(** The same sum computed over the rationals. *)
Fixpoint rationalSum (ws : list WorkoutEntry.t) : Qc :=
  match ws with
  | [] => Q2Qc 0
  | w :: rest =>
      (rational (WorkoutEntry.weight w) * rational (WorkoutEntry.reps w)
       * rational (WorkoutEntry.sets w) + rationalSum rest)%Qc
  end.

(** [z] units of [2 ^ - k], as a number: the whole numbers for [k = 0], the
    multiples of a half for [k = 1], of a quarter for [k = 2], ... *)
Definition ofUnits (k z : Z) : JS.number :=
  JS.Fin (Q2Qc (inject_Z z * 2 ^ (- k))).

(** The count of units of [2 ^ - k] in a number that is a whole number of
    them. *)
Definition inUnits (k : Z) (a : JS.number) : option Z :=
  match a with
  | JS.Fin q =>
      let x := Qred (q * 2 ^ k) in
      if (Qden x =? 1)%positive then Some (Qnum x) else None
  | _ => None
  end.

(** The volume of an entry in units of [2 ^ - k]: defined when the weight is
    a whole number of units, reps and sets are whole numbers, and
    weight x reps is within the safe integers. *)
Definition volumeUnits (k : Z) (w : WorkoutEntry.t) : option Z :=
  match inUnits k (WorkoutEntry.weight w), inUnits 0 (WorkoutEntry.reps w),
        inUnits 0 (WorkoutEntry.sets w) with
  | Some a, Some b, Some c =>
      if Z.abs (a * b) <=? JS.maxSafe then Some (a * b * c) else None
  | _, _, _ => None
  end.

(** The sum of the magnitudes of the volumes, in units. *)
Fixpoint magnitude (k : Z) (ws : list WorkoutEntry.t) : option Z :=
  match ws with
  | [] => Some 0
  | w :: rest =>
      match volumeUnits k w, magnitude k rest with
      | Some v, Some m => Some (Z.abs v + m)
      | _, _ => None
      end
  end.

(** The sum of the volumes, in units. *)
Fixpoint totalUnits (k : Z) (ws : list WorkoutEntry.t) : Z :=
  match ws with
  | [] => 0
  | w :: rest =>
      match volumeUnits k w with Some v => v | None => 0 end
      + totalUnits k rest
  end.

(** The entries can be totalled without rounding: for some unit [2 ^ - k]
    every weight is a whole number of units, reps and sets are whole
    numbers, and the magnitudes of the volumes add up to a safe integer of
    units. *)
Definition exactTotal (k : Z) (ws : list WorkoutEntry.t) : Prop :=
  0 <= k <= 1074
  /\ exists m, magnitude k ws = Some m /\ m <= JS.maxSafe.

(** Two results of [getMetrics] that agree on every field but, possibly,
    the total volume. *)
Definition sameButTotal (m m' : Component.Metrics) : Prop :=
  Component.totalSessions m = Component.totalSessions m'
  /\ Component.uniqueExercises m = Component.uniqueExercises m'
  /\ Component.lastWorkoutDate m = Component.lastWorkoutDate m'
  /\ Component.daysSinceLastWorkout m = Component.daysSinceLastWorkout m'
  /\ Component.personalRecords m = Component.personalRecords m'.

(** The ranges the data model gives for the fields of an entry. *)
Definition validEntry (w : WorkoutEntry.t) : Prop :=
  JS.ge (WorkoutEntry.weight w) (JS.ofZ 0) = true
  /\ JS.ge (WorkoutEntry.reps w) (JS.ofZ 1) = true
  /\ JS.ge (WorkoutEntry.sets w) (JS.ofZ 1) = true
  /\ 1 <= Difficulty_value (WorkoutEntry.difficulty w) <= 5.

(** What the code does ensure of an entry it creates. *)
Definition loggedEntry (w : WorkoutEntry.t) : Prop :=
  WorkoutEntry.liftId w <> ""
  /\ (exists field : string,
        field <> "" /\ WorkoutEntry.weight w = JS.parseFloat field)
  /\ (exists field : string,
        field <> "" /\ WorkoutEntry.reps w = JS.parseInt field)
  /\ (exists field : string,
        field <> "" /\ WorkoutEntry.sets w = JS.parseInt field)
  /\ 1 <= Difficulty_value (WorkoutEntry.difficulty w) <= 5.

(** The form is complete when none of its four required fields is empty. *)
Definition complete (s : Component.State) : bool :=
  JS.truthyS (Component.selectedLiftId s) && JS.truthyS (Component.weight s)
  && JS.truthyS (Component.reps s) && JS.truthyS (Component.sets s).

(** The entry the data model describes for a submitted form: the selected
    exercise, the weight read by [parseFloat] from the weight field, reps
    and sets read by [parseInt] from their fields, the difficulty picked. *)
Definition formEntry (now nowDate : Z) (s : Component.State)
  : WorkoutEntry.t :=
  WorkoutEntry.mk (pretty now) (Component.selectedLiftId s)
                  (JS.parseFloat (Component.weight s))
                  (JS.parseInt (Component.reps s))
                  (JS.parseInt (Component.sets s))
                  (Component.difficulty s) nowDate.

(** [e] was logged in the run [actions]: a submission of the run, made with
    a complete form, created it from the fields the form held then. *)
Definition loggedIn (key : string) (actions : list Component.Action)
    (e : WorkoutEntry.t) : Prop :=
  exists before now nowDate after,
    actions = before ++ Component.LogWorkout now nowDate :: after
    /\ complete (Component.run key before Component.initial) = true
    /\ e = formEntry now nowDate (Component.run key before Component.initial).

(** Entries with a weight above zero. *)
Definition liftedWeight (w : WorkoutEntry.t) : bool :=
  JS.gt (WorkoutEntry.weight w) JS.zero.

(** The distinct exercise identifiers of a list of entries. *)
Definition exerciseIds (ws : list WorkoutEntry.t) : gset string :=
  list_to_set (map WorkoutEntry.liftId ws).

(** The identifiers of the exercises with an entry of weight above zero. *)
Definition liftedIds (ws : list WorkoutEntry.t) : gset string :=
  list_to_set (map WorkoutEntry.liftId (List.filter liftedWeight ws)).

(** Every recorded weight is above zero. *)
Definition recordsPositive (m : gmap string JS.number) : Prop :=
  forall k v, m !! k = Some v -> JS.gt v JS.zero = true.

(** The entries of one exercise. *)
Definition entriesOf (liftId : string) (ws : list WorkoutEntry.t)
  : list WorkoutEntry.t :=
  List.filter (fun w => String.eqb (WorkoutEntry.liftId w) liftId) ws.

(** The entries of one date. *)
Definition onDate (d : Z) (ws : list WorkoutEntry.t) : list WorkoutEntry.t :=
  List.filter (fun w => WorkoutEntry.date w =? d) ws.

(** [a] is dated no earlier than [b]. *)
Definition notEarlier (a b : WorkoutEntry.t) : Prop :=
  WorkoutEntry.date b <= WorkoutEntry.date a.

(** The key under which ascending order is descending order of dates. *)
Definition negDate (w : WorkoutEntry.t) : Z := - WorkoutEntry.date w.

(** An entry with its sets and difficulty replaced. *)
Definition withSetsDifficulty (w : WorkoutEntry.t) (sets : JS.number)
    (difficulty : Difficulty) : WorkoutEntry.t :=
  WorkoutEntry.mk (WorkoutEntry.id w) (WorkoutEntry.liftId w)
                  (WorkoutEntry.weight w) (WorkoutEntry.reps w)
                  sets difficulty (WorkoutEntry.date w).

(** A pulled partition is empty when both of its lists are. *)
Definition emptyPartition (d : Database.CloudData) : Prop :=
  Database.lifts d = [] /\ Database.workouts d = [].

(** A push of the given lists was sent. *)
Definition pushed (lifts : list Lift.t) (workouts : list WorkoutEntry.t)
    (userId : string) (sent : list Database.Request) : Prop :=
  In (Database.PostSyncData lifts workouts userId) sent.

(** Ordered by a key, and the elements of one key. *)
Definition keyLe {A : Type} (key : A -> Z) (a b : A) : Prop := key a <= key b.

Definition hasKey {A : Type} (key : A -> Z) (d : Z) (a : A) : bool :=
  key a =? d.

(** The elements whose identifier is not [E]. *)
Definition keepOthers {A : Type} (ident : A -> string) (E : string)
    (l : list A) : list A :=
  List.filter (fun x => negb (String.eqb (ident x) E)) l.

(** The sign-in effect runs for a loaded session of a signed-in user. *)
Definition signedIn (ss : Component.Session) : Prop :=
  Component.isSignedIn ss = true /\ Component.hasUserId ss = true
  /\ Component.isLoaded ss = true.

(** What the pull of this session returns on this network. *)
Definition pulled (ss : Component.Session) (net : Database.Network)
  : Database.completion Database.CloudData :=
  fst (Database.loadDataFromCloud (Component.userId ss) net).

Definition nonEmpty {A : Type} (l : list A) : bool := (0 <? length l)%nat.

(** The state after a pull that carried [d]. *)
Definition replaced (ss : Component.Session) (d : Database.CloudData)
    (s : Component.State) : Component.State :=
  Component.setItem (Component.workoutsKey (Component.userId ss))
      (Component.StoredWorkouts (Database.workouts d))
    (Component.setItem (Component.liftsKey (Component.userId ss))
        (Component.StoredLifts (Database.lifts d))
       (Component.setWorkouts (Component.storageKey ss) (Database.workouts d)
          (Component.setLifts (Component.storageKey ss) (Database.lifts d) s))).

End Spec.

(* ===================================================================== *)
(** ** Sample data *)
(* ===================================================================== *)

Module Sample.

Import Database Component.

Definition squat : Lift.t := Lift.mk "1" "Squat" 1.
Definition bench : Lift.t := Lift.mk "2" "Bench Press" 2.

(** An entry with whole-number fields. *)
Definition entry (id liftId : string) (weight reps sets : Z)
    (difficulty : Difficulty) (date : Z) : WorkoutEntry.t :=
  WorkoutEntry.mk id liftId (JS.ofZ weight) (JS.ofZ reps) (JS.ofZ sets)
                  difficulty date.

(** A loaded session of a signed-in user. *)
Definition session : Session := mkSession true (Some "user_1") true.

(** A state whose only entry was done with no load: its weight is 0. *)
Definition bodyweightOnly : State :=
  mkState [squat] [entry "10" "1" 0 10 3 D3 10] "" "" "" "" "" D3 false ∅.

(** A state whose two entries are held oldest first. *)
Definition oldestFirst : State :=
  mkState [squat]
          [entry "10" "1" 100 5 3 D3 10; entry "20" "1" 105 5 3 D3 20]
          "" "" "" "" "" D3 false ∅.

(** A user logs two sessions of one exercise; the clock reads 20 at the
    first and, having been set back, 10 at the second. *)
Definition clockSetBack : list Action :=
  [TypeNewLiftName "Squat"; AddLift 1 1; SelectLift "1";
   TypeWeight "105"; TypeReps "5"; TypeSets "3"; LogWorkout 20 20;
   TypeWeight "100"; TypeReps "5"; TypeSets "3"; LogWorkout 10 10].

(** A user adds an exercise, selects it, and logs a session with a
    negative load and no reps or sets. *)
Definition sloppyInput : list Action :=
  [TypeNewLiftName "Squat"; AddLift 1 1; SelectLift "1";
   TypeWeight "-5"; TypeReps "0"; TypeSets "0"; LogWorkout 2 2].

(** Two exercises with one entry each, newest first. *)
Definition twoLifts : State :=
  mkState [squat; bench]
          [entry "20" "2" 135 8 3 D3 20; entry "10" "1" 100 5 3 D4 10]
          "" "" "" "" "" D3 false ∅.

(** The histories of the specification's examples, for exercise "1". *)
Definition history (ws : list WorkoutEntry.t) : State :=
  mkState [squat] ws "" "" "" "" "" D3 false ∅.

Definition weightWentUp : State :=
  history [entry "a" "1" 100 5 3 D3 1; entry "b" "1" 105 5 3 D3 2].

Definition repsWentDown : State :=
  history [entry "a" "1" 100 8 3 D3 1; entry "b" "1" 100 6 3 D3 2].

Definition singleEntry : State :=
  history [entry "a" "1" 100 5 3 D3 1].

(** Seven entries, two of them of the same date. *)
Definition seven : State :=
  history [entry "a" "1" 100 5 3 D3 30; entry "b" "1" 100 5 3 D3 10;
           entry "c" "1" 100 5 3 D3 70; entry "d" "1" 100 5 3 D3 40;
           entry "e" "1" 100 5 3 D3 40; entry "f" "1" 100 5 3 D3 20;
           entry "g" "1" 100 5 3 D3 60].

(** Two entries with fractional weights, as the form stores them. *)
Definition fractional : State :=
  history [WorkoutEntry.mk "a" "1" (JS.parseFloat "21.7") (JS.parseInt "6")
                           (JS.parseInt "1") D3 1;
           WorkoutEntry.mk "b" "1" (JS.parseFloat "21.8") (JS.parseInt "8")
                           (JS.parseInt "1") D3 2].

(** Binary64 values of the Standard Library's specification of IEEE 754:
    small integers, 0.1 and 0.2, values around the safe integers, the least
    and the greatest magnitudes, zero, the infinities and NaN. *)
Definition double (m e : Z) : spec_float := binary_normalize 53 1024 m e false.

Definition doubles : list spec_float :=
  [double 1500 0; double 7205759403792794 (-56);
   double 7205759403792794 (-55); double (-6107785373391258) (-48);
   double 9007199254740991 0; double (-3) (-1074);
   double 9007199254740991 971; double 1 (-600);
   S754_zero false; S754_infinity false; S754_infinity true; S754_nan].

(** Sum and product agree with those of the specification. *)
Definition agreesWithIEEE (x y : spec_float) : bool :=
  JS.sameValue (JS.ofSpecFloat (SFadd 53 1024 x y))
               (JS.add (JS.ofSpecFloat x) (JS.ofSpecFloat y))
  && JS.sameValue (JS.ofSpecFloat (SFmul 53 1024 x y))
                  (JS.mul (JS.ofSpecFloat x) (JS.ofSpecFloat y)).

(** The no-break space U+00A0. *)
Definition noBreakSpace : string := JS.bytes [194; 160].

(** Three entries as the form stores them, held oldest first. *)
Definition threeOldestFirst : State :=
  history [WorkoutEntry.mk "a" "1" (JS.parseFloat "21.7") (JS.parseInt "6")
                           (JS.parseInt "1") D3 1;
           WorkoutEntry.mk "b" "1" (JS.parseFloat "21.8") (JS.parseInt "8")
                           (JS.parseInt "1") D3 2;
           WorkoutEntry.mk "c" "1" (JS.parseFloat "100") (JS.parseInt "5")
                           (JS.parseInt "3") D3 3].

(** The form filled in with weight 100, 5 reps and 3 sets for exercise "1". *)
Definition filled (s : State) : State :=
  setSets "3" (setReps "5" (setWeight "100" (setSelectedLiftId "1" s))).

(** Two entries with weights in halves of a unit. *)
Definition halves : State :=
  history [WorkoutEntry.mk "a" "1" (JS.parseFloat "22.5") (JS.parseInt "8")
                           (JS.parseInt "3") D3 1;
           WorkoutEntry.mk "b" "1" (JS.parseFloat "62.5") (JS.parseInt "4")
                           (JS.parseInt "5") D3 2].

(** A network on which every request fails. *)
Definition offline : Network := fun _ => Throw.

(** A state with one exercise and one entry that exist only locally. *)
Definition localOnly : State :=
  mkState [bench] [entry "10" "2" 135 8 3 D3 10] "" "" "" "" "" D3 false ∅.

(** A remote partition with one exercise and no entry. *)
Definition remote : CloudData := mkCloudData [squat] [].

(** A network whose responses are ok and carry the given lists. *)
Definition serving (d : CloudData) : Network :=
  fun _ => Normal (mkResponse true
                     (JsonObject (Some (Database.lifts d))
                                 (Some (Database.workouts d)))).

(** A network whose responses are ok and carry no data. *)
Definition servingNothing : Network :=
  fun _ => Normal (mkResponse true (JsonObject None None)).

End Sample.

(* ===================================================================== *)
(** ** The storage hook ([useLocalStorage]) *)
(* ===================================================================== *)

Module Hook.

Import Database.

(** The browser as the hook sees it: whether [window] is defined, whether
    [localStorage] can be used at all (it throws when access is denied),
    the items it holds, and whether it accepts a write (it throws when the
    quota is exceeded). *)
Record Browser : Type := mkBrowser {
  hasWindow : bool;
  allowed : bool;
  items : gmap string string;
  accepts : string -> string -> bool
}.

(** [window.localStorage.getItem(key)] *)
Definition getItem (b : Browser) (key : string) : completion (option string) :=
  if allowed b then Normal (items b !! key) else Throw.

(** [window.localStorage.setItem(key, text)] *)
Definition setItem (b : Browser) (key text : string) : completion Browser :=
  if allowed b && accepts b key text
  then Normal (mkBrowser (hasWindow b) (allowed b) (<[key := text]> (items b))
                         (accepts b))
  else Throw.

Section UseLocalStorage.
Context {T : Type}.
(** [JSON.stringify] and [JSON.parse] at the type of the stored value. *)
Variable stringify : T -> completion string.
Variable parse : string -> completion T.

(** The initialiser passed to [useState]. *)
Definition initialState (b : Browser) (key : string) (initialValue : T) : T :=
  match
    tryCatch
      (if hasWindow b then
         match getItem b key with
         | Normal (Some item) =>
             if JS.truthyS item then parse item else Normal initialValue
         | Normal None => Normal initialValue
         | Throw => Throw
         end
       else Normal initialValue)
      (Normal initialValue)
  with
  | Normal v => v
  | Throw => initialValue (* not reached: the handler returns *)
  end.

(** [setValue]: the state is set first, then the item is written; what is
    thrown on the way is caught. *)
Definition setValue (key : string) (value : T) (hook : T * Browser)
  : T * Browser :=
  let b := snd hook in
  (value,
   if hasWindow b then
     match stringify value with
     | Normal text =>
         match setItem b key text with
         | Normal b' => b'
         | Throw => b
         end
     | Throw => b
     end
   else b).

(** The text a call of the setter stores, when it stores one: there is a
    [window], the value serialises, and the storage takes the text. *)
Definition stored (b : Browser) (key : string) (value : T) : option string :=
  if hasWindow b then
    match stringify value with
    | Normal text => if allowed b && accepts b key text then Some text else None
    | Throw => None
    end
  else None.

(** The setter called with one value after another. *)
Definition setValues (key : string) (values : list T) (hook : T * Browser)
  : T * Browser :=
  fold_left (fun h value => setValue key value h) values hook.

(** The text stored by the latest of the calls that stored one. *)
Definition latestStored (b : Browser) (key : string) (values : list T)
  : option string :=
  fold_left (fun text value =>
               match stored b key value with
               | Some text' => Some text'
               | None => text
               end) values None.

End UseLocalStorage.

(** A codec for truth values, as JSON writes and reads them. *)
Definition stringifyBool (v : bool) : completion string :=
  Normal (if v then "true" else "false").

Definition parseBool (text : string) : completion bool :=
  if String.eqb text "true" then Normal true
  else if String.eqb text "false" then Normal false
  else Throw.

(** A browser with an empty, usable storage. *)
Definition freshBrowser : Browser := mkBrowser true true ∅ (fun _ _ => true).

(** A browser whose storage takes texts of up to four bytes. *)
Definition smallQuota : Browser :=
  mkBrowser true true ∅ (fun _ text => (String.length text <=? 4)%nat).

End Hook.

(* ===================================================================== *)
(** ** Lookups of the page *)
(* ===================================================================== *)

Module Page.

Import Component.

(** [lifts.find(lift => lift.id === liftId)?.name || 'Unknown Lift'] *)
Definition getLiftName (liftId : string) (s : State) : string :=
  match List.find (fun lift => String.eqb (Lift.id lift) liftId) (lifts s) with
  | Some lift =>
      if JS.truthyS (Lift.name lift) then Lift.name lift else "Unknown Lift"
  | None => "Unknown Lift"
  end.

Definition labels : list string :=
  [""; "RPE 6"; "RPE 7"; "RPE 8"; "RPE 9"; "RPE 10"].

(** [labels[diff]]: an element for a whole index within the array,
    [undefined] for every other number. *)
Definition getDifficultyLabel (diff : JS.number) : option string :=
  match diff with
  | JS.Fin q =>
      if (Qden q =? 1)%positive && (0 <=? Qnum q)
      then labels !! Z.to_nat (Qnum q)
      else None
  | _ => None
  end.

(** What happens to the page: the user performs an operation, or the
    dashboard is rendered, which calls [getMetrics] and [getRecentWorkouts]
    (and [getExerciseProgression] for each recent entry). *)
Inductive Event : Type :=
| Perform (a : Action)
| RenderDashboard (now : Z).

Definition renderDashboard (now : Z) (s : State) : State :=
  let s1 := snd (getMetrics now s) in
  let '(recentWorkouts, s2) := getRecentWorkouts s1 in
  fold_left (fun st w => snd (getExerciseProgression (WorkoutEntry.liftId w) st))
            recentWorkouts s2.

Definition handle (key : string) (s : State) (e : Event) : State :=
  match e with
  | Perform a => step key s a
  | RenderDashboard now => renderDashboard now s
  end.

Definition session (key : string) (events : list Event) (s : State) : State :=
  fold_left (handle key) events s.

(** A session with a clock that is never set back: two sessions logged at
    one date, a render, a third session later, a deletion and a render. *)
Definition steadySession : list Event :=
  map Perform
    [TypeNewLiftName "Squat"; AddLift 1 1; SelectLift "1";
     TypeWeight "100"; TypeReps "5"; TypeSets "3"; LogWorkout 10 10;
     TypeWeight "102.5"; TypeReps "5"; TypeSets "3"; LogWorkout 11 10]
  ++ [RenderDashboard 12]
  ++ map Perform
       [TypeWeight "105"; TypeReps "4"; TypeSets "3"; LogWorkout 20 20;
        DeleteWorkout "10"]
  ++ [RenderDashboard 30].

(** The clock readings that become workout identifiers, and those that
    become exercise identifiers, in a sequence of operations. *)
Definition logClock (a : Action) : list Z :=
  match a with
  | LogWorkout now _ => [now]
  | _ => []
  end.

Definition liftClock (a : Action) : list Z :=
  match a with
  | AddLift now _ => [now]
  | _ => []
  end.

Definition performed (e : Event) : list Action :=
  match e with
  | Perform a => [a]
  | RenderDashboard _ => []
  end.

Definition logClocks (events : list Event) : list Z :=
  flat_map logClock (flat_map performed events).

Definition liftClocks (events : list Event) : list Z :=
  flat_map liftClock (flat_map performed events).

(** The dates given to the sessions logged, in the order of logging. *)
Definition logDate (a : Action) : list Z :=
  match a with
  | LogWorkout _ nowDate => [nowDate]
  | _ => []
  end.

Definition logDates (events : list Event) : list Z :=
  flat_map logDate (flat_map performed events).

(** A name made of white space only (or of nothing). *)
Definition blank (name : string) : Prop := Spec.madeOf JS.whiteSpace name.

(** The record kept for an exercise after all entries were seen. *)
Definition recordOf (liftId : string) (ws : list WorkoutEntry.t)
  : option JS.number :=
  fold_left trackRecord ws ∅ !! liftId.

End Page.

(* ===================================================================== *)
(** ** The two API routes ([sync-data], [load-data]) *)
(* ===================================================================== *)

Module Server.

Import Database.

(** [user.privateMetadata], as the routes read and write it. *)
Record Metadata : Type := mkMetadata {
  lifts : option (list Lift.t);
  workouts : option (list WorkoutEntry.t);
  lastSync : option Z
}.

(** What a route answers: a status and a JSON body. *)
Inductive Payload : Type :=
| Success
| Failure (error : string)
| Data (lifts : list Lift.t) (workouts : list WorkoutEntry.t)
       (lastSync : option Z).

Record HttpResponse : Type := mkHttp {
  status : Z;
  payload : Payload
}.

(** The body of a POST as [request.json()] and the destructuring read it:
    a text that is not JSON or is [null] (one of the two throws), or any
    other value, whose three members may be absent. *)
Inductive PostBody : Type :=
| NotJson
| Body (lifts : option (list Lift.t)) (workouts : option (list WorkoutEntry.t))
       (userId : option string).

(** [!userId] for a member or a query parameter that may be absent. *)
Definition noUserId (userId : option string) : bool :=
  match userId with
  | Some u => negb (JS.truthyS u)
  | None => true
  end.

(** JSON has no NaN and no infinities: [JSON.stringify] writes [null] for
    them.  The entries that a JSON text carries as they are, are those
    whose numbers are finite. *)
Definition finite (a : JS.number) : bool :=
  match a with
  | JS.Fin _ => true
  | _ => false
  end.

Definition jsonSafe (ws : list WorkoutEntry.t) : bool :=
  forallb (fun w => finite (WorkoutEntry.weight w)
                    && finite (WorkoutEntry.reps w)
                    && finite (WorkoutEntry.sets w)) ws.

(** The page puts the user identifier in the query string without encoding
    it.  The identifiers that reach the route as they were sent are the
    non-empty ones made of unreserved characters: letters, digits and
    [- . _ ~]. *)
Definition unreserved (c : ascii) : bool :=
  let n := Z.of_nat (nat_of_ascii c) in
  ((48 <=? n) && (n <=? 57)) || ((65 <=? n) && (n <=? 90))
  || ((97 <=? n) && (n <=? 122))
  || (n =? 45) || (n =? 46) || (n =? 95) || (n =? 126).

Definition querySafe (u : string) : bool :=
  JS.truthyS u && forallb unreserved (list_ascii_of_string u).

Section Clerk.
(** The identity provider: its state, and the two calls the routes make.
    An update resolves or throws, and leaves the provider in some state
    either way. *)
Context {Store : Type}.
Variable getUser : Store -> string -> completion Metadata.
Variable updateUserMetadata :
  Store -> string -> Metadata -> completion unit * Store.

(** [POST /api/sync-data]; [now] is the clock read for [lastSync]. *)
Definition POST (now : Z) (body : PostBody) (st : Store)
  : HttpResponse * Store :=
  match body with
  | NotJson => (mkHttp 500 (Failure "Sync failed"), st)
  | Body lifts workouts userId =>
      if noUserId userId then (mkHttp 400 (Failure "User ID required"), st)
      else
        match userId with
        | Some u =>
            match updateUserMetadata st u
                    (mkMetadata (Some (orEmpty lifts)) (Some (orEmpty workouts))
                                (Some now)) with
            | (Normal _, st') => (mkHttp 200 Success, st')
            | (Throw, st') => (mkHttp 500 (Failure "Sync failed"), st')
            end
        | None => (mkHttp 400 (Failure "User ID required"), st)
        end
  end.

(** [GET /api/load-data]; [userId] is [searchParams.get('userId')]. *)
Definition GET (userId : option string) (st : Store) : HttpResponse :=
  if noUserId userId then mkHttp 400 (Failure "User ID required")
  else
    match userId with
    | Some u =>
        match getUser st u with
        | Normal metadata =>
            mkHttp 200 (Data (orEmpty (lifts metadata))
                             (orEmpty (workouts metadata))
                             (lastSync metadata))
        | Throw => mkHttp 500 (Failure "Load failed")
        end
    | None => mkHttp 400 (Failure "User ID required")
    end.

(** The response as the page's [fetch] delivers it. *)
Definition delivered (r : HttpResponse) : Response :=
  mkResponse ((200 <=? status r) && (status r <=? 299))
    match payload r with
    | Data l w _ => JsonObject (Some l) (Some w)
    | _ => JsonObject None None
    end.

(** What the routes, over a store in a given state, answer to a request of
    the page.  The answer is given where the lists and the identifier go
    through the JSON text and the query string as they are; the other
    exchanges are left open. *)
Definition answer (now : Z) (st : Store) (request : Request)
  : option Response :=
  match request with
  | PostSyncData l w u =>
      if jsonSafe w
      then Some (delivered (fst (POST now (Body (Some l) (Some w) (Some u)) st)))
      else None
  | GetLoadData u =>
      if querySafe u then
        match payload (GET (Some u) st) with
        | Data _ w _ =>
            if jsonSafe w then Some (delivered (GET (Some u) st)) else None
        | _ => Some (delivered (GET (Some u) st))
        end
      else None
  end.

(** A network on which the requests reach the routes. *)
Definition serves (net : Network) (now : Z) (st : Store) : Prop :=
  forall request response,
    answer now st request = Some response -> net request = Normal response.

(** One such network: the requests left open fail on it. *)
Definition routed (now : Z) (st : Store) : Network :=
  fun request =>
    match answer now st request with
    | Some response => Normal response
    | None => Throw
    end.

(** The identity provider keeps what it is given: after an update that
    resolved, the user's metadata reads back as written, and other users'
    metadata is not touched. *)
Definition keepsMetadata : Prop :=
  forall st u m st',
    updateUserMetadata st u m = (Normal tt, st') ->
    getUser st' u = Normal m
    /\ (forall u', u' <> u -> getUser st' u' = getUser st u').

End Clerk.

(** A provider that keeps the metadata of known users in a map; a user it
    does not know cannot be read or updated. *)
Definition mapGetUser (st : gmap string Metadata) (u : string)
  : completion Metadata :=
  match st !! u with
  | Some m => Normal m
  | None => Throw
  end.

Definition mapUpdate (st : gmap string Metadata) (u : string) (m : Metadata)
  : completion unit * gmap string Metadata :=
  match st !! u with
  | Some _ => (Normal tt, <[u := m]> st)
  | None => (Throw, st)
  end.

(** A provider that knows one user, with no metadata yet. *)
Definition oneUser : gmap string Metadata :=
  {["user_1" := mkMetadata None None None]}.

End Server.

(* ===================================================================== *)
(** ** Facts about numbers, parsing and sorting *)
(* ===================================================================== *)

(** Closed equations between numbers: evaluate, then compare the rationals. *)
Ltac js_number_eq :=
  vm_compute;
  first [ reflexivity | apply f_equal, Qc_is_canon; reflexivity ].

(** Closed equations between entries, lists of entries and states: the
    numbers are compared as above. *)
Lemma entry_numbers (id liftId : string) (w w' r r' s s' : JS.number)
    (d : Difficulty) (date : Z) :
  w = w' -> r = r' -> s = s' ->
  WorkoutEntry.mk id liftId w r s d date
  = WorkoutEntry.mk id liftId w' r' s' d date.
Proof. now intros -> -> ->. Qed.

Ltac js_entries_eq :=
  vm_compute;
  repeat match goal with
    | |- @eq JS.number _ _ =>
        first [ reflexivity | apply f_equal, Qc_is_canon; reflexivity ]
    | |- @eq WorkoutEntry.t _ _ => apply entry_numbers
    | |- @eq (list WorkoutEntry.t) (_ :: _) (_ :: _) => apply f_equal2
    | |- @eq (option (list WorkoutEntry.t)) (Some _) (Some _) => apply f_equal
    | |- _ => reflexivity
    end.

Example parseInt_examples :
  JS.parseInt "8" = JS.ofZ 8 /\ JS.parseInt "0" = JS.ofZ 0 /\
  JS.parseInt "-5" = JS.ofZ (-5) /\ JS.parseInt "2.5" = JS.ofZ 2 /\
  JS.parseInt ".5" = JS.NaN /\ JS.parseInt " 12abc" = JS.ofZ 12 /\
  JS.parseInt "0x1f" = JS.ofZ 31 /\ JS.parseInt "1e3" = JS.ofZ 1.
Proof. repeat apply conj; js_number_eq. Qed.

Example parseFloat_examples :
  JS.parseFloat "135" = JS.ofZ 135 /\ JS.parseFloat "-5" = JS.ofZ (-5) /\
  JS.parseFloat "2.5" = JS.Fin (Q2Qc (5 # 2)) /\
  JS.parseFloat ".5" = JS.Fin (Q2Qc (1 # 2)) /\
  JS.parseFloat "1e3" = JS.ofZ 1000 /\ JS.parseFloat "abc" = JS.NaN /\
  JS.parseFloat "-Infinity" = JS.NegInf /\ JS.parseFloat "5.e1x" = JS.ofZ 50.
Proof. repeat apply conj; js_number_eq. Qed.

Example numberValue_examples :
  JS.numberValue (inject_Z (2 ^ 53 + 1)) = JS.ofZ (2 ^ 53) /\
  JS.numberValue (inject_Z (2 ^ 53 + 3)) = JS.ofZ (2 ^ 53 + 4) /\
  JS.numberValue (inject_Z (2 ^ 1024)) = JS.PosInf /\
  JS.numberValue (inject_Z (2 ^ 1024 - 2 ^ 970)) = JS.PosInf /\
  JS.numberValue (inject_Z (2 ^ 1024 - 2 ^ 970 - 1))
  = JS.ofZ (2 ^ 1024 - 2 ^ 971) /\
  JS.numberValue (1 # 2 ^ 1075) = JS.zero /\
  JS.numberValue (3 # 2 ^ 1075) = JS.numberValue (1 # 2 ^ 1073) /\
  JS.numberValue (- (1 # 2 ^ 1074)) = JS.Fin (Q2Qc (- (1 # 2 ^ 1074))).
Proof. repeat apply conj; js_number_eq. Qed.

Example arithmetic_examples :
  JS.add (JS.parseFloat "0.1") (JS.parseFloat "0.2")
  = JS.parseFloat "0.30000000000000004" /\
  JS.add (JS.parseFloat "0.1") (JS.parseFloat "0.2") <> JS.parseFloat "0.3" /\
  JS.mul (JS.parseFloat "1e308") (JS.parseFloat "10") = JS.PosInf /\
  JS.mul (JS.parseFloat "0") (JS.parseFloat "-Infinity") = JS.NaN /\
  JS.add (JS.parseFloat "Infinity") (JS.parseFloat "-Infinity") = JS.NaN /\
  JS.parseFloat "1e400" = JS.PosInf /\
  JS.parseInt "9007199254740993" = JS.ofZ 9007199254740992.
Proof.
  split; [js_number_eq|].
  split; [vm_compute; intros H; inversion H|].
  repeat apply conj; js_number_eq.
Qed.

(** Sums and products are those of IEEE 754 binary64, on a table of pairs
    of values. *)
Example arithmetic_agrees_with_IEEE754 :
  forallb (fun x => forallb (Sample.agreesWithIEEE x) Sample.doubles)
          Sample.doubles = true.
Proof. vm_compute. reflexivity. Qed.

Example trim_examples :
  JS.trim (" " +:+ Sample.noBreakSpace +:+ "Back Squat"
           +:+ JS.bytes [226; 128; 168] +:+ JS.bytes [9]) = "Back Squat" /\
  JS.trim Sample.noBreakSpace = "" /\
  JS.trim (JS.bytes [239; 187; 191; 97; 32; 98; 227; 128; 128]) = "a b" /\
  JS.trim (JS.bytes [195; 160]) = JS.bytes [195; 160] /\
  JS.parseInt (Sample.noBreakSpace +:+ "12") = JS.ofZ 12.
Proof. repeat apply conj; js_number_eq. Qed.

Example sort_is_stable :
  JS.sort (fun a b : Z * string => fst a - fst b)
          [(2, "a"); (1, "b"); (2, "c"); (1, "d")]%string
  = [(1, "b"); (1, "d"); (2, "a"); (2, "c")]%string.
Proof. reflexivity. Qed.

Module NumberFacts.

(** Rounding respects the equality of rationals. *)
Lemma floorLog2_comp (a b : Q) : (a == b)%Q -> JS.floorLog2 a = JS.floorLog2 b.
Proof.
  intros H. unfold JS.floorLog2.
  rewrite (Qfloor_comp _ _ H).
  assert (Hi : (/ a == / b)%Q) by now rewrite H.
  rewrite (Qceiling_comp _ _ Hi).
  assert (Hl : Qle_bool 1 a = Qle_bool 1 b) by now rewrite H.
  now rewrite Hl.
Qed.

Lemma roundHalfEven_comp (a b : Q) :
  (a == b)%Q -> JS.roundHalfEven a = JS.roundHalfEven b.
Proof.
  intros H. unfold JS.roundHalfEven.
  rewrite (Qfloor_comp _ _ H).
  assert (Hc : (a - inject_Z (Qfloor b) ?= 1 # 2)%Q
               = (b - inject_Z (Qfloor b) ?= 1 # 2)%Q) by now rewrite H.
  now rewrite Hc.
Qed.

Lemma numberValue_comp (a b : Q) :
  (a == b)%Q -> JS.numberValue a = JS.numberValue b.
Proof.
  intros H. unfold JS.numberValue, JS.ulpExponent.
  assert (Ha : (Qabs a == Qabs b)%Q) by now rewrite H.
  rewrite (floorLog2_comp _ _ Ha).
  set (e := Z.max _ _).
  assert (Hr : JS.roundHalfEven (Qabs a / 2 ^ e)
               = JS.roundHalfEven (Qabs b / 2 ^ e)).
  { apply roundHalfEven_comp. now rewrite Ha. }
  rewrite Hr. now rewrite H.
Qed.

Lemma pow2_pos (e : Z) : (0 < 2 ^ e)%Q.
Proof. now apply Qpower_0_lt. Qed.

Lemma inject_pow2 (n : Z) : 0 <= n -> (inject_Z (2 ^ n) == 2 ^ n)%Q.
Proof. intros H. now rewrite Zpower_Qpower. Qed.

(** Below [2 ^ (K + 1)], the logarithm is at most [K]. *)
Lemma floorLog2_upper (a : Q) (K : Z) :
  (0 < a)%Q -> (a < 2 ^ (K + 1))%Q -> JS.floorLog2 a <= K.
Proof.
  intros Hpos Hlt. unfold JS.floorLog2.
  destruct (Qle_bool 1 a) eqn:H1.
  - apply Qle_bool_iff in H1.
    assert (HK : 0 <= K).
    { destruct (Z_lt_le_dec K 0) as [Hneg|]; [|assumption]. exfalso.
      assert (H2 : (2 ^ (K + 1) <= 2 ^ 0)%Q)
        by (apply Qpower_le_compat_l; [lia | discriminate]).
      apply (Qlt_irrefl a). eapply Qlt_le_trans; [exact Hlt|].
      eapply Qle_trans; [exact H2|]. exact H1. }
    assert (Hf : 0 < Qfloor a).
    { apply Z.lt_le_trans with (Qfloor 1); [reflexivity|].
      now apply Qfloor_resp_le. }
    apply Z.lt_succ_r. apply Z.log2_lt_pow2; [assumption|].
    rewrite <- Z.add_1_r.
    rewrite Zlt_Qlt. rewrite inject_pow2 by lia.
    eapply Qle_lt_trans; [apply Qfloor_le|assumption].
  - destruct (Z_lt_le_dec K 0) as [Hneg|Hnn].
    + assert (Hinv : (2 ^ (- (K + 1)) < / a)%Q).
      { rewrite Qpower_opp.
        exact (proj1 (Qinv_lt_contravar a (2 ^ (K + 1)) Hpos (pow2_pos _)) Hlt). }
      assert (Hc : 2 ^ (- (K + 1)) < Qceiling (/ a)).
      { rewrite Zlt_Qlt. rewrite inject_pow2 by lia.
        eapply Qlt_le_trans; [exact Hinv | apply Qle_ceiling]. }
      assert (Hcpos : 0 < Qceiling (/ a)).
      { eapply Z.le_lt_trans; [|exact Hc]. apply Z.pow_nonneg. lia. }
      apply Z.log2_up_lt_pow2 in Hc; [lia | assumption].
    + pose proof (Z.log2_up_nonneg (Qceiling (/ a))). lia.
Qed.

Lemma roundHalfEven_Z (n : Z) : JS.roundHalfEven (inject_Z n) = n.
Proof.
  unfold JS.roundHalfEven. rewrite Qfloor_Z.
  assert (H : (inject_Z n - inject_Z n ?= 1 # 2)%Q = Lt).
  { apply Qlt_alt.
    assert (H0 : (inject_Z n - inject_Z n == 0)%Q) by ring.
    rewrite H0. reflexivity. }
  now rewrite H.
Qed.

(** A positive [z * 2 ^ E] of at most 53 bits, within the exponent range,
    is not changed by rounding. *)
Lemma numberValue_pos (z E : Z) :
  0 < z <= JS.maxSafe -> -1074 <= E <= 971 ->
  let r := (inject_Z z * 2 ^ E)%Q in
  (0 < r)%Q /\ Qle_bool (2 ^ 1024) r = false
  /\ (inject_Z (JS.roundHalfEven (r / 2 ^ JS.ulpExponent r))
       * 2 ^ JS.ulpExponent r == r)%Q.
Proof.
  intros Hz HE r.
  assert (Hr : (0 < r)%Q).
  { unfold r. apply Qmult_lt_0_compat; [|apply pow2_pos].
    change (inject_Z 0 < inject_Z z)%Q. rewrite <- Zlt_Qlt. lia. }
  assert (Hbound : (r < 2 ^ (E + 52 + 1))%Q).
  { unfold r. replace (E + 52 + 1) with (53 + E) by lia.
    rewrite Qpower_plus by discriminate.
    apply Qmult_lt_r; [apply pow2_pos|].
    rewrite <- inject_pow2 by lia. rewrite <- Zlt_Qlt.
    unfold JS.maxSafe in Hz. lia. }
  split; [assumption|]. split.
  - destruct (Qle_bool (2 ^ 1024) r) eqn:Hb; [|reflexivity]. exfalso.
    apply Qle_bool_iff in Hb.
    apply (Qlt_irrefl r). eapply Qlt_le_trans; [exact Hbound|].
    eapply Qle_trans; [|exact Hb].
    apply Qpower_le_compat_l; [lia | discriminate].
  - pose proof (floorLog2_upper r (E + 52) Hr Hbound) as Hfl.
    assert (He : JS.ulpExponent r <= E) by (unfold JS.ulpExponent; lia).
    set (e := JS.ulpExponent r) in *.
    assert (Hscaled : (r / 2 ^ e == inject_Z (z * 2 ^ (E - e)))%Q).
    { unfold r. rewrite inject_Z_mult, inject_pow2 by lia.
      rewrite Qpower_minus by discriminate. unfold Qdiv. ring. }
    rewrite (roundHalfEven_comp _ _ Hscaled), roundHalfEven_Z.
    rewrite inject_Z_mult, inject_pow2 by lia.
    rewrite Qpower_minus by discriminate. unfold r.
    field. apply Qpower_not_0. discriminate.
Qed.

(** The binary64 values with a mantissa within the safe integers: rounding
    leaves them as they are. *)
Lemma numberValue_dyadic (z E : Z) :
  Z.abs z <= JS.maxSafe -> -1074 <= E <= 971 ->
  JS.numberValue (inject_Z z * 2 ^ E) = JS.Fin (Q2Qc (inject_Z z * 2 ^ E)).
Proof.
  intros Hz HE. unfold JS.numberValue.
  destruct (Z.lt_trichotomy z 0) as [Hneg|[->|Hpos]].
  - destruct (numberValue_pos (- z) E) as (Hr & Hb & Hx); [lia|lia|].
    cbv zeta in *.
    assert (Hq : (inject_Z z * 2 ^ E == - (inject_Z (- z) * 2 ^ E))%Q)
      by (rewrite inject_Z_opp; ring).
    assert (Hc : (inject_Z z * 2 ^ E ?= 0)%Q = Lt).
    { apply Qlt_alt. rewrite Hq.
      change 0%Q with (- 0)%Q. now apply Qopp_lt_compat. }
    rewrite Hc.
    assert (Ha : (Qabs (inject_Z z * 2 ^ E) == inject_Z (- z) * 2 ^ E)%Q).
    { rewrite Hq, Qabs_opp. apply Qabs_pos. now apply Qlt_le_weak. }
    unfold JS.ulpExponent in *. rewrite (floorLog2_comp _ _ Ha).
    set (e := Z.max _ _) in *.
    assert (Hrd : JS.roundHalfEven (Qabs (inject_Z z * 2 ^ E) / 2 ^ e)
                  = JS.roundHalfEven (inject_Z (- z) * 2 ^ E / 2 ^ e)).
    { apply roundHalfEven_comp. now rewrite Ha. }
    rewrite Hrd.
    assert (Hb' : Qle_bool (2 ^ 1024)
                    (inject_Z (JS.roundHalfEven (inject_Z (- z) * 2 ^ E / 2 ^ e))
                     * 2 ^ e) = false) by now rewrite Hx.
    rewrite Hb'. f_equal. apply Q2Qc_eq_iff. now rewrite Hx, Hq.
  - assert (H0 : (inject_Z 0 * 2 ^ E == 0)%Q) by ring.
    fold (JS.numberValue (inject_Z 0 * 2 ^ E)).
    rewrite (numberValue_comp _ _ H0). unfold JS.numberValue. simpl.
    f_equal. apply Q2Qc_eq_iff. now rewrite H0.
  - destruct (numberValue_pos z E) as (Hr & Hb & Hx); [lia|lia|].
    cbv zeta in *.
    assert (Hc : (inject_Z z * 2 ^ E ?= 0)%Q = Gt) by now apply Qgt_alt.
    rewrite Hc.
    assert (Ha : (Qabs (inject_Z z * 2 ^ E) == inject_Z z * 2 ^ E)%Q).
    { apply Qabs_pos. now apply Qlt_le_weak. }
    unfold JS.ulpExponent in *. rewrite (floorLog2_comp _ _ Ha).
    set (e := Z.max _ _) in *.
    assert (Hrd : JS.roundHalfEven (Qabs (inject_Z z * 2 ^ E) / 2 ^ e)
                  = JS.roundHalfEven (inject_Z z * 2 ^ E / 2 ^ e)).
    { apply roundHalfEven_comp. now rewrite Ha. }
    rewrite Hrd.
    assert (Hb' : Qle_bool (2 ^ 1024)
                    (inject_Z (JS.roundHalfEven (inject_Z z * 2 ^ E / 2 ^ e))
                     * 2 ^ e) = false) by now rewrite Hx.
    rewrite Hb'. f_equal. apply Q2Qc_eq_iff. now rewrite Hx.
Qed.

Lemma add_comm (a b : JS.number) : JS.add a b = JS.add b a.
Proof.
  destruct a as [| |x|], b as [| |y|]; try reflexivity.
  cbn [JS.add]. now rewrite (Qcplus_comm x y).
Qed.

Lemma compare_Lt (x y : Qc) : Qccompare x y = Lt <-> (x < y)%Qc.
Proof. symmetry. apply Qclt_alt. Qed.

Lemma Qc_lt_irrefl (x : Qc) : ~ (x < x)%Qc.
Proof. intros H. apply Qclt_not_eq in H. congruence. Qed.

Lemma lt_Fin (x y : Qc) : JS.lt (JS.Fin x) (JS.Fin y) = true <-> (x < y)%Qc.
Proof.
  simpl. rewrite <- compare_Lt.
  destruct (Qccompare x y); split; congruence.
Qed.

Lemma lt_trans (a b c : JS.number) :
  JS.lt a b = true -> JS.lt b c = true -> JS.lt a c = true.
Proof.
  destruct a, b, c; try (simpl; congruence).
  rewrite !lt_Fin. apply Qclt_trans.
Qed.

Lemma lt_irrefl (a : JS.number) : JS.lt a a = false.
Proof.
  destruct a; try reflexivity.
  destruct (JS.lt (JS.Fin q) (JS.Fin q)) eqn:E; [|reflexivity].
  apply lt_Fin in E. exfalso. revert E. apply Qc_lt_irrefl.
Qed.

(** A number above zero is truthy. *)
Lemma positive_truthy (a : JS.number) :
  JS.gt a JS.zero = true -> JS.truthy a = true.
Proof.
  destruct a; simpl; try congruence.
  unfold JS.gt, JS.sgn. intros H. apply lt_Fin in H.
  destruct (Qccompare q (Q2Qc 0)) eqn:E; try reflexivity.
  apply Qceq_alt in E. subst q. exfalso. revert H. apply Qc_lt_irrefl.
Qed.

End NumberFacts.

Module SortFacts.

Section ByKey.
Context {A : Type} (key : A -> Z) (comparefn : A -> A -> Z).
Hypothesis comparefn_key : forall a b, comparefn a b = key a - key b.

Local Abbreviation keyLe := (Spec.keyLe key).
Local Abbreviation hasKey := (Spec.hasKey key).

Lemma insert_perm (x : A) (l : list A) :
  Permutation (JS.insert comparefn x l) (x :: l).
Proof.
  induction l as [|y ys IH]; simpl.
  - reflexivity.
  - destruct (comparefn x y <=? 0).
    + reflexivity.
    + rewrite IH. apply perm_swap.
Qed.

Lemma sort_perm (l : list A) : Permutation (JS.sort comparefn l) l.
Proof.
  induction l as [|x xs IH]; simpl.
  - reflexivity.
  - rewrite insert_perm. now apply perm_skip.
Qed.

Lemma sort_length (l : list A) : length (JS.sort comparefn l) = length l.
Proof. apply Permutation_length, sort_perm. Qed.

Lemma insert_sorted (x : A) (l : list A) :
  StronglySorted keyLe l -> StronglySorted keyLe (JS.insert comparefn x l).
Proof.
  induction 1 as [|y ys Hs IH Hy]; simpl.
  - repeat constructor.
  - rewrite comparefn_key.
    destruct (Z.leb_spec (key x - key y) 0) as [Hle|Hgt].
    + constructor; [now constructor|].
      constructor; [unfold keyLe; lia|].
      eapply List.Forall_impl; [|exact Hy].
      unfold keyLe. intros a Ha. lia.
    + constructor; [exact IH|].
      eapply Permutation_Forall; [symmetry; apply insert_perm|].
      constructor; [unfold keyLe; lia|exact Hy].
Qed.

Lemma sort_sorted (l : list A) : StronglySorted keyLe (JS.sort comparefn l).
Proof.
  induction l as [|x xs IH]; simpl.
  - constructor.
  - now apply insert_sorted.
Qed.

(** Stability: among the elements of one key, nothing moves. *)
Lemma insert_hasKey (d : Z) (x : A) (l : list A) :
  List.filter (hasKey d) (JS.insert comparefn x l)
  = List.filter (hasKey d) (x :: l).
Proof.
  induction l as [|y ys IH]; simpl.
  - reflexivity.
  - rewrite comparefn_key.
    destruct (Z.leb_spec (key x - key y) 0) as [Hle|Hgt].
    + reflexivity.
    + simpl in *. rewrite IH. unfold hasKey.
      destruct (Z.eqb_spec (key x) d), (Z.eqb_spec (key y) d);
        try reflexivity.
      lia.
Qed.

Lemma sort_hasKey (d : Z) (l : list A) :
  List.filter (hasKey d) (JS.sort comparefn l) = List.filter (hasKey d) l.
Proof.
  induction l as [|x xs IH].
  - reflexivity.
  - cbn [JS.sort]. rewrite insert_hasKey. simpl. now rewrite IH.
Qed.

End ByKey.

(** Sorting commutes with a map that the comparison does not see. *)
Lemma sort_map {A : Type} (comparefn : A -> A -> Z) (f : A -> A) (l : list A) :
  (forall a b, comparefn (f a) (f b) = comparefn a b) ->
  JS.sort comparefn (map f l) = map f (JS.sort comparefn l).
Proof.
  intros Hf.
  assert (Hins : forall x l', JS.insert comparefn (f x) (map f l')
                              = map f (JS.insert comparefn x l')).
  { intros x l'. induction l' as [|y ys IH]; simpl.
    - reflexivity.
    - rewrite Hf. destruct (comparefn x y <=? 0); simpl; congruence. }
  induction l as [|x xs IH]; simpl.
  - reflexivity.
  - now rewrite IH, Hins.
Qed.

End SortFacts.

(* ===================================================================== *)
(** ** Record store *)
(* ===================================================================== *)

Module RecordStore.

Import Component.

Section RemoveById.
Context {A : Type} (ident : A -> string).

Local Abbreviation keepOthers := (Spec.keepOthers ident).

Lemma keepOthers_In (E : string) (l : list A) (x : A) :
  In x (keepOthers E l) <-> In x l /\ ident x <> E.
Proof.
  unfold keepOthers. rewrite filter_In, negb_true_iff.
  destruct (String.eqb_spec (ident x) E); intuition congruence.
Qed.


Lemma keepOthers_all (E : string) (l : list A) :
  (forall x, In x l -> ident x <> E) -> keepOthers E l = l.
Proof.
  induction l as [|x xs IH]; simpl; intros H.
  - reflexivity.
  - destruct (String.eqb_spec (ident x) E) as [Heq|Hne]; simpl.
    + exfalso. apply (H x); auto.
    + f_equal. apply IH. intros y Hy. apply H. auto.
Qed.

(** With distinct identifiers, removing by identifier removes one element. *)
Lemma keepOthers_unique (E : string) (l : list A) (e : A) :
  List.NoDup (map ident l) -> In e l -> ident e = E ->
  exists l1 l2, l = l1 ++ e :: l2 /\ keepOthers E l = l1 ++ l2.
Proof.
  intros Hnd Hin HE.
  destruct (in_split _ _ Hin) as (l1 & l2 & ->).
  exists l1, l2. split; [reflexivity|].
  rewrite map_app in Hnd. simpl in Hnd.
  apply NoDup_remove in Hnd as [_ Hnot].
  unfold keepOthers. rewrite List.filter_app. simpl.
  rewrite HE, String.eqb_refl. simpl.
  fold (keepOthers E l1). fold (keepOthers E l2).
  rewrite !keepOthers_all; [reflexivity| |].
  - intros x Hx Hxe. apply Hnot. rewrite <- map_app, HE, <- Hxe.
    apply in_map, in_or_app. now right.
  - intros x Hx Hxe. apply Hnot. rewrite <- map_app, HE, <- Hxe.
    apply in_map, in_or_app. now left.
Qed.

End RemoveById.



Example deleteLift_cascades :
  lifts (deleteLift "anonymous" "1" Sample.twoLifts) = [Sample.bench]
  /\ workouts (deleteLift "anonymous" "1" Sample.twoLifts)
     = [Sample.entry "20" "2" 135 8 3 D3 20].
Proof. split; reflexivity. Qed.


End RecordStore.

(* ===================================================================== *)
(** ** Sync bridge *)
(* ===================================================================== *)

Module SyncBridge.

Import Database Component.

Lemma truthyS_false (u : string) : JS.truthyS u = false <-> u = "".
Proof. destruct u; simpl; split; congruence. Qed.

Lemma truthyS_true (u : string) : JS.truthyS u = true <-> u <> "".
Proof. destruct u; simpl; split; congruence. Qed.

(** The push, by cases on the user identifier and on the network. *)
Lemma syncDataToCloud_cases (lifts : list Lift.t)
    (workouts : list WorkoutEntry.t) (userId : string) (net : Network) :
  syncDataToCloud lifts workouts userId net
  = if JS.truthyS userId then
      (Normal match net (PostSyncData lifts workouts userId) with
              | Normal r => ok r
              | Throw => false
              end,
       [PostSyncData lifts workouts userId])
    else (Normal false, []).
Proof.
  unfold syncDataToCloud. destruct (JS.truthyS userId); simpl; [|reflexivity].
  unfold bind, fetch, ret. simpl.
  now destruct (net (PostSyncData lifts workouts userId)).
Qed.

(** The pull, by cases on the user identifier and on the network. *)
Lemma loadDataFromCloud_cases (userId : string) (net : Network) :
  loadDataFromCloud userId net
  = if JS.truthyS userId then
      (Normal (carried (net (GetLoadData userId))), [GetLoadData userId])
    else (Normal emptyData, []).
Proof.
  unfold loadDataFromCloud. destruct (JS.truthyS userId); simpl; [|reflexivity].
  unfold bind, fetch, ret, carried. simpl.
  destruct (net (GetLoadData userId)) as [[[] []]|]; reflexivity.
Qed.

(** C10. Neither function of the bridge throws.  The push answers [false]
    when the user identifier is empty, when the request fails and when the
    response is not ok, and the response's [ok] otherwise.  The pull answers
    the pair of empty lists when the user identifier is empty, when the
    request fails, when the response is not ok and when the body carries
    no data; with an empty identifier no request is sent at all. *)
Theorem bridge_failures_degrade (lifts : list Lift.t)
    (workouts : list WorkoutEntry.t) (userId : string) (net : Network) :
  let push := syncDataToCloud lifts workouts userId net in
  let pull := loadDataFromCloud userId net in
  (exists b, fst push = Normal b)
  /\ (userId = "" -> push = (Normal false, []))
  /\ (net (PostSyncData lifts workouts userId) = Throw ->
      fst push = Normal false)
  /\ (forall r, net (PostSyncData lifts workouts userId) = Normal r ->
                ok r = false -> fst push = Normal false)
  /\ (forall r, userId <> "" ->
                net (PostSyncData lifts workouts userId) = Normal r ->
                fst push = Normal (ok r))
  /\ (exists d, fst pull = Normal d)
  /\ (userId = "" -> pull = (Normal emptyData, []))
  /\ (net (GetLoadData userId) = Throw -> fst pull = Normal emptyData)
  /\ (forall r, net (GetLoadData userId) = Normal r -> ok r = false ->
                fst pull = Normal emptyData)
  /\ (forall r, net (GetLoadData userId) = Normal r ->
                body r = JsonInvalid \/ body r = JsonNull
                \/ body r = JsonObject None None ->
                fst pull = Normal emptyData)
  /\ (forall r l w, userId <> "" -> net (GetLoadData userId) = Normal r ->
                    ok r = true -> body r = JsonObject l w ->
                    fst pull = Normal (mkCloudData (orEmpty l) (orEmpty w))).
Proof.
  cbv zeta.
  rewrite syncDataToCloud_cases, loadDataFromCloud_cases.
  destruct (JS.truthyS userId) eqn:Hu.
  - apply truthyS_true in Hu. unfold carried. simpl.
    split; [eauto|]. split; [congruence|].
    split; [now intros ->|].
    split; [intros r Hr Hok; now rewrite Hr, Hok|].
    split; [intros r _ Hr; now rewrite Hr|].
    split; [eauto|]. split; [congruence|].
    split; [now intros ->|].
    split; [intros r Hr Hok; now rewrite Hr, Hok|].
    split.
    + intros r Hr H. rewrite Hr. destruct (ok r); [|reflexivity].
      now destruct H as [-> | [-> | ->]].
    + intros r l w _ Hr Hok Hb. now rewrite Hr, Hok, Hb.
  - apply truthyS_false in Hu. simpl.
    split; [eauto|]. split; [reflexivity|].
    split; [reflexivity|]. split; [reflexivity|].
    split; [congruence|].
    split; [eauto|]. split; [reflexivity|].
    split; [reflexivity|]. split; [reflexivity|].
    split; [reflexivity|]. congruence.
Qed.

Lemma bridge_failures_degrade_witness :
  fst (syncDataToCloud [Sample.squat] [] "user_1" Sample.offline)
  = Normal false
  /\ fst (loadDataFromCloud "user_1" Sample.offline) = Normal emptyData.
Proof.
  destruct (bridge_failures_degrade [Sample.squat] [] "user_1" Sample.offline)
    as (_ & _ & Hpush & _ & _ & _ & _ & Hpull & _).
  split; [apply Hpush|apply Hpull]; reflexivity.
Defined.


End SyncBridge.

(* ===================================================================== *)
(** ** Sign-in: pull, then push *)
(* ===================================================================== *)

Module SignIn.

Import Database Component SyncBridge Spec.

Lemma nonEmpty_false {A : Type} (l : list A) : nonEmpty l = false <-> l = [].
Proof. destruct l; unfold nonEmpty, Nat.ltb; simpl; split; congruence. Qed.

Lemma nonEmpty_true {A : Type} (l : list A) : nonEmpty l = true <-> l <> [].
Proof. destruct l; unfold nonEmpty, Nat.ltb; simpl; split; congruence. Qed.

Lemma hasUserId_truthy (ss : Session) :
  hasUserId ss = true -> JS.truthyS (userId ss) = true.
Proof. unfold hasUserId, userId. now destruct (user ss). Qed.

Lemma loadFromCloud_cases (ss : Session) (s : State) (net : Network) :
  hasUserId ss = true ->
  loadFromCloud ss s net
  = (let d := carried (net (GetLoadData (userId ss))) in
     if nonEmpty (Database.lifts d) || nonEmpty (Database.workouts d)
     then replaced ss d s else s,
     [GetLoadData (userId ss)]).
Proof.
  intros Hu. unfold loadFromCloud. rewrite Hu. simpl.
  unfold bind. rewrite loadDataFromCloud_cases, (hasUserId_truthy _ Hu).
  reflexivity.
Qed.

Lemma syncToCloud_cases (ss : Session) (closure s : State) (net : Network) :
  hasUserId ss = true ->
  syncToCloud ss closure s net
  = if issyncing closure then (s, [])
    else (setIsSyncing false (setIsSyncing true s),
          [PostSyncData (lifts closure) (workouts closure) (userId ss)]).
Proof.
  intros Hu. unfold syncToCloud. rewrite Hu. simpl.
  destruct (issyncing closure); [reflexivity|].
  unfold bind. rewrite syncDataToCloud_cases, (hasUserId_truthy _ Hu).
  reflexivity.
Qed.

(** The requests of the sign-in effect do not depend on what the pull
    returns: the push goes out when the local lists are not both empty and
    no sync is under way. *)
Lemma autoSync_requests (ss : Session) (s : State) (net : Network) :
  signedIn ss ->
  snd (autoSync ss s net)
  = GetLoadData (userId ss)
    :: (if (nonEmpty (lifts s) || nonEmpty (workouts s))
           && negb (issyncing s)
        then [PostSyncData (lifts s) (workouts s) (userId ss)]
        else []).
Proof.
  intros (Hs & Hu & Hl). unfold autoSync. rewrite Hs, Hu, Hl. simpl.
  unfold bind. rewrite loadFromCloud_cases by exact Hu.
  fold (nonEmpty (lifts s)). fold (nonEmpty (workouts s)).
  destruct (nonEmpty (lifts s) || nonEmpty (workouts s)); simpl.
  - rewrite syncToCloud_cases by exact Hu.
    now destruct (issyncing s).
  - reflexivity.
Qed.

(** The lists after the sign-in effect are those the pull leaves. *)
Lemma autoSync_lists (ss : Session) (s : State) (net : Network) :
  signedIn ss ->
  let s1 := fst (loadFromCloud ss s net) in
  let s2 := fst (autoSync ss s net) in
  lifts s2 = lifts s1 /\ workouts s2 = workouts s1
  /\ localStorage s2 = localStorage s1.
Proof.
  intros (Hs & Hu & Hl). unfold autoSync. rewrite Hs, Hu, Hl. simpl.
  unfold bind. destruct (loadFromCloud ss s net) as [s1 sent1]. simpl.
  destruct ((0 <? length (lifts s))%nat || (0 <? length (workouts s))%nat).
  - rewrite syncToCloud_cases by exact Hu.
    destruct (issyncing s); simpl; auto.
  - simpl. auto.
Qed.

(** C2. On sign-in, when the pulled partition is not empty, the local lists
    become the pulled lists, whatever they were: nothing of the local lists
    is merged in, and a record that was only local is gone. *)
Theorem pull_replaces_local (ss : Session) (s : State) (net : Network)
    (cloud : CloudData) :
  signedIn ss ->
  pulled ss net = Normal cloud ->
  Database.lifts cloud <> [] \/ Database.workouts cloud <> [] ->
  let s' := fst (autoSync ss s net) in
  lifts s' = Database.lifts cloud
  /\ workouts s' = Database.workouts cloud.
Proof.
  intros Hin Hpull Hne. cbv zeta.
  destruct (autoSync_lists ss s net Hin) as (-> & -> & _).
  destruct Hin as (Hs & Hu & Hl).
  rewrite loadFromCloud_cases by exact Hu.
  unfold pulled in Hpull.
  rewrite loadDataFromCloud_cases, (hasUserId_truthy _ Hu) in Hpull.
  simpl in Hpull. injection Hpull as ->. cbv zeta.
  assert (nonEmpty (Database.lifts cloud)
          || nonEmpty (Database.workouts cloud) = true) as ->.
  { apply orb_true_iff.
    destruct Hne as [H|H]; [left|right]; now apply nonEmpty_true. }
  unfold replaced, storageKey. rewrite Hs, Hu. simpl.
  split; reflexivity.
Qed.

Lemma pull_replaces_local_witness :
  lifts Sample.localOnly = [Sample.bench]
  /\ lifts (fst (autoSync Sample.session Sample.localOnly
                          (Sample.serving Sample.remote)))
     = [Sample.squat]
  /\ workouts (fst (autoSync Sample.session Sample.localOnly
                             (Sample.serving Sample.remote)))
     = [].
Proof.
  split; [reflexivity|].
  apply (pull_replaces_local Sample.session Sample.localOnly
           (Sample.serving Sample.remote) Sample.remote).
  - repeat split.
  - reflexivity.
  - left. discriminate.
Defined.

(** C3, as stated, fails: with an empty remote partition and an empty local
    one, the sign-in effect sends the pull and no push. *)
Lemma empty_pull_need_not_push :
  ~ (forall (ss : Session) (s : State) (net : Network) (cloud : CloudData),
        signedIn ss -> pulled ss net = Normal cloud -> emptyPartition cloud ->
        lifts (fst (autoSync ss s net)) = lifts s
        /\ workouts (fst (autoSync ss s net)) = workouts s
        /\ pushed (lifts s) (workouts s) (userId ss)
                  (snd (autoSync ss s net))).
Proof.
  intros H.
  destruct (H Sample.session initial Sample.servingNothing emptyData)
    as (_ & _ & Hp).
  - repeat split.
  - reflexivity.
  - split; reflexivity.
  - unfold pushed in Hp. simpl in Hp.
    destruct Hp as [Hp|[]]. discriminate Hp.
Qed.

(** C3, amended. On sign-in, when the pulled partition is empty, the pull
    leaves the local lists and the stored copies as they were.  The push of
    the local lists is sent when the local partition is not empty and no sync
    is already under way, and is not sent otherwise. *)
Theorem empty_pull_keeps_local (ss : Session) (s : State) (net : Network)
    (cloud : CloudData) :
  signedIn ss ->
  pulled ss net = Normal cloud ->
  emptyPartition cloud ->
  lifts (fst (autoSync ss s net)) = lifts s
  /\ workouts (fst (autoSync ss s net)) = workouts s
  /\ localStorage (fst (autoSync ss s net)) = localStorage s
  /\ snd (autoSync ss s net)
     = GetLoadData (userId ss)
       :: (if (nonEmpty (lifts s) || nonEmpty (workouts s))
              && negb (issyncing s)
           then [PostSyncData (lifts s) (workouts s) (userId ss)]
           else []).
Proof.
  intros Hin Hpull (Hl & Hw).
  rewrite (autoSync_requests ss s net Hin).
  destruct (autoSync_lists ss s net Hin) as (-> & -> & ->).
  destruct Hin as (Hs & Hu & Hld).
  rewrite loadFromCloud_cases by exact Hu.
  unfold pulled in Hpull.
  rewrite loadDataFromCloud_cases, (hasUserId_truthy _ Hu) in Hpull.
  simpl in Hpull. injection Hpull as ->. cbv zeta.
  rewrite Hl, Hw. simpl. auto.
Qed.

Lemma empty_pull_keeps_local_witness :
  lifts (fst (autoSync Sample.session Sample.localOnly Sample.servingNothing))
  = [Sample.bench]
  /\ workouts (fst (autoSync Sample.session Sample.localOnly
                             Sample.servingNothing))
     = [Sample.entry "10" "2" 135 8 3 D3 10]
  /\ localStorage (fst (autoSync Sample.session Sample.localOnly
                                 Sample.servingNothing))
     = ∅
  /\ snd (autoSync Sample.session Sample.localOnly Sample.servingNothing)
     = [GetLoadData "user_1";
        PostSyncData [Sample.bench] [Sample.entry "10" "2" 135 8 3 D3 10]
                     "user_1"].
Proof.
  apply (empty_pull_keeps_local Sample.session Sample.localOnly
           Sample.servingNothing emptyData).
  - repeat split.
  - reflexivity.
  - split; reflexivity.
Defined.

End SignIn.

(* ===================================================================== *)
(** ** The log form *)
(* ===================================================================== *)

Module LogForm.

Import Component Spec.

Lemma logWorkout_accepts (key : string) (now nowDate : Z) (s : State) :
  complete s = true ->
  workouts (logWorkout key now nowDate s)
  = WorkoutEntry.mk (pretty now) (selectedLiftId s)
                    (JS.parseFloat (weight s)) (JS.parseInt (reps s))
                    (JS.parseInt (sets s)) (difficulty s) nowDate
    :: workouts s.
Proof. unfold complete, logWorkout. now intros ->. Qed.

Lemma logWorkout_rejects (key : string) (now nowDate : Z) (s : State) :
  complete s = false -> logWorkout key now nowDate s = s.
Proof. unfold complete, logWorkout. now intros ->. Qed.

End LogForm.

(* ===================================================================== *)
(** ** Metrics engine *)
(* ===================================================================== *)

Module MetricsEngine.

Import Component Spec NumberFacts.

(** *** Total volume *)

Lemma addVolume_volume (sum : JS.number) (w : WorkoutEntry.t) :
  addVolume sum w = JS.add sum (volume w).
Proof. reflexivity. Qed.

(** Entries are added in list order: one more at the end adds its volume
    to the total so far. *)
Lemma totalWeight_snoc (now : Z) (key : string) (s : State)
    (w : WorkoutEntry.t) :
  totalWeight (fst (getMetrics now (setWorkouts key (workouts s ++ [w]) s)))
  = JS.add (totalWeight (fst (getMetrics now s))) (volume w).
Proof. cbn [getMetrics fst totalWeight setWorkouts workouts]. now rewrite fold_left_app. Qed.

(** Canonical rationals and their operations. *)
Lemma Fin_Q2Qc (a b : Q) : (a == b)%Q -> JS.Fin (Q2Qc a) = JS.Fin (Q2Qc b).
Proof. intros H. f_equal. now apply Q2Qc_eq_iff. Qed.

Lemma this_Q2Qc (q : Q) : (this (Q2Qc q) == q)%Q.
Proof. apply Qred_correct. Qed.

Lemma Qcplus_Q2Qc (a b : Q) : (Q2Qc a + Q2Qc b)%Qc = Q2Qc (a + b).
Proof.
  apply Qc_is_canon. unfold Qcplus. rewrite !this_Q2Qc. reflexivity.
Qed.

Lemma Qcmult_Q2Qc (a b : Q) : (Q2Qc a * Q2Qc b)%Qc = Q2Qc (a * b).
Proof.
  apply Qc_is_canon. unfold Qcmult. rewrite !this_Q2Qc. reflexivity.
Qed.

Lemma inUnits_ofUnits (k : Z) (a : JS.number) (z : Z) :
  inUnits k a = Some z -> a = ofUnits k z.
Proof.
  destruct a as [| |q|]; try discriminate. cbn [inUnits].
  destruct (Qden (Qred (q * 2 ^ k)) =? 1)%positive eqn:Hd; [|discriminate].
  intros [= Hz]. apply Pos.eqb_eq in Hd.
  assert (Hx : (q * 2 ^ k == inject_Z z)%Q).
  { rewrite <- (Qred_correct (q * 2 ^ k)).
    destruct (Qred (q * 2 ^ k)) as [n d]. simpl in Hd, Hz. now subst. }
  unfold ofUnits. f_equal. apply Qc_is_canon. rewrite this_Q2Qc, <- Hx.
  rewrite Qpower_opp. field. apply Qpower_not_0. discriminate.
Qed.

Lemma add_units (k a b : Z) :
  0 <= k <= 1074 -> Z.abs (a + b) <= JS.maxSafe ->
  JS.add (ofUnits k a) (ofUnits k b) = ofUnits k (a + b).
Proof.
  intros Hk Hab. unfold ofUnits. cbn [JS.add].
  rewrite Qcplus_Q2Qc.
  rewrite (numberValue_comp _ (inject_Z (a + b) * 2 ^ (- k))).
  - apply numberValue_dyadic; [assumption | lia].
  - rewrite this_Q2Qc, inject_Z_plus. ring.
Qed.

Lemma mul_units (k a b : Z) :
  0 <= k <= 1074 -> Z.abs (a * b) <= JS.maxSafe ->
  JS.mul (ofUnits k a) (ofUnits 0 b) = ofUnits k (a * b).
Proof.
  intros Hk Hab. unfold ofUnits. cbn [JS.mul].
  rewrite Qcmult_Q2Qc.
  rewrite (numberValue_comp _ (inject_Z (a * b) * 2 ^ (- k))).
  - apply numberValue_dyadic; [assumption | lia].
  - rewrite this_Q2Qc, inject_Z_mult. change (2 ^ (- 0))%Q with 1%Q. ring.
Qed.

(** What [volumeUnits] says of an entry. *)
Lemma volumeUnits_fields (k : Z) (w : WorkoutEntry.t) (v : Z) :
  volumeUnits k w = Some v ->
  exists a b c,
    WorkoutEntry.weight w = ofUnits k a /\ WorkoutEntry.reps w = ofUnits 0 b
    /\ WorkoutEntry.sets w = ofUnits 0 c
    /\ Z.abs (a * b) <= JS.maxSafe /\ v = a * b * c.
Proof.
  unfold volumeUnits.
  destruct (inUnits k (WorkoutEntry.weight w)) as [a|] eqn:Ha; [|discriminate].
  destruct (inUnits 0 (WorkoutEntry.reps w)) as [b|] eqn:Hb; [|discriminate].
  destruct (inUnits 0 (WorkoutEntry.sets w)) as [c|] eqn:Hc; [|discriminate].
  destruct (Z.leb_spec (Z.abs (a * b)) JS.maxSafe) as [Hab|]; [|discriminate].
  intros [= <-]. exists a, b, c.
  repeat split; auto using inUnits_ofUnits.
Qed.

Lemma volume_units (k : Z) (w : WorkoutEntry.t) (v : Z) :
  0 <= k <= 1074 -> volumeUnits k w = Some v -> Z.abs v <= JS.maxSafe ->
  volume w = ofUnits k v.
Proof.
  intros Hk Hv Hbound.
  destruct (volumeUnits_fields k w v Hv) as (a & b & c & Hw & Hr & Hs & Hab & ->).
  unfold volume. rewrite Hw, Hr, Hs.
  rewrite mul_units by assumption. now apply mul_units.
Qed.

Lemma volume_rational (k : Z) (w : WorkoutEntry.t) (v : Z) :
  volumeUnits k w = Some v ->
  (rational (WorkoutEntry.weight w) * rational (WorkoutEntry.reps w)
   * rational (WorkoutEntry.sets w))%Qc
  = Q2Qc (inject_Z v * 2 ^ (- k)).
Proof.
  intros Hv.
  destruct (volumeUnits_fields k w v Hv) as (a & b & c & Hw & Hr & Hs & _ & ->).
  rewrite Hw, Hr, Hs. unfold ofUnits, rational.
  rewrite !Qcmult_Q2Qc. apply Q2Qc_eq_iff.
  rewrite !inject_Z_mult. change (2 ^ (- 0))%Q with 1%Q. ring.
Qed.

Lemma magnitude_nonneg (k : Z) (ws : list WorkoutEntry.t) (m : Z) :
  magnitude k ws = Some m -> 0 <= m.
Proof.
  revert m. induction ws as [|w ws IH]; cbn [magnitude]; intros m.
  - intros [= <-]. lia.
  - destruct (volumeUnits k w) as [v|]; [|discriminate].
    destruct (magnitude k ws) as [m'|]; [|discriminate].
    intros [= <-]. specialize (IH m' eq_refl). lia.
Qed.

(** The reduce over entries that need no rounding, from any accumulator
    that leaves room for them. *)
Lemma reduce_exact (k : Z) (ws : list WorkoutEntry.t) (a m : Z) :
  0 <= k <= 1074 -> magnitude k ws = Some m -> Z.abs a + m <= JS.maxSafe ->
  fold_left addVolume ws (ofUnits k a) = ofUnits k (a + totalUnits k ws).
Proof.
  intros Hk. revert a m.
  induction ws as [|w ws IH]; cbn [magnitude fold_left totalUnits]; intros a m.
  - intros _ _. now rewrite Z.add_0_r.
  - destruct (volumeUnits k w) as [v|] eqn:Hv; [|discriminate].
    destruct (magnitude k ws) as [m'|] eqn:Hm; [|discriminate].
    intros [= <-] Hroom. pose proof (magnitude_nonneg _ _ _ Hm).
    rewrite addVolume_volume, (volume_units k w v) by (assumption || lia).
    rewrite add_units by (assumption || lia).
    rewrite (IH (a + v) m') by (reflexivity || lia).
    now rewrite Z.add_assoc.
Qed.

Lemma rationalSum_units (k : Z) (ws : list WorkoutEntry.t) (m : Z) :
  magnitude k ws = Some m ->
  rationalSum ws = Q2Qc (inject_Z (totalUnits k ws) * 2 ^ (- k)).
Proof.
  revert m. induction ws as [|w ws IH]; cbn [magnitude rationalSum totalUnits];
    intros m.
  - intros _. apply Q2Qc_eq_iff. change (inject_Z 0) with 0%Q. ring.
  - destruct (volumeUnits k w) as [v|] eqn:Hv; [|discriminate].
    destruct (magnitude k ws) as [m'|] eqn:Hm; [|discriminate].
    intros _. rewrite (volume_rational k w v Hv), (IH m' eq_refl).
    rewrite Qcplus_Q2Qc. apply Q2Qc_eq_iff.
    rewrite inject_Z_plus. ring.
Qed.

(** Entries that need no rounding are totalled exactly. *)
Lemma totalWeight_exact (k : Z) (now : Z) (s : State) :
  exactTotal k (workouts s) ->
  totalWeight (fst (getMetrics now s)) = JS.Fin (rationalSum (workouts s)).
Proof.
  intros (Hk & m & Hm & Hbound).
  cbn [getMetrics fst totalWeight].
  replace JS.zero with (ofUnits k 0)
    by (apply Fin_Q2Qc; change (inject_Z 0) with 0%Q; ring).
  rewrite (reduce_exact k _ 0 m) by (assumption || (simpl; lia)).
  rewrite (rationalSum_units k _ m Hm). reflexivity.
Qed.

(** Taking entries out of a list that needs no rounding leaves one. *)
Lemma magnitude_without (k : Z) (before after : list WorkoutEntry.t)
    (e : WorkoutEntry.t) (m : Z) :
  magnitude k (before ++ e :: after) = Some m ->
  exists m' v, magnitude k (before ++ after) = Some m'
               /\ volumeUnits k e = Some v /\ m = m' + Z.abs v.
Proof.
  revert m. induction before as [|w ws IH]; cbn [app magnitude]; intros m.
  - destruct (volumeUnits k e) as [v|]; [|discriminate].
    destruct (magnitude k after) as [m'|]; [|discriminate].
    intros [= <-]. exists m', v. repeat split. lia.
  - destruct (volumeUnits k w) as [vw|]; [|discriminate].
    destruct (magnitude k (ws ++ e :: after)) as [m1|]; [|discriminate].
    intros [= <-]. destruct (IH m1 eq_refl) as (m' & v & -> & Hv & ->).
    exists (Z.abs vw + m'), v. repeat split; [assumption | lia].
Qed.

Lemma exactTotal_without (k : Z) (before after : list WorkoutEntry.t)
    (e : WorkoutEntry.t) :
  exactTotal k (before ++ e :: after) -> exactTotal k (before ++ after).
Proof.
  intros (Hk & m & Hm & Hbound). split; [assumption|].
  destruct (magnitude_without _ _ _ _ _ Hm) as (m' & v & Hm' & _ & ->).
  exists m'. split; [assumption | lia].
Qed.

Lemma rationalSum_insert (before after : list WorkoutEntry.t)
    (e : WorkoutEntry.t) :
  rationalSum (before ++ e :: after)
  = (rationalSum (before ++ after)
     + rational (WorkoutEntry.weight e) * rational (WorkoutEntry.reps e)
       * rational (WorkoutEntry.sets e))%Qc.
Proof.
  induction before as [|w ws IH]; cbn [app rationalSum].
  - ring.
  - rewrite IH. ring.
Qed.

Lemma rational_100_5_3 :
  (rational (JS.ofZ 100) * rational (JS.ofZ 5) * rational (JS.ofZ 3))%Qc
  = Q2Qc 1500.
Proof. apply Qc_is_canon. reflexivity. Qed.

(** C5, as stated, fails: the total is a binary64 sum.  For the two entries
    logged with weights "21.7" (6 reps, 1 set) and "21.8" (8 reps, 1 set) it
    is not the exact sum of the stored fields, and logging weight 100, 5 reps
    and 3 sets raises it by more than 1500: the total, which prints as 304.6,
    becomes 1804.6000000000001. *)
Theorem total_volume_is_rounded :
  let before := Sample.fractional in
  let after := logWorkout "anonymous" 3 3 (Sample.filled before) in
  let total (s : State) := totalWeight (fst (getMetrics 0 s)) in
  Forall finiteEntry (workouts after)
  /\ length (workouts after) = S (length (workouts before))
  /\ total before <> JS.Fin (rationalSum (workouts before))
  /\ total after <> JS.Fin (rationalSum (workouts after))
  /\ total after <> JS.add (total before) (JS.ofZ 1500)
  /\ (rational (total after) - rational (total before) > Q2Qc 1500)%Qc.
Proof.
  cbv zeta.
  split; [vm_compute; repeat constructor|].
  split; [reflexivity|].
  split; [vm_compute; intros [= H]; discriminate H|].
  split; [vm_compute; intros [= H]; discriminate H|].
  split; [vm_compute; intros [= H]; discriminate H|].
  vm_compute. reflexivity.
Qed.

(** C5, amended. The total volume is the binary64 sum of the products
    weight x reps x sets, added in list order from 0.  It is the exact sum
    whenever no step needs rounding: every weight a whole number of units
    [2 ^ - k], reps and sets whole numbers, weight x reps and the sum of the
    magnitudes of the volumes within the safe integers of units.  Then an
    entry of weight 100, 5 reps and 3 sets, inserted anywhere in the list or
    logged through the form, raises the total by exactly 1500. *)
Theorem totalWeight_is_sum (now : Z) (s : State) :
  (forall key w,
      totalWeight (fst (getMetrics now (setWorkouts key (workouts s ++ [w]) s)))
      = JS.add (totalWeight (fst (getMetrics now s))) (volume w))
  /\ (forall k, exactTotal k (workouts s) ->
        totalWeight (fst (getMetrics now s))
        = JS.Fin (rationalSum (workouts s)))
  /\ (forall k key e before after,
        WorkoutEntry.weight e = JS.ofZ 100 ->
        WorkoutEntry.reps e = JS.ofZ 5 ->
        WorkoutEntry.sets e = JS.ofZ 3 ->
        workouts s = before ++ after ->
        exactTotal k (before ++ e :: after) ->
        totalWeight (fst (getMetrics now s))
        = JS.Fin (rationalSum (workouts s))
        /\ totalWeight
             (fst (getMetrics now (setWorkouts key (before ++ e :: after) s)))
           = JS.Fin (rationalSum (workouts s) + Q2Qc 1500)%Qc)
  /\ (forall k key liftId clock clockDate,
        liftId <> "" ->
        let logged :=
          logWorkout key clock clockDate
            (setSets "3" (setReps "5" (setWeight "100"
               (setSelectedLiftId liftId s)))) in
        exactTotal k (workouts logged) ->
        totalWeight (fst (getMetrics now s))
        = JS.Fin (rationalSum (workouts s))
        /\ totalWeight (fst (getMetrics now logged))
           = JS.Fin (rationalSum (workouts s) + Q2Qc 1500)%Qc).
Proof.
  split; [intros key w; apply totalWeight_snoc|].
  split; [intros k; apply totalWeight_exact|].
  split.
  - intros k key e before after Hw Hr Hs Hws Hexact. split.
    + apply (totalWeight_exact k). rewrite Hws.
      now apply exactTotal_without with e.
    + rewrite (totalWeight_exact k) by exact Hexact.
      cbn [setWorkouts workouts].
      rewrite rationalSum_insert, Hw, Hr, Hs, rational_100_5_3, Hws.
      reflexivity.
  - intros k key liftId clock clockDate Hl logged Hexact.
    assert (Hws : workouts logged
                  = WorkoutEntry.mk (pretty clock) liftId (JS.parseFloat "100")
                      (JS.parseInt "5") (JS.parseInt "3") (difficulty s)
                      clockDate :: workouts s).
    { unfold logged.
      rewrite (LogForm.logWorkout_accepts key clock clockDate)
        by (destruct liftId; [congruence|reflexivity]).
      reflexivity. }
    split.
    + apply (totalWeight_exact k). rewrite Hws in Hexact.
      now apply (exactTotal_without k [] (workouts s)) in Hexact.
    + rewrite (totalWeight_exact k now logged Hexact), Hws.
      cbn [rationalSum WorkoutEntry.weight WorkoutEntry.reps WorkoutEntry.sets].
      rewrite Qcplus_comm.
      f_equal; f_equal; try (apply Qc_is_canon; vm_compute; reflexivity).
Qed.

Lemma totalWeight_is_sum_witness :
  totalWeight (fst (getMetrics 0 Sample.halves)) = JS.ofZ 1790
  /\ totalWeight
       (fst (getMetrics 0
               (logWorkout "anonymous" 20 20
                  (setSets "3" (setReps "5" (setWeight "100"
                     (setSelectedLiftId "1" Sample.halves)))))))
     = JS.ofZ 3290.
Proof.
  destruct (totalWeight_is_sum 0 Sample.halves) as (_ & _ & _ & Hlog).
  destruct (Hlog 1 "anonymous" "1" 20 20) as [Hbefore Hafter].
  - discriminate.
  - split; [lia|]. eexists. split; [vm_compute; reflexivity | vm_compute; discriminate].
  - split.
    + rewrite Hbefore. js_number_eq.
    + rewrite Hafter. js_number_eq.
Defined.


(** *** Progression *)

Lemma lt_asym (a b : JS.number) : JS.lt a b = true -> JS.lt b a = false.
Proof.
  intros H. destruct (JS.lt b a) eqn:E; [|reflexivity].
  pose proof (lt_trans _ _ _ H E) as Haa. now rewrite lt_irrefl in Haa.
Qed.

Lemma last_two {A : Type} (front : list A) (previous recent : A) :
  (front ++ [previous; recent]) !! (length (front ++ [previous; recent]) - 1)%nat
  = Some recent
  /\ (front ++ [previous; recent]) !! (length (front ++ [previous; recent]) - 2)%nat
     = Some previous.
Proof.
  rewrite length_app. simpl. split.
  - rewrite lookup_app_r by lia.
    now replace (length front + 2 - 1 - length front)%nat with 1%nat by lia.
  - rewrite lookup_app_r by lia.
    now replace (length front + 2 - 2 - length front)%nat with 0%nat by lia.
Qed.

Lemma two_at_the_end {A : Type} (l : list A) :
  (2 <= length l)%nat -> exists front previous recent,
    l = front ++ [previous; recent].
Proof.
  destruct l as [|recent l' _] using rev_ind; simpl; [lia|].
  destruct l' as [|previous front _] using rev_ind.
  - simpl. lia.
  - intros _. exists front, previous, recent. now rewrite <- app_assoc.
Qed.

Lemma lookup_map {A B : Type} (f : A -> B) (l : list A) (i : nat) :
  map f l !! i = option_map f (l !! i).
Proof.
  revert i. induction l as [|x xs IH]; intros [|i]; simpl; try reflexivity.
  apply IH.
Qed.

Lemma filter_map_commute {A : Type} (p : A -> bool) (f : A -> A) (l : list A) :
  (forall a, p (f a) = p a) ->
  List.filter p (map f l) = map f (List.filter p l).
Proof.
  intros Hp. induction l as [|x xs IH]; simpl.
  - reflexivity.
  - rewrite Hp, IH. now destruct (p x).
Qed.

(** The result, read off the sorted list of the exercise's entries. *)
Lemma progression_of_sorted (liftId : string) (s : State) :
  fst (getExerciseProgression liftId s)
  = match rev (JS.sort byDateAscending (entriesOf liftId (workouts s))) with
    | recent :: previous :: _ => compareEntries recent previous
    | _ => neutral
    end.
Proof.
  unfold getExerciseProgression, entriesOf. simpl.
  set (ordered := JS.sort byDateAscending _).
  destruct (Nat.ltb_spec (length ordered) 2) as [Hlt|Hge].
  - destruct ordered as [|a [|b l]]; simpl in Hlt; try lia; reflexivity.
  - destruct (two_at_the_end ordered Hge) as (front & previous & recent & ->).
    destruct (last_two front previous recent) as [-> ->].
    rewrite rev_app_distr. reflexivity.
Qed.

Lemma progression_ignores (liftId key : string) (s : State)
    (g : WorkoutEntry.t -> JS.number * Difficulty) :
  fst (getExerciseProgression liftId
         (setWorkouts key
            (map (fun w => withSetsDifficulty w (fst (g w)) (snd (g w)))
                 (workouts s))
            s))
  = fst (getExerciseProgression liftId s).
Proof.
  rewrite !progression_of_sorted. simpl. unfold entriesOf.
  rewrite filter_map_commute by reflexivity.
  rewrite SortFacts.sort_map by reflexivity.
  rewrite <- map_rev.
  destruct (rev _) as [|a [|b l]]; reflexivity.
Qed.

(** C4. The progression of an exercise is read off its entries ordered by
    ascending date (entries of one date keeping their list order): neutral
    with fewer than two entries; otherwise the latest entry is compared with
    the one before it, by weight first and by reps when the weights do not
    differ.  Replacing sets and difficulty in any entries changes nothing. *)
Theorem progression_compares_last_two (liftId : string) (s : State) :
  let result := fst (getExerciseProgression liftId s) in
  let entries := entriesOf liftId (workouts s) in
  let ordered := JS.sort byDateAscending entries in
  Permutation ordered entries
  /\ StronglySorted (keyLe WorkoutEntry.date) ordered
  /\ (forall d, onDate d ordered = onDate d entries)
  /\ ((length entries < 2)%nat -> result = neutral)
  /\ ((2 <= length entries)%nat ->
      exists front previous recent, ordered = front ++ [previous; recent])
  /\ (forall front previous recent,
        ordered = front ++ [previous; recent] ->
        let weightUp :=
          JS.gt (WorkoutEntry.weight recent) (WorkoutEntry.weight previous) in
        let weightDown :=
          JS.lt (WorkoutEntry.weight recent) (WorkoutEntry.weight previous) in
        let repsUp :=
          JS.gt (WorkoutEntry.reps recent) (WorkoutEntry.reps previous) in
        let repsDown :=
          JS.lt (WorkoutEntry.reps recent) (WorkoutEntry.reps previous) in
        (weightUp = true -> result = up)
        /\ (weightDown = true -> result = down)
        /\ (weightUp = false -> weightDown = false -> repsUp = true ->
            result = up)
        /\ (weightUp = false -> weightDown = false -> repsDown = true ->
            result = down)
        /\ (weightUp = false -> weightDown = false -> repsUp = false ->
            repsDown = false -> result = neutral))
  /\ (forall key (g : WorkoutEntry.t -> JS.number * Difficulty),
        fst (getExerciseProgression liftId
               (setWorkouts key
                  (map (fun w => withSetsDifficulty w (fst (g w)) (snd (g w)))
                       (workouts s))
                  s))
        = result).
Proof.
  cbv zeta.
  pose proof (SortFacts.sort_perm byDateAscending
                (entriesOf liftId (workouts s))) as Hperm.
  split; [exact Hperm|].
  split; [now apply SortFacts.sort_sorted|].
  split; [intros d; now apply (SortFacts.sort_hasKey WorkoutEntry.date)|].
  split.
  { intros Hlt. rewrite progression_of_sorted.
    apply Permutation_length in Hperm.
    destruct (JS.sort _ _) as [|a [|b l]]; simpl in *; try reflexivity; lia. }
  split.
  { intros Hge. apply two_at_the_end.
    apply Permutation_length in Hperm. lia. }
  split.
  - intros front previous recent Hord.
    rewrite progression_of_sorted, Hord, rev_app_distr. simpl.
    unfold compareEntries.
    split; [now intros ->|].
    split.
    { intros Hdown. unfold JS.gt. now rewrite (lt_asym _ _ Hdown), Hdown. }
    split; [now intros -> -> ->|].
    split.
    { intros -> -> Hdown. unfold JS.gt. now rewrite (lt_asym _ _ Hdown), Hdown. }
    now intros -> -> -> ->.
  - intros key g. apply progression_ignores.
Qed.

Lemma progression_compares_last_two_witness :
  fst (getExerciseProgression "1" Sample.weightWentUp) = up.
Proof.
  destruct (progression_compares_last_two "1" Sample.weightWentUp)
    as (_ & _ & _ & _ & _ & Htable & _).
  destruct (Htable [] (Sample.entry "a" "1" 100 5 3 D3 1)
                   (Sample.entry "b" "1" 105 5 3 D3 2) eq_refl)
    as (Hup & _).
  apply Hup. reflexivity.
Defined.

(** The three examples of the specification. *)
Example progression_examples :
  fst (getExerciseProgression "1" Sample.weightWentUp) = up
  /\ fst (getExerciseProgression "1" Sample.repsWentDown) = down
  /\ fst (getExerciseProgression "1" Sample.singleEntry) = neutral.
Proof. repeat split; reflexivity. Qed.


(** *** Recent entries *)

Lemma StronglySorted_weaken {A : Type} (R R' : A -> A -> Prop) (l : list A) :
  (forall a b, R a b -> R' a b) -> StronglySorted R l -> StronglySorted R' l.
Proof.
  intros HR. induction 1 as [|x xs Hs IH Hx]; constructor.
  - exact IH.
  - eapply List.Forall_impl; [|exact Hx]. intros b. apply HR.
Qed.

Lemma StronglySorted_app {A : Type} (R : A -> A -> Prop) (l1 l2 : list A) :
  StronglySorted R (l1 ++ l2) ->
  StronglySorted R l1 /\ (forall a b, In a l1 -> In b l2 -> R a b).
Proof.
  induction l1 as [|x xs IH]; simpl; intros H.
  - split; [constructor|]. intros a b [].
  - inversion H as [|? ? Hs Hx]; subst.
    destruct (IH Hs) as [Hs1 Hcross]. split.
    + constructor; [exact Hs1|].
      rewrite List.Forall_forall in *. intros b Hb. apply Hx.
      apply in_or_app. now left.
    + intros a b [<-|Ha] Hb.
      * rewrite List.Forall_forall in Hx. apply Hx, in_or_app. now right.
      * now apply Hcross.
Qed.

Lemma byDateDescending_key (a b : WorkoutEntry.t) :
  byDateDescending a b = negDate a - negDate b.
Proof. unfold byDateDescending, negDate. lia. Qed.

Lemma onDate_negDate (d : Z) (l : list WorkoutEntry.t) :
  onDate d l = List.filter (hasKey negDate (- d)) l.
Proof.
  unfold onDate. apply List.filter_ext. intros w. unfold hasKey, negDate.
  destruct (Z.eqb_spec (WorkoutEntry.date w) d),
    (Z.eqb_spec (- WorkoutEntry.date w) (- d)); try reflexivity; lia.
Qed.

Lemma onDate_app (d : Z) (l1 l2 : list WorkoutEntry.t) :
  onDate d (l1 ++ l2) = onDate d l1 ++ onDate d l2.
Proof. apply List.filter_app. Qed.

(** C6. The recent entries are the first five (all of them when there are
    fewer) of the list ordered by descending date: they are in descending
    order of date, no entry left out is dated later than one of them, and
    among the entries of one date the list order is kept, the ones returned
    coming before the ones left out. *)
Theorem recent_are_latest_five (s : State) :
  let recent := fst (getRecentWorkouts s) in
  length recent = Nat.min 5 (length (workouts s))
  /\ StronglySorted notEarlier recent
  /\ exists others,
       Permutation (recent ++ others) (workouts s)
       /\ (forall a b, In a recent -> In b others -> notEarlier a b)
       /\ (forall d, onDate d (workouts s)
                     = onDate d recent ++ onDate d others).
Proof.
  cbv zeta. unfold getRecentWorkouts, sortWorkoutsInPlace, JS.slice0. simpl.
  set (ordered := JS.sort byDateDescending (workouts s)).
  assert (Hperm : Permutation ordered (workouts s))
    by apply SortFacts.sort_perm.
  assert (Hsorted : StronglySorted notEarlier ordered).
  { apply (StronglySorted_weaken (keyLe negDate)).
    - unfold keyLe, negDate, notEarlier. intros a b. lia.
    - apply SortFacts.sort_sorted, byDateDescending_key. }
  rewrite <- (firstn_skipn 5 ordered) in Hsorted.
  apply StronglySorted_app in Hsorted as [Hfirst Hcross].
  split.
  { rewrite length_firstn. now rewrite (Permutation_length Hperm). }
  split; [exact Hfirst|].
  exists (skipn 5 ordered).
  split; [now rewrite firstn_skipn|].
  split; [exact Hcross|].
  intros d. rewrite <- onDate_app, firstn_skipn, !onDate_negDate.
  symmetry. apply SortFacts.sort_hasKey, byDateDescending_key.
Qed.

(** Five of seven, and the two entries of date 40 in their list order. *)
Example recent_of_seven :
  map WorkoutEntry.id (fst (getRecentWorkouts Sample.seven))
  = ["c"; "g"; "d"; "e"; "a"].
Proof. reflexivity. Qed.


(** *** Personal records *)

Lemma trackRecord_step (m : gmap string JS.number) (w : WorkoutEntry.t) :
  recordsPositive m ->
  dom (trackRecord m w)
  = dom m ∪ (if liftedWeight w then {[WorkoutEntry.liftId w]} else ∅)
  /\ recordsPositive (trackRecord m w).
Proof.
  intros Hpos. unfold trackRecord, liftedWeight.
  set (k := WorkoutEntry.liftId w).
  assert (Hins : JS.gt (WorkoutEntry.weight w) JS.zero = true ->
                 recordsPositive (<[k:=WorkoutEntry.weight w]> m)).
  { intros Hw k' v'. rewrite lookup_insert.
    case_decide; [congruence|]. apply Hpos. }
  destruct (m !! k) as [v|] eqn:Hk; cbn [JS.orDefault].
  - pose proof (Hpos k v Hk) as Hv.
    rewrite (positive_truthy v Hv).
    assert (Hin : k ∈ dom m) by (apply elem_of_dom; eauto).
    destruct (JS.gt (WorkoutEntry.weight w) v) eqn:Hgt.
    + assert (Hw : JS.gt (WorkoutEntry.weight w) JS.zero = true).
      { unfold JS.gt in *. eapply lt_trans; eassumption. }
      rewrite Hw. split; [|now apply Hins].
      rewrite dom_insert_L. set_solver.
    + split; [|exact Hpos].
      destruct (JS.gt (WorkoutEntry.weight w) JS.zero); set_solver.
  - destruct (JS.gt (WorkoutEntry.weight w) JS.zero) eqn:Hw.
    + split; [|now apply Hins]. rewrite dom_insert_L. set_solver.
    + split; [|exact Hpos]. set_solver.
Qed.

Lemma liftedIds_cons (w : WorkoutEntry.t) (ws : list WorkoutEntry.t) :
  liftedIds (w :: ws)
  = (if liftedWeight w then {[WorkoutEntry.liftId w]} else ∅) ∪ liftedIds ws.
Proof.
  unfold liftedIds. simpl. destruct (liftedWeight w); simpl; set_solver.
Qed.

Lemma trackRecord_fold (ws : list WorkoutEntry.t) (m : gmap string JS.number) :
  recordsPositive m ->
  dom (fold_left trackRecord ws m) = dom m ∪ liftedIds ws.
Proof.
  revert m. induction ws as [|w ws IH]; intros m Hpos; simpl.
  - unfold liftedIds. simpl. set_solver.
  - destruct (trackRecord_step m w Hpos) as [Hdom Hpos'].
    rewrite (IH _ Hpos'), Hdom, liftedIds_cons. set_solver.
Qed.

Lemma personalRecords_liftedIds (now : Z) (s : State) :
  personalRecords (fst (getMetrics now s)) = size (liftedIds (workouts s)).
Proof.
  simpl. rewrite <- size_dom, trackRecord_fold.
  - f_equal. set_solver.
  - intros k v. now rewrite lookup_empty.
Qed.

Lemma liftedIds_subseteq (ws : list WorkoutEntry.t) :
  liftedIds ws ⊆ exerciseIds ws.
Proof.
  unfold liftedIds, exerciseIds. intros k.
  rewrite !elem_of_list_to_set, !list_elem_of_In, !in_map_iff.
  intros (w & Hk & Hw). apply filter_In in Hw as [Hw _]. eauto.
Qed.

Lemma liftedIds_all (ws : list WorkoutEntry.t) :
  List.Forall (fun w => liftedWeight w = true) ws ->
  liftedIds ws = exerciseIds ws.
Proof.
  intros H. unfold liftedIds, exerciseIds. f_equal. f_equal.
  induction H as [|w ws Hw _ IH]; simpl.
  - reflexivity.
  - now rewrite Hw, IH.
Qed.

(** C7, as stated, fails: an exercise whose only entry has weight 0 counts
    as an exercise trained and has no record. *)
Lemma records_miss_unloaded_exercise :
  ~ (forall (now : Z) (s : State),
        personalRecords (fst (getMetrics now s))
        = size (exerciseIds (workouts s))
        /\ personalRecords (fst (getMetrics now s))
           = uniqueExercises (fst (getMetrics now s))).
Proof.
  intros H. destruct (H 0 Sample.bodyweightOnly) as [_ Heq].
  vm_compute in Heq. discriminate Heq.
Qed.

(** C7, amended. The number of exercises trained is the number of distinct
    exercise identifiers among the entries.  The number of personal records
    is the number of distinct exercise identifiers among the entries whose
    weight is above zero; it never exceeds the number of exercises trained,
    and equals it when every entry has a weight above zero. *)
Theorem records_count_lifted_exercises (now : Z) (s : State) :
  uniqueExercises (fst (getMetrics now s)) = size (exerciseIds (workouts s))
  /\ personalRecords (fst (getMetrics now s))
     = size (liftedIds (workouts s))
  /\ (personalRecords (fst (getMetrics now s))
      <= uniqueExercises (fst (getMetrics now s)))%nat
  /\ (List.Forall (fun w => liftedWeight w = true) (workouts s) ->
      personalRecords (fst (getMetrics now s))
      = uniqueExercises (fst (getMetrics now s))).
Proof.
  rewrite personalRecords_liftedIds.
  split; [reflexivity|]. split; [reflexivity|].
  split.
  - apply subseteq_size, liftedIds_subseteq.
  - intros H. simpl. now rewrite (liftedIds_all _ H).
Qed.

Lemma records_count_lifted_exercises_witness :
  personalRecords (fst (getMetrics 0 Sample.twoLifts)) = 2%nat
  /\ personalRecords (fst (getMetrics 0 Sample.twoLifts))
     = uniqueExercises (fst (getMetrics 0 Sample.twoLifts)).
Proof.
  destruct (records_count_lifted_exercises 0 Sample.twoLifts)
    as (Hu & _ & _ & Hall).
  assert (Heq := Hall ltac:(repeat constructor)).
  split; [|exact Heq].
  rewrite Heq, Hu. reflexivity.
Defined.


(** *** What the metrics functions do to the state *)

(** C8, on the code. [getMetrics] and [getExerciseProgression] leave the
    state as it was.  [getRecentWorkouts] leaves the exercise list as it was
    and the same entries in the workout list, but reorders that list: held
    oldest first (as after two sessions logged with the clock set back in
    between), it is newest first after the call. *)
Theorem getRecentWorkouts_reorders_state :
  (forall now s, snd (getMetrics now s) = s)
  /\ (forall liftId s, snd (getExerciseProgression liftId s) = s)
  /\ (forall s, lifts (snd (getRecentWorkouts s)) = lifts s
                /\ workouts (snd (getRecentWorkouts s))
                   = JS.sort byDateDescending (workouts s)
                /\ Permutation (workouts (snd (getRecentWorkouts s)))
                               (workouts s))
  /\ workouts Sample.oldestFirst
     = [Sample.entry "10" "1" 100 5 3 D3 10;
        Sample.entry "20" "1" 105 5 3 D3 20]
  /\ workouts (run "anonymous" Sample.clockSetBack initial)
     = workouts Sample.oldestFirst
  /\ workouts (snd (getRecentWorkouts Sample.oldestFirst))
     = [Sample.entry "20" "1" 105 5 3 D3 20;
        Sample.entry "10" "1" 100 5 3 D3 10]
  /\ snd (getRecentWorkouts Sample.oldestFirst) <> Sample.oldestFirst.
Proof.
  split; [reflexivity|]. split; [reflexivity|].
  split.
  { intros s. split; [reflexivity|]. split; [reflexivity|].
    apply SortFacts.sort_perm. }
  split; [reflexivity|]. split; [js_entries_eq|]. split; [reflexivity|].
  intros H. apply (f_equal workouts) in H. discriminate H.
Qed.

End MetricsEngine.

(* ===================================================================== *)
(** ** Entries created through the form *)
(* ===================================================================== *)

Module Invariants.

Import Component Spec LogForm.

Lemma Forall_filter_keep {A : Type} (P : A -> Prop) (p : A -> bool)
    (l : list A) :
  List.Forall P l -> List.Forall P (List.filter p l).
Proof.
  rewrite !List.Forall_forall. intros H x Hx.
  apply filter_In in Hx as [Hx _]. now apply H.
Qed.

Lemma difficulty_in_range (d : Difficulty) : 1 <= Difficulty_value d <= 5.
Proof. destruct d; simpl; lia. Qed.

Lemma complete_fields (s : State) :
  complete s = true ->
  selectedLiftId s <> "" /\ weight s <> "" /\ reps s <> "" /\ sets s <> "".
Proof.
  unfold complete. rewrite !andb_true_iff.
  intros [[[H1 H2] H3] H4].
  repeat split; now apply SyncBridge.truthyS_true.
Qed.

Lemma incomplete_fields (s : State) :
  selectedLiftId s = "" \/ weight s = "" \/ reps s = "" \/ sets s = "" ->
  complete s = false.
Proof.
  unfold complete.
  intros [H|[H|[H|H]]]; rewrite H; simpl;
    repeat (rewrite ?andb_false_r, ?andb_false_l); reflexivity.
Qed.

Lemma step_keeps_logged (key : string) (s : State) (a : Action) :
  List.Forall loggedEntry (workouts s) ->
  List.Forall loggedEntry (workouts (step key s a)).
Proof.
  intros H. destruct a; simpl; try exact H.
  - unfold addLift. now destruct (JS.truthyS _).
  - destruct (complete s) eqn:Hc.
    + rewrite (logWorkout_accepts key now nowDate s Hc).
      destruct (complete_fields s Hc) as (Hl & Hw & Hr & Hs).
      constructor; [|exact H].
      unfold loggedEntry. simpl.
      split; [exact Hl|].
      split; [now exists (weight s)|].
      split; [now exists (reps s)|].
      split; [now exists (sets s)|].
      apply difficulty_in_range.
    + now rewrite (logWorkout_rejects key now nowDate s Hc).
  - now apply Forall_filter_keep.
  - now apply Forall_filter_keep.
Qed.

Lemma run_keeps_logged (key : string) (actions : list Action) (s : State) :
  List.Forall loggedEntry (workouts s) ->
  List.Forall loggedEntry (workouts (run key actions s)).
Proof.
  revert s. induction actions as [|a actions IH]; intros s H; simpl.
  - exact H.
  - apply IH. now apply step_keeps_logged.
Qed.

Lemma loggedIn_later (key : string) (actions : list Action) (a : Action)
    (e : WorkoutEntry.t) :
  loggedIn key actions e -> loggedIn key (actions ++ [a]) e.
Proof.
  intros (before & now & nowDate & after & -> & Hc & ->).
  exists before, now, nowDate, (after ++ [a]).
  split; [now rewrite <- app_assoc|]. now split.
Qed.

Lemma run_snoc (key : string) (actions : list Action) (a : Action) (s : State) :
  run key (actions ++ [a]) s = step key (run key actions s) a.
Proof. unfold run. now rewrite fold_left_app. Qed.

(** Every entry of the list was logged in the run, from the form as it was
    when it was submitted. *)
Lemma run_logged (key : string) (actions : list Action) :
  List.Forall (loggedIn key actions) (workouts (run key actions initial)).
Proof.
  induction actions as [|a actions IH] using rev_ind.
  - constructor.
  - rewrite run_snoc.
    assert (Hold : List.Forall (loggedIn key (actions ++ [a]))
                     (workouts (run key actions initial))).
    { eapply List.Forall_impl; [|exact IH]. intros e. apply loggedIn_later. }
    set (s := run key actions initial) in *.
    destruct a; simpl; try exact Hold.
    + unfold addLift. now destruct (JS.truthyS _).
    + destruct (complete s) eqn:Hc.
      * rewrite (logWorkout_accepts key now nowDate s Hc).
        constructor; [|exact Hold].
        exists actions, now, nowDate, []. now repeat split.
      * now rewrite (logWorkout_rejects key now nowDate s Hc).
    + now apply Forall_filter_keep.
    + now apply Forall_filter_keep.
Qed.

(** C9, as stated, fails: the form accepts a negative load and zero reps
    and sets, and the entry is stored. *)
Lemma form_accepts_out_of_range :
  workouts (run "anonymous" Sample.sloppyInput initial)
  = [WorkoutEntry.mk "2" "1" (JS.ofZ (-5)) (JS.ofZ 0) (JS.ofZ 0) D3 2]
  /\ ~ List.Forall validEntry
        (workouts (run "anonymous" Sample.sloppyInput initial)).
Proof.
  assert (Hws : workouts (run "anonymous" Sample.sloppyInput initial)
                = [WorkoutEntry.mk "2" "1" (JS.ofZ (-5)) (JS.ofZ 0) (JS.ofZ 0)
                                   D3 2]) by js_entries_eq.
  split; [exact Hws|].
  rewrite Hws. intros H. apply List.Forall_inv in H.
  destruct H as [Hweight _]. vm_compute in Hweight. discriminate Hweight.
Qed.

(** C9, amended. Starting from the empty lists, after any sequence of
    operations every entry of the workout list was created by a submission
    of that sequence made with a complete form, and is the entry of that
    form: its exercise is the one selected, its weight is what [parseFloat]
    reads from the weight field, its reps and sets what [parseInt] reads from
    the reps and sets fields, its difficulty the one picked.  So every entry
    has a non-empty exercise identifier and a difficulty from 1 to 5; no
    range is enforced on weight, reps and sets.  A submission with a
    complete form puts that entry at the head of the list; one with an empty
    required field changes nothing. *)
Theorem logged_entries_invariant (key : string) (actions : list Action) :
  List.Forall (loggedIn key actions) (workouts (run key actions initial))
  /\ List.Forall loggedEntry (workouts (run key actions initial))
  /\ (forall s now nowDate,
        complete s = true ->
        workouts (logWorkout key now nowDate s)
        = formEntry now nowDate s :: workouts s)
  /\ (forall s now nowDate,
        selectedLiftId s = "" \/ weight s = "" \/ reps s = "" \/ sets s = "" ->
        logWorkout key now nowDate s = s).
Proof.
  split; [apply run_logged|].
  split; [apply run_keeps_logged; constructor|].
  split.
  - intros s now nowDate Hc. now apply logWorkout_accepts.
  - intros s now nowDate H.
    apply logWorkout_rejects, incomplete_fields, H.
Qed.

Lemma logged_entries_invariant_witness :
  List.Forall (loggedIn "anonymous" Sample.sloppyInput)
    (workouts (run "anonymous" Sample.sloppyInput initial))
  /\ workouts (logWorkout "anonymous" 3 3 (Sample.filled Sample.twoLifts))
     = Spec.formEntry 3 3 (Sample.filled Sample.twoLifts)
       :: workouts Sample.twoLifts
  /\ logWorkout "anonymous" 3 3
       (setSets "3" (setReps "8" (setSelectedLiftId "1" Sample.twoLifts)))
     = setSets "3" (setReps "8" (setSelectedLiftId "1" Sample.twoLifts)).
Proof.
  destruct (logged_entries_invariant "anonymous" Sample.sloppyInput)
    as (Hall & _ & Hlog & Hnoop).
  split; [exact Hall|].
  split; [exact (Hlog (Sample.filled Sample.twoLifts) 3 3 eq_refl)|].
  apply Hnoop. right. left. reflexivity.
Defined.


End Invariants.

(* ===================================================================== *)
(** ** The storage hook: fallbacks, round trip, frame *)
(* ===================================================================== *)

Module HookProps.

Import Database Hook.

(** X1. The initial value of the hook is the given default whenever the
    stored item cannot be used: there is no [window], storage access is
    denied, the key is absent, the item is the empty string, or the item
    does not parse.  Otherwise it is the parsed item. *)
Theorem hook_falls_back_to_default {T : Type} (parse : string -> completion T)
    (b : Browser) (key : string) (initialValue : T) :
  (hasWindow b = false -> initialState parse b key initialValue = initialValue)
  /\ (allowed b = false -> initialState parse b key initialValue = initialValue)
  /\ (items b !! key = None ->
      initialState parse b key initialValue = initialValue)
  /\ (items b !! key = Some "" ->
      initialState parse b key initialValue = initialValue)
  /\ (forall text, items b !! key = Some text -> parse text = Throw ->
                   initialState parse b key initialValue = initialValue)
  /\ (forall text v, hasWindow b = true -> allowed b = true ->
                     items b !! key = Some text -> text <> "" ->
                     parse text = Normal v ->
                     initialState parse b key initialValue = v).
Proof.
  unfold initialState, getItem.
  split; [now intros ->|].
  split; [intros ->; now destruct (hasWindow b)|].
  split; [intros ->; now destruct (hasWindow b), (allowed b)|].
  split; [intros ->; now destruct (hasWindow b), (allowed b)|].
  split.
  - intros text -> Hp. destruct (hasWindow b), (allowed b); simpl; trivial.
    destruct (JS.truthyS text); [now rewrite Hp|reflexivity].
  - intros text v -> -> -> Hne Hp. simpl.
    destruct text; [congruence|]. simpl. now rewrite Hp.
Qed.

Lemma hook_falls_back_to_default_witness :
  initialState parseBool freshBrowser "flag" true = true
  /\ initialState parseBool
       (mkBrowser true true {["flag" := "no"]} (fun _ _ => true)) "flag" true
     = true
  /\ initialState parseBool
       (mkBrowser true true {["flag" := "false"]} (fun _ _ => true)) "flag" true
     = false.
Proof.
  split; [|split].
  - destruct (hook_falls_back_to_default parseBool freshBrowser "flag" true)
      as (_ & _ & Habsent & _).
    now apply Habsent.
  - destruct (hook_falls_back_to_default parseBool
                (mkBrowser true true {["flag" := "no"]} (fun _ _ => true))
                "flag" true) as (_ & _ & _ & _ & Hbad & _).
    now apply (Hbad "no").
  - destruct (hook_falls_back_to_default parseBool
                (mkBrowser true true {["flag" := "false"]} (fun _ _ => true))
                "flag" true) as (_ & _ & _ & _ & _ & Hgood).
    now apply (Hgood "false").
Defined.

(** X2. A value written through the setter is the value a later mount of
    the hook starts from, when the storage takes the write and the JSON text
    of the value is not empty and parses back to the value. *)
Theorem hook_round_trip {T : Type} (stringify : T -> completion string)
    (parse : string -> completion T) (b : Browser) (key text : string)
    (old value default : T) :
  hasWindow b = true -> allowed b = true ->
  stringify value = Normal text -> text <> "" ->
  accepts b key text = true ->
  parse text = Normal value ->
  fst (setValue stringify key value (old, b)) = value
  /\ initialState parse (snd (setValue stringify key value (old, b))) key default
     = value.
Proof.
  intros Hw Ha Hs Hne Hq Hp. split; [reflexivity|].
  unfold setValue, setItem. cbn [fst snd].
  rewrite Hw, Hs, Ha, Hq. cbn [andb].
  unfold initialState, getItem. cbn [hasWindow allowed items].
  rewrite lookup_insert_eq.
  destruct text; [congruence|]. simpl. now rewrite Hp.
Qed.

Lemma hook_round_trip_witness :
  fst (setValue stringifyBool "flag" false (true, freshBrowser)) = false
  /\ initialState parseBool
       (snd (setValue stringifyBool "flag" false (true, freshBrowser)))
       "flag" true
     = false.
Proof.
  apply (hook_round_trip stringifyBool parseBool freshBrowser "flag" "false");
    try reflexivity.
  discriminate.
Defined.

(** X3. The setter always sets the state, also when nothing can be
    stored; it never changes what the hook reads under another key; and a
    write that fails (no [window], a value that does not serialise, access
    denied, quota exceeded) leaves the browser as it was. *)
Theorem hook_write_frame {T : Type} (stringify : T -> completion string)
    (parse : string -> completion T) (key : string) (value : T)
    (hook : T * Browser) :
  fst (setValue stringify key value hook) = value
  /\ (forall other default, other <> key ->
        initialState parse (snd (setValue stringify key value hook)) other default
        = initialState parse (snd hook) other default)
  /\ (hasWindow (snd hook) = false \/ stringify value = Throw
      \/ allowed (snd hook) = false
      \/ (forall text, accepts (snd hook) key text = false) ->
      snd (setValue stringify key value hook) = snd hook).
Proof.
  destruct hook as [old b]. unfold setValue, setItem. simpl.
  split; [reflexivity|]. split.
  - intros other default Hne.
    destruct (hasWindow b) eqn:Hw; [|reflexivity].
    destruct (stringify value) as [text|]; [|reflexivity].
    destruct (allowed b && accepts b key text) eqn:Hok; [|reflexivity].
    unfold initialState, getItem. simpl. rewrite Hw.
    destruct (allowed b); [|reflexivity].
    now rewrite lookup_insert_ne by congruence.
  - intros [->|[->|[->|Hq]]]; try reflexivity.
    + now destruct (hasWindow b).
    + destruct (hasWindow b); [|reflexivity].
      now destruct (stringify value).
    + destruct (hasWindow b); [|reflexivity].
      destruct (stringify value) as [text|]; [|reflexivity].
      now rewrite Hq, andb_false_r.
Qed.

Lemma hook_write_frame_witness :
  initialState parseBool
    (snd (setValue stringifyBool "flag" false
            (true, mkBrowser true true {["other" := "true"]} (fun _ _ => true))))
    "other" false
  = true
  /\ snd (setValue stringifyBool "flag" false
            (true, mkBrowser true true ∅ (fun _ _ => false)))
     = mkBrowser true true ∅ (fun _ _ => false).
Proof.
  destruct (hook_write_frame stringifyBool parseBool "flag" false
              (true, mkBrowser true true {["other" := "true"]}
                               (fun _ _ => true))) as (_ & Hframe & _).
  destruct (hook_write_frame stringifyBool parseBool "flag" false
              (true, mkBrowser true true ∅ (fun _ _ => false)))
    as (_ & _ & Hfail).
  split.
  - rewrite Hframe by discriminate. reflexivity.
  - apply Hfail. right. right. right. reflexivity.
Defined.

(** *** The storage behind the state *)

Lemma setValue_browser {T : Type} (stringify : T -> completion string)
    (key : string) (value : T) (hook : T * Browser) :
  let b := snd hook in
  let b' := snd (setValue stringify key value hook) in
  hasWindow b' = hasWindow b /\ allowed b' = allowed b
  /\ accepts b' = accepts b
  /\ items b' = match stored stringify b key value with
                | Some text => <[key := text]> (items b)
                | None => items b
                end.
Proof.
  destruct hook as [old b]. unfold setValue, setItem, stored. cbn [snd].
  destruct (hasWindow b) eqn:Hw; [|now rewrite Hw].
  destruct (stringify value) as [text|]; [|now rewrite Hw].
  destruct (allowed b && accepts b key text); cbn; now rewrite ?Hw.
Qed.

Lemma stored_browser {T : Type} (stringify : T -> completion string)
    (b b' : Browser) (key : string) (value : T) :
  hasWindow b' = hasWindow b -> allowed b' = allowed b ->
  accepts b' = accepts b ->
  stored stringify b' key value = stored stringify b key value.
Proof. unfold stored. now intros -> -> ->. Qed.

Lemma setValues_snoc {T : Type} (stringify : T -> completion string)
    (key : string) (values : list T) (value : T) (hook : T * Browser) :
  setValues stringify key (values ++ [value]) hook
  = setValue stringify key value (setValues stringify key values hook).
Proof. unfold setValues. now rewrite fold_left_app. Qed.

Lemma latestStored_snoc {T : Type} (stringify : T -> completion string)
    (b : Browser) (key : string) (values : list T) (value : T) :
  latestStored stringify b key (values ++ [value])
  = match stored stringify b key value with
    | Some text => Some text
    | None => latestStored stringify b key values
    end.
Proof. unfold latestStored. now rewrite fold_left_app. Qed.

Lemma setValues_spec {T : Type} (stringify : T -> completion string)
    (key : string) (values : list T) (hook : T * Browser) :
  fst (setValues stringify key values hook) = List.last values (fst hook)
  /\ hasWindow (snd (setValues stringify key values hook))
     = hasWindow (snd hook)
  /\ allowed (snd (setValues stringify key values hook)) = allowed (snd hook)
  /\ accepts (snd (setValues stringify key values hook)) = accepts (snd hook)
  /\ items (snd (setValues stringify key values hook)) !! key
     = match latestStored stringify (snd hook) key values with
       | Some text => Some text
       | None => items (snd hook) !! key
       end
  /\ (forall other, other <> key ->
        items (snd (setValues stringify key values hook)) !! other
        = items (snd hook) !! other).
Proof.
  induction values as [|value values IH] using rev_ind.
  - repeat split; reflexivity.
  - destruct IH as (Hstate & Hw & Ha & Hq & Hitem & Hframe).
    rewrite setValues_snoc, latestStored_snoc.
    destruct (setValue_browser stringify key value
                (setValues stringify key values hook))
      as (Hw' & Ha' & Hq' & Hitems').
    cbv zeta in *.
    rewrite (stored_browser stringify _ _ key value Hw Ha Hq) in Hitems'.
    split; [now rewrite List.last_last|].
    split; [congruence|]. split; [congruence|]. split; [congruence|].
    rewrite Hitems'.
    destruct (stored stringify (snd hook) key value) as [text|].
    + split; [now rewrite lookup_insert_eq|].
      intros other Hne. rewrite lookup_insert_ne by congruence.
      now apply Hframe.
    + split; assumption.
Qed.

(** X6. After any run of calls of the setter, the state is the value of
    the last call, and the item under the key is the text of the latest call
    whose write succeeded: the storage is behind the state when the write of
    the last value failed, and holds what it held at first when every write
    failed.  No other key is touched. *)
Theorem storage_follows_accepted_writes {T : Type}
    (stringify : T -> completion string) (key : string) (values : list T)
    (hook : T * Browser) :
  let final := setValues stringify key values hook in
  fst final = List.last values (fst hook)
  /\ items (snd final) !! key
     = match latestStored stringify (snd hook) key values with
       | Some text => Some text
       | None => items (snd hook) !! key
       end
  /\ (forall other, other <> key ->
        items (snd final) !! other = items (snd hook) !! other)
  /\ (forall front value,
        values = front ++ [value] ->
        match stored stringify (snd hook) key value with
        | Some text => items (snd final) !! key = Some text
        | None =>
            fst final = value
            /\ items (snd final) !! key
               = items (snd (setValues stringify key front hook)) !! key
        end).
Proof.
  cbv zeta.
  destruct (setValues_spec stringify key values hook)
    as (Hstate & _ & _ & _ & Hitem & Hframe).
  split; [exact Hstate|]. split; [exact Hitem|]. split; [exact Hframe|].
  intros front value ->.
  rewrite Hitem, latestStored_snoc.
  destruct (stored stringify (snd hook) key value) as [text|] eqn:Hs;
    [reflexivity|].
  split; [now rewrite Hstate, List.last_last|].
  destruct (setValues_spec stringify key front hook)
    as (_ & _ & _ & _ & Hitem' & _).
  now rewrite Hitem'.
Qed.

Lemma storage_follows_accepted_writes_witness :
  fst (setValues stringifyBool "flag" [true; false] (true, smallQuota)) = false
  /\ items (snd (setValues stringifyBool "flag" [true; false]
                             (true, smallQuota))) !! "flag"
     = Some "true"
  /\ items (snd (setValues stringifyBool "flag" [false; false]
                             (true, smallQuota))) !! "flag"
     = None.
Proof.
  destruct (storage_follows_accepted_writes stringifyBool "flag" [true; false]
              (true, smallQuota)) as (Hstate & Hitem & _).
  destruct (storage_follows_accepted_writes stringifyBool "flag" [false; false]
              (true, smallQuota)) as (_ & Hnone & _).
  split; [exact Hstate|]. split; [exact Hitem|exact Hnone].
Defined.

End HookProps.

(* ===================================================================== *)
(** ** The record store over sequences of operations *)
(* ===================================================================== *)

Module StoreProps.

Import Component Spec Page.

Lemma progressions_keep_state (recent : list WorkoutEntry.t) (s : State) :
  fold_left (fun st w => snd (getExerciseProgression (WorkoutEntry.liftId w) st))
            recent s
  = s.
Proof.
  revert s. induction recent as [|w recent IH]; intros s; [reflexivity|].
  cbn [fold_left]. apply IH.
Qed.

(** The dashboard render only reorders the workout list. *)
Lemma renderDashboard_state (now : Z) (s : State) :
  renderDashboard now s = sortWorkoutsInPlace byDateDescending s.
Proof.
  unfold renderDashboard, getRecentWorkouts.
  cbn [snd getMetrics]. apply progressions_keep_state.
Qed.

(** A property kept by every operation and by the reordering of a render
    is kept by every session. *)
Lemma session_invariant (key : string) (P : State -> Prop) :
  (forall s a, P s -> P (step key s a)) ->
  (forall s, P s -> P (sortWorkoutsInPlace byDateDescending s)) ->
  forall events s, P s -> P (session key events s).
Proof.
  intros Hstep Hrender events.
  induction events as [|e events IH]; intros s Hs.
  - exact Hs.
  - simpl. apply IH. destruct e as [a|now]; simpl.
    + now apply Hstep.
    + rewrite renderDashboard_state. now apply Hrender.
Qed.

Lemma liftsKey_inj (k1 k2 : string) : liftsKey k1 = liftsKey k2 -> k1 = k2.
Proof. unfold liftsKey. simpl. intros H. now injection H. Qed.

Lemma workoutsKey_inj (k1 k2 : string) :
  workoutsKey k1 = workoutsKey k2 -> k1 = k2.
Proof. unfold workoutsKey. simpl. intros H. now injection H. Qed.

Lemma liftsKey_workoutsKey (k1 k2 : string) : liftsKey k1 <> workoutsKey k2.
Proof. unfold liftsKey, workoutsKey. simpl. intros H. discriminate H. Qed.

(** X4. The storage keys never collide: two partitions have different keys
    for their exercise lists and for their workout lists, and no exercise
    key is a workout key, whatever the partition names are. *)
Theorem storage_keys_never_collide (k1 k2 : string) :
  (liftsKey k1 = liftsKey k2 <-> k1 = k2)
  /\ (workoutsKey k1 = workoutsKey k2 <-> k1 = k2)
  /\ liftsKey k1 <> workoutsKey k2.
Proof.
  split; [split; [apply liftsKey_inj|now intros ->]|].
  split; [split; [apply workoutsKey_inj|now intros ->]|].
  apply liftsKey_workoutsKey.
Qed.

(** What a step writes: the storage entries of its own partition only. *)
Lemma step_storage_frame (key : string) (s : State) (a : Action) (k : string) :
  k <> liftsKey key -> k <> workoutsKey key ->
  localStorage (step key s a) !! k = localStorage s !! k.
Proof.
  intros Hl Hw.
  destruct a; simpl; try reflexivity.
  - unfold addLift. destruct (JS.truthyS _); [|reflexivity].
    simpl. now rewrite lookup_insert_ne by congruence.
  - unfold logWorkout.
    destruct (_ && _); [|reflexivity].
    simpl. now rewrite lookup_insert_ne by congruence.
  - now rewrite !lookup_insert_ne by congruence.
  - now rewrite lookup_insert_ne by congruence.
Qed.

(** X5. Operations performed under one partition never change the stored
    lists of another partition. *)
Theorem other_partitions_untouched (key other : string)
    (events : list Event) (s : State) :
  other <> key ->
  localStorage (session key events s) !! liftsKey other
  = localStorage s !! liftsKey other
  /\ localStorage (session key events s) !! workoutsKey other
     = localStorage s !! workoutsKey other.
Proof.
  intros Hne.
  assert (Hk : forall k, k <> liftsKey key -> k <> workoutsKey key ->
                         localStorage (session key events s) !! k
                         = localStorage s !! k).
  { intros k Hl Hw.
    apply (session_invariant key
             (fun s' => localStorage s' !! k = localStorage s !! k));
      [| |reflexivity].
    - intros s' a Hs'. now rewrite step_storage_frame.
    - intros s' Hs'. exact Hs'. }
  split; apply Hk.
  - intros H. now apply liftsKey_inj in H.
  - apply liftsKey_workoutsKey.
  - intros H. symmetry in H. now apply liftsKey_workoutsKey in H.
  - intros H. now apply workoutsKey_inj in H.
Qed.

Lemma other_partitions_untouched_witness :
  localStorage (session "user_1" (map Perform Sample.sloppyInput)
                  (setLifts "anonymous" [Sample.bench] initial))
    !! liftsKey "anonymous"
  = Some (StoredLifts [Sample.bench])
  /\ localStorage (session "user_1" (map Perform Sample.sloppyInput)
                     (setLifts "anonymous" [Sample.bench] initial))
       !! workoutsKey "anonymous"
     = None.
Proof.
  destruct (other_partitions_untouched "user_1" "anonymous"
              (map Perform Sample.sloppyInput)
              (setLifts "anonymous" [Sample.bench] initial)) as [Hl Hw].
  - discriminate.
  - rewrite Hl, Hw. split; reflexivity.
Defined.

End StoreProps.

(* ===================================================================== *)
(** ** Trimming *)
(* ===================================================================== *)

Module TrimFacts.

Import Spec.

Lemma append_cons (c : ascii) (s t : string) :
  String c s +:+ t = String c (s +:+ t).
Proof. reflexivity. Qed.

Lemma append_nil_l (t : string) : "" +:+ t = t.
Proof. reflexivity. Qed.

Lemma append_assoc (s1 s2 s3 : string) :
  (s1 +:+ s2) +:+ s3 = s1 +:+ (s2 +:+ s3).
Proof.
  induction s1 as [|c s1 IH]; [reflexivity|].
  now rewrite !append_cons, IH.
Qed.

Lemma append_nil_r (s : string) : s +:+ "" = s.
Proof.
  induction s as [|c s IH]; [reflexivity|]. now rewrite append_cons, IH.
Qed.

Lemma rev_app_rev (s1 s2 : string) :
  String.rev_app s1 s2 = String.rev s1 +:+ s2.
Proof.
  revert s2. induction s1 as [|c s1 IH]; intros s2.
  - reflexivity.
  - unfold String.rev. cbn [String.rev_app].
    rewrite (IH (String c s2)), (IH (String c "")).
    now rewrite append_assoc, append_cons, append_nil_l.
Qed.

Lemma rev_cons (c : ascii) (s : string) :
  String.rev (String c s) = String.rev s +:+ String c "".
Proof. unfold String.rev at 1. cbn [String.rev_app]. apply rev_app_rev. Qed.

Lemma rev_append (s1 s2 : string) :
  String.rev (s1 +:+ s2) = String.rev s2 +:+ String.rev s1.
Proof.
  induction s1 as [|c s1 IH].
  - now rewrite append_nil_l, append_nil_r.
  - now rewrite append_cons, !rev_cons, IH, append_assoc.
Qed.

Lemma rev_involutive (s : string) : String.rev (String.rev s) = s.
Proof.
  induction s as [|c s IH]; [reflexivity|].
  rewrite rev_cons, rev_append, IH. reflexivity.
Qed.

Lemma length_append (s t : string) :
  String.length (s +:+ t) = (String.length s + String.length t)%nat.
Proof.
  induction s as [|c s IH]; [reflexivity|].
  rewrite append_cons. simpl. now rewrite IH.
Qed.

Lemma length_rev (s : string) : String.length (String.rev s) = String.length s.
Proof.
  induction s as [|c s IH]; [reflexivity|].
  rewrite rev_cons, length_append, IH. simpl. lia.
Qed.

Lemma length_zero (s : string) : String.length s = 0%nat -> s = "".
Proof. now destruct s. Qed.

Lemma append_empty (s t : string) : s +:+ t = "" -> s = "" /\ t = "".
Proof. destruct s; [now split|discriminate]. Qed.

Lemma dropPrefix_Some (p s r : string) :
  JS.dropPrefix p s = Some r <-> s = p +:+ r.
Proof.
  revert s. induction p as [|a p IH]; intros s; simpl.
  - rewrite append_nil_l. split; [now intros [= ->] | now intros ->].
  - destruct s as [|b s]; [split; discriminate|].
    rewrite append_cons.
    destruct (Ascii.eqb_spec a b) as [->|Hne].
    + rewrite IH. split; [now intros -> | now intros [= ->]].
    + split; [discriminate | intros [= Hab _]; congruence].
Qed.

Lemma dropFirst_Some (ps : list string) (s r : string) :
  JS.dropFirst ps s = Some r -> exists p, In p ps /\ s = p +:+ r.
Proof.
  induction ps as [|p ps IH]; simpl; [discriminate|].
  destruct (JS.dropPrefix p s) as [r'|] eqn:Hp.
  - intros [= ->]. exists p. split; [now left|]. now apply dropPrefix_Some.
  - intros H. destruct (IH H) as (q & Hq & Hs). exists q. split; [now right|assumption].
Qed.

Lemma dropFirst_None (ps : list string) (s : string) :
  JS.dropFirst ps s = None -> forall p r, In p ps -> s <> p +:+ r.
Proof.
  induction ps as [|q ps IH]; simpl; [intros _ p r []|].
  destruct (JS.dropPrefix q s) as [r'|] eqn:Hq; [discriminate|].
  intros H p r [->|Hp] Hs.
  - apply dropPrefix_Some in Hs. congruence.
  - now apply (IH H p r).
Qed.

(** Two prefixes of one string: one is a prefix of the other. *)
Lemma prefix_comparable (p q r r' : string) :
  p +:+ r = q +:+ r' -> exists t, q = p +:+ t \/ p = q +:+ t.
Proof.
  revert q. induction p as [|a p IH]; intros q.
  - intros _. exists q. now left.
  - destruct q as [|b q].
    + intros _. exists (String a p). now right.
    + rewrite !append_cons. intros [= -> H].
      destruct (IH q H) as (t & [->| ->]); exists t; [left|right]; reflexivity.
Qed.

Section Patterns.
Variable ps : list string.
Hypothesis nonEmpty : nonEmptyAll ps = true.
Hypothesis free : prefixFree ps = true.

Lemma pattern_nonEmpty (p : string) : In p ps -> p <> "".
Proof.
  intros Hp ->. unfold nonEmptyAll in nonEmpty.
  rewrite forallb_forall in nonEmpty. specialize (nonEmpty "" Hp).
  discriminate nonEmpty.
Qed.

Lemma pattern_free (p q t : string) : In p ps -> In q ps -> q = p +:+ t -> t = "".
Proof.
  intros Hp Hq Ht. unfold prefixFree in free.
  rewrite forallb_forall in free. specialize (free p Hp).
  rewrite forallb_forall in free. specialize (free q Hq).
  apply dropPrefix_Some in Ht. rewrite Ht in free.
  now apply String.eqb_eq in free.
Qed.

Lemma dropFirst_In (p r : string) :
  In p ps -> JS.dropFirst ps (p +:+ r) = Some r.
Proof.
  intros Hp. destruct (JS.dropFirst ps (p +:+ r)) as [r'|] eqn:Hd.
  - destruct (dropFirst_Some _ _ _ Hd) as (q & Hq & Hs).
    destruct (prefix_comparable _ _ _ _ Hs) as (t & [Ht|Ht]).
    + pose proof (pattern_free p q t Hp Hq Ht) as ->.
      rewrite append_nil_r in Ht. subst q.
      f_equal. symmetry. now apply (inj (String.app p)).
    + pose proof (pattern_free q p t Hq Hp Ht) as ->.
      rewrite append_nil_r in Ht. subst q.
      f_equal. symmetry. now apply (inj (String.app p)).
  - exfalso. now apply (dropFirst_None _ _ Hd p r).
Qed.

Lemma dropFirst_empty : JS.dropFirst ps "" = None.
Proof.
  destruct (JS.dropFirst ps "") as [r|] eqn:Hd; [|reflexivity].
  destruct (dropFirst_Some _ _ _ Hd) as (p & Hp & Hs).
  symmetry in Hs. apply append_empty in Hs as [-> _].
  now apply pattern_nonEmpty in Hp.
Qed.

Lemma skip_fixed (fuel : nat) (s : string) :
  JS.dropFirst ps s = None -> JS.skip ps fuel s = s.
Proof. intros H. destruct fuel; simpl; [reflexivity|]. now rewrite H. Qed.

Lemma skip_madeOf (s : string) :
  madeOf ps s -> forall fuel, (String.length s <= fuel)%nat -> JS.skip ps fuel s = "".
Proof.
  induction 1 as [|p s Hp Hs IH]; intros fuel Hfuel.
  - apply skip_fixed, dropFirst_empty.
  - rewrite length_append in Hfuel.
    assert (0 < String.length p)%nat.
    { destruct p; [now apply pattern_nonEmpty in Hp|simpl; lia]. }
    destruct fuel as [|fuel]; [lia|]. simpl.
    rewrite (dropFirst_In p s Hp). apply IH. lia.
Qed.

Lemma skip_spec (fuel : nat) (s : string) :
  (String.length s <= fuel)%nat ->
  exists pre, madeOf ps pre /\ s = pre +:+ JS.skip ps fuel s
              /\ JS.dropFirst ps (JS.skip ps fuel s) = None.
Proof.
  revert s. induction fuel as [|fuel IH]; intros s Hlen.
  - assert (s = "") as -> by (apply length_zero; lia).
    exists "". split; [constructor|]. split; [reflexivity|]. apply dropFirst_empty.
  - simpl. destruct (JS.dropFirst ps s) as [r|] eqn:Hd.
    + destruct (dropFirst_Some _ _ _ Hd) as (p & Hp & ->).
      rewrite length_append in Hlen.
      assert (0 < String.length p)%nat.
      { destruct p; [now apply pattern_nonEmpty in Hp|simpl; lia]. }
      destruct (IH r) as (pre & Hpre & Hr & Hnone); [lia|].
      exists (p +:+ pre). split; [now constructor|].
      split; [|assumption]. rewrite append_assoc. now rewrite <- Hr.
    + exists "". split; [constructor|]. now split.
Qed.

Lemma madeOf_fixed (s : string) :
  madeOf ps s -> JS.dropFirst ps s = None -> s = "".
Proof.
  intros [|p s' Hp Hs'] Hnone; [reflexivity|].
  now rewrite (dropFirst_In p s' Hp) in Hnone.
Qed.

End Patterns.

Lemma madeOf_app (ps : list string) (s t : string) :
  madeOf ps s -> madeOf ps t -> madeOf ps (s +:+ t).
Proof.
  induction 1 as [|p s Hp Hs IH]; intros Ht; [exact Ht|].
  rewrite append_assoc. constructor; [assumption|]. now apply IH.
Qed.

Lemma madeOf_rev (ps : list string) (s : string) :
  madeOf (map String.rev ps) s -> madeOf ps (String.rev s).
Proof.
  induction 1 as [|p s Hp Hs IH]; [constructor|].
  rewrite rev_append. apply madeOf_app; [exact IH|].
  apply in_map_iff in Hp as (q & <- & Hq). rewrite rev_involutive.
  rewrite <- (append_nil_r q). constructor; [assumption|constructor].
Qed.

Lemma whiteSpace_nonEmpty : nonEmptyAll JS.whiteSpace = true.
Proof. reflexivity. Qed.
Lemma whiteSpace_free : prefixFree JS.whiteSpace = true.
Proof. reflexivity. Qed.
Lemma whiteSpace_rev_nonEmpty : nonEmptyAll (map String.rev JS.whiteSpace) = true.
Proof. reflexivity. Qed.
(** What [trimStart] returns: the string without a white-space prefix, and
    no white space starts what is left. *)
Lemma trimStart_spec (s : string) :
  exists pre, Page.blank pre /\ s = pre +:+ JS.trimStart s
              /\ JS.dropFirst JS.whiteSpace (JS.trimStart s) = None.
Proof.
  unfold JS.trimStart.
  apply (skip_spec _ whiteSpace_nonEmpty). lia.
Qed.

Lemma trimEnd_spec (s : string) :
  exists post, Page.blank post /\ s = JS.trimEnd s +:+ post
               /\ JS.dropFirst (map String.rev JS.whiteSpace)
                    (String.rev (JS.trimEnd s)) = None.
Proof.
  unfold JS.trimEnd.
  destruct (skip_spec _ whiteSpace_rev_nonEmpty
              (String.length s) (String.rev s))
    as (pre & Hpre & Hs & Hnone); [rewrite length_rev; lia|].
  exists (String.rev pre). split; [now apply madeOf_rev|].
  split.
  - rewrite <- rev_append, <- Hs. now rewrite rev_involutive.
  - now rewrite rev_involutive.
Qed.

Lemma trim_blank (s : string) : JS.trim s = "" <-> Page.blank s.
Proof.
  unfold JS.trim. split.
  - intros H.
    destruct (trimStart_spec s) as (pre & Hpre & Hs & Hnone).
    destruct (trimEnd_spec (JS.trimStart s)) as (post & Hpost & Ht & _).
    rewrite H, append_nil_l in Ht.
    rewrite <- Ht in Hpost.
    rewrite (madeOf_fixed _ whiteSpace_free _ Hpost Hnone) in Hs.
    rewrite append_nil_r in Hs. now subst.
  - intros H. unfold JS.trimStart.
    rewrite (skip_madeOf _ whiteSpace_nonEmpty whiteSpace_free s H) by lia.
    reflexivity.
Qed.

Lemma trim_idempotent (s : string) : JS.trim (JS.trim s) = JS.trim s.
Proof.
  unfold JS.trim.
  destruct (trimStart_spec s) as (pre & Hpre & Hs & Hnone).
  set (t := JS.trimStart s) in *.
  destruct (trimEnd_spec t) as (post & Hpost & Ht & Hend).
  set (u := JS.trimEnd t) in *.
  assert (Hu : JS.dropFirst JS.whiteSpace u = None).
  { destruct (JS.dropFirst JS.whiteSpace u) as [r|] eqn:Hd; [|reflexivity].
    destruct (dropFirst_Some _ _ _ Hd) as (p & Hp & Hup).
    rewrite Hup, append_assoc in Ht.
    rewrite Ht, (dropFirst_In _ whiteSpace_free p _ Hp) in Hnone.
    discriminate Hnone. }
  assert (Hstart : JS.trimStart u = u) by now apply skip_fixed.
  rewrite Hstart. unfold JS.trimEnd at 1.
  rewrite (skip_fixed _ _ _ Hend). apply rev_involutive.
Qed.

End TrimFacts.

(* ===================================================================== *)
(** ** Adding, logging and deleting *)
(* ===================================================================== *)

Module OperationProps.

Import Component Spec Page StoreProps.

Local Abbreviation keepOthers := Spec.keepOthers.

Lemma filter_idempotent {A : Type} (p : A -> bool) (l : list A) :
  List.filter p (List.filter p l) = List.filter p l.
Proof.
  induction l as [|x xs IH]; simpl; [reflexivity|].
  destruct (p x) eqn:Hp; simpl; [now rewrite Hp, IH|exact IH].
Qed.

Lemma filter_commute {A : Type} (p q : A -> bool) (l : list A) :
  List.filter p (List.filter q l) = List.filter q (List.filter p l).
Proof.
  induction l as [|x xs IH]; simpl; [reflexivity|].
  destruct (p x) eqn:Hp, (q x) eqn:Hq; simpl; rewrite ?Hp, ?Hq, IH; reflexivity.
Qed.

Lemma NoDup_map_filter {A B : Type} (f : A -> B) (p : A -> bool) (l : list A) :
  List.NoDup (map f l) -> List.NoDup (map f (List.filter p l)).
Proof.
  induction l as [|x xs IH]; simpl; [trivial|].
  intros H. inversion H as [|? ? Hx Hxs]; subst.
  destruct (p x); [|now apply IH].
  simpl. constructor; [|now apply IH].
  intros Hin. apply Hx. apply in_map_iff in Hin as (y & Hy & Hin).
  apply filter_In in Hin as [Hin _]. apply in_map_iff. eauto.
Qed.

Lemma State_eq (s1 s2 : State) :
  lifts s1 = lifts s2 -> workouts s1 = workouts s2 ->
  newLiftName s1 = newLiftName s2 -> selectedLiftId s1 = selectedLiftId s2 ->
  weight s1 = weight s2 -> reps s1 = reps s2 -> sets s1 = sets s2 ->
  difficulty s1 = difficulty s2 -> issyncing s1 = issyncing s2 ->
  localStorage s1 = localStorage s2 -> s1 = s2.
Proof. destruct s1, s2. simpl. now intros -> -> -> -> -> -> -> -> -> ->. Qed.

(** *** Names *)

Lemma truthyS_trim_blank (name : string) :
  JS.truthyS (JS.trim name) = false <-> blank name.
Proof. rewrite SyncBridge.truthyS_false. apply TrimFacts.trim_blank. Qed.

Lemma truthyS_trim_blank' (name : string) :
  ~ blank name -> JS.truthyS (JS.trim name) = true.
Proof.
  intros H. destruct (JS.truthyS (JS.trim name)) eqn:E; [reflexivity|].
  now apply truthyS_trim_blank in E.
Qed.

(** X7. An exercise is added exactly when the typed name has a character
    that is not white space; so after any sequence of operations and
    renders, no exercise has an empty name, and every name is free of
    leading and trailing white space. *)
Theorem exercise_names_are_trimmed (key : string) (events : list Event) :
  List.Forall (fun l => Lift.name l <> "" /\ JS.trim (Lift.name l) = Lift.name l)
              (lifts (session key events initial))
  /\ (forall now nowDate s,
        blank (newLiftName s) <-> addLift key now nowDate s = s)
  /\ (forall now nowDate s,
        ~ blank (newLiftName s) ->
        lifts (addLift key now nowDate s)
        = lifts s ++ [Lift.mk (pretty now) (JS.trim (newLiftName s)) nowDate]).
Proof.
  split; [|split].
  - apply (session_invariant key
             (fun s => List.Forall
                         (fun l => Lift.name l <> ""
                                   /\ JS.trim (Lift.name l) = Lift.name l)
                         (lifts s))).
    + intros s a H. destruct a; simpl; try exact H.
      * unfold addLift. destruct (JS.truthyS _) eqn:Ht; [|exact H].
        simpl. apply List.Forall_app. split; [exact H|].
        constructor; [|constructor]. simpl. split.
        -- now apply SyncBridge.truthyS_true.
        -- apply TrimFacts.trim_idempotent.
      * unfold logWorkout. now destruct (_ && _).
      * now apply Invariants.Forall_filter_keep.
    + intros s H. exact H.
    + constructor.
  - intros now nowDate s. rewrite <- truthyS_trim_blank. unfold addLift.
    destruct (JS.truthyS _); split; try congruence; try reflexivity.
    intros H. apply (f_equal (fun st => length (lifts st))) in H.
    simpl in H. rewrite length_app in H. simpl in H. lia.
  - intros now nowDate s Hb. rewrite <- truthyS_trim_blank in Hb.
    unfold addLift. destruct (JS.truthyS _); [reflexivity|congruence].
Qed.

Lemma exercise_names_are_trimmed_witness :
  lifts (addLift "anonymous" 7 7
           (setNewLiftName (Sample.noBreakSpace +:+ " Back Squat ") initial))
  = [Lift.mk "7" "Back Squat" 7]
  /\ addLift "anonymous" 7 7
       (setNewLiftName (" " +:+ Sample.noBreakSpace) initial)
     = setNewLiftName (" " +:+ Sample.noBreakSpace) initial.
Proof.
  destruct (exercise_names_are_trimmed "anonymous" []) as (_ & Hblank & Hadd).
  split.
  - rewrite Hadd; [reflexivity|].
    intros H. apply TrimFacts.trim_blank in H. discriminate H.
  - apply Hblank. apply TrimFacts.trim_blank. reflexivity.
Defined.

(** *** Identifiers *)

Lemma fresh_identifier (now : Z) (seen : list Z) (ids : list string) :
  (forall i, In i ids -> exists t, In t seen /\ i = pretty t) ->
  ~ In now seen -> ~ In (pretty now) ids.
Proof.
  intros Hsub Hnew Hin. destruct (Hsub _ Hin) as (t & Ht & Heq).
  apply (inj pretty) in Heq. congruence.
Qed.

Lemma filter_all {A : Type} (l : list A) : List.filter (fun _ => true) l = l.
Proof. induction l as [|x xs IH]; simpl; congruence. Qed.

Section Identifiers.
Context {A : Type} (ident : A -> string) (project : State -> list A)
        (clock : Action -> list Z) (key : string).
(** The list starts empty; an operation keeps a part of it, or adds one
    element, in front or at the end, whose identifier is the clock reading
    of the operation; a render permutes it. *)
Hypothesis project_initial : project initial = [].
Hypothesis step_cases : forall s a,
  (exists p, project (step key s a) = List.filter p (project s))
  \/ (exists now x, clock a = [now] /\ ident x = pretty now
                    /\ (project (step key s a) = x :: project s
                        \/ project (step key s a) = project s ++ [x])).
Hypothesis render_perm : forall s,
  Permutation (project (sortWorkoutsInPlace byDateDescending s)) (project s).

Local Abbreviation clocks events :=
  (flat_map clock (flat_map performed events)).

Lemma session_identifiers (events : list Event) :
  (forall i, In i (map ident (project (session key events initial))) ->
             exists t, In t (clocks events) /\ i = pretty t)
  /\ (List.NoDup (clocks events) ->
      List.NoDup (map ident (project (session key events initial)))).
Proof.
  induction events as [|e events [IHsub IHnd]] using rev_ind.
  { simpl. rewrite project_initial. simpl. split; [intros i []|constructor]. }
  unfold session in *. rewrite fold_left_app. cbn [fold_left].
  rewrite !flat_map_app. cbn [flat_map]. rewrite !app_nil_r.
  set (s := fold_left (handle key) events initial) in *.
  destruct e as [a|now]; cbn [handle performed flat_map].
  - rewrite app_nil_r.
    destruct (step_cases s a) as [(p & ->)|(now & x & -> & Hx & Hcase)].
    + split.
      * intros i Hi. apply in_map_iff in Hi as (y & <- & Hy).
        apply filter_In in Hy as [Hy _].
        destruct (IHsub (ident y) (in_map _ _ _ Hy)) as (t & Ht & Heq).
        exists t. split; [apply in_or_app; now left|exact Heq].
      * intros Hnd. apply NoDup_map_filter, IHnd.
        now apply NoDup_app_remove_r in Hnd.
    + assert (Hperm : Permutation (project (step key s a)) (x :: project s)).
      { destruct Hcase as [->| ->]; [reflexivity|].
        symmetry. apply Permutation_cons_append. }
      split.
      * intros i Hi.
        apply (Permutation_in _ (Permutation_map ident Hperm)) in Hi.
        destruct Hi as [<-|Hi].
        -- exists now. split; [apply in_or_app; right; now left|exact Hx].
        -- destruct (IHsub i Hi) as (t & Ht & Heq).
           exists t. split; [apply in_or_app; now left|exact Heq].
      * intros Hnd.
        apply (Permutation_NoDup (Permutation_sym (Permutation_map ident Hperm))).
        simpl. rewrite Hx.
        assert (Hnew : ~ In now (clocks events)).
        { apply NoDup_remove_2 in Hnd. now rewrite app_nil_r in Hnd. }
        constructor.
        -- eapply fresh_identifier; [exact IHsub|exact Hnew].
        -- apply IHnd. now apply NoDup_app_remove_r in Hnd.
  - rewrite renderDashboard_state, app_nil_r.
    pose proof (Permutation_map ident (render_perm s)) as Hperm.
    split.
    + intros i Hi. apply (Permutation_in _ Hperm) in Hi. now apply IHsub.
    + intros Hnd.
      apply (Permutation_NoDup (Permutation_sym Hperm)). now apply IHnd.
Qed.

End Identifiers.

Lemma workouts_step_cases (key : string) (s : State) (a : Action) :
  (exists p, workouts (step key s a) = List.filter p (workouts s))
  \/ (exists now x, logClock a = [now] /\ WorkoutEntry.id x = pretty now
                    /\ (workouts (step key s a) = x :: workouts s
                        \/ workouts (step key s a) = workouts s ++ [x])).
Proof.
  assert (Hsame : workouts s = List.filter (fun _ => true) (workouts s))
    by now rewrite filter_all.
  destruct a; simpl; try (left; eexists; exact Hsame).
  - left. unfold addLift. destruct (JS.truthyS _); eexists; exact Hsame.
  - unfold logWorkout. destruct (_ && _).
    + right. eexists _, _. split; [reflexivity|]. split; [|left; reflexivity].
      reflexivity.
    + left. eexists. exact Hsame.
  - left. eexists. reflexivity.
  - left. eexists. reflexivity.
Qed.

Lemma lifts_step_cases (key : string) (s : State) (a : Action) :
  (exists p, lifts (step key s a) = List.filter p (lifts s))
  \/ (exists now x, liftClock a = [now] /\ Lift.id x = pretty now
                    /\ (lifts (step key s a) = x :: lifts s
                        \/ lifts (step key s a) = lifts s ++ [x])).
Proof.
  assert (Hsame : lifts s = List.filter (fun _ => true) (lifts s))
    by now rewrite filter_all.
  destruct a; simpl; try (left; eexists; exact Hsame).
  - unfold addLift. destruct (JS.truthyS _).
    + right. eexists _, _. split; [reflexivity|]. split; [|right; reflexivity].
      reflexivity.
    + left. eexists. exact Hsame.
  - left. unfold logWorkout. destruct (_ && _); eexists; exact Hsame.
  - left. eexists. reflexivity.
Qed.

(** X8. Identifiers are the clock readings in decimal: when the readings
    of the exercises added are pairwise different, no two exercises of the
    list share an identifier, and likewise for the sessions logged and the
    entries of the workout list, after any sequence of operations and
    renders.  Every identifier in a list is the reading of an operation
    performed. *)
Theorem distinct_readings_distinct_ids (key : string) (events : list Event) :
  (List.NoDup (liftClocks events) ->
   List.NoDup (map Lift.id (lifts (session key events initial))))
  /\ (List.NoDup (logClocks events) ->
      List.NoDup (map WorkoutEntry.id (workouts (session key events initial))))
  /\ (forall l, In l (lifts (session key events initial)) ->
                exists t, In t (liftClocks events) /\ Lift.id l = pretty t)
  /\ (forall w, In w (workouts (session key events initial)) ->
                exists t, In t (logClocks events)
                          /\ WorkoutEntry.id w = pretty t).
Proof.
  destruct (session_identifiers Lift.id lifts liftClock key eq_refl
              (lifts_step_cases key) (fun s => Permutation_refl _) events)
    as [Hlsub Hlnd].
  destruct (session_identifiers WorkoutEntry.id workouts logClock key eq_refl
              (workouts_step_cases key)
              (fun s => SortFacts.sort_perm byDateDescending (workouts s))
              events)
    as [Hwsub Hwnd].
  split; [exact Hlnd|]. split; [exact Hwnd|].
  split.
  - intros l Hl. apply Hlsub. now apply in_map.
  - intros w Hw. apply Hwsub. now apply in_map.
Qed.

Lemma distinct_readings_distinct_ids_witness :
  List.NoDup
    (map WorkoutEntry.id
         (workouts (session "anonymous"
                      (map Perform Sample.clockSetBack ++ [RenderDashboard 30])
                      initial))).
Proof.
  apply (distinct_readings_distinct_ids "anonymous"
           (map Perform Sample.clockSetBack ++ [RenderDashboard 30])).
  repeat constructor; simpl; intuition discriminate.
Defined.

(** X9. Where the clock readings of the sessions logged are pairwise
    different, deleting an entry of the list by its identifier removes that
    entry and no other: the list is the old list without it.  The same holds
    for deleting an exercise when the readings of the exercises added are
    pairwise different. *)
Theorem delete_removes_one (key : string) (events : list Event) :
  (List.NoDup (logClocks events) ->
   forall e, In e (workouts (session key events initial)) ->
     exists l1 l2,
       workouts (session key events initial) = l1 ++ e :: l2
       /\ workouts (deleteWorkout key (WorkoutEntry.id e)
                                  (session key events initial))
          = l1 ++ l2)
  /\ (List.NoDup (liftClocks events) ->
      forall e, In e (lifts (session key events initial)) ->
        exists l1 l2,
          lifts (session key events initial) = l1 ++ e :: l2
          /\ lifts (deleteLift key (Lift.id e) (session key events initial))
             = l1 ++ l2).
Proof.
  destruct (session_identifiers Lift.id lifts liftClock key eq_refl
              (lifts_step_cases key) (fun s => Permutation_refl _) events)
    as [_ Hlnd].
  destruct (session_identifiers WorkoutEntry.id workouts logClock key eq_refl
              (workouts_step_cases key)
              (fun s => SortFacts.sort_perm byDateDescending (workouts s))
              events)
    as [_ Hwnd].
  split.
  - intros Hnd e He.
    apply (RecordStore.keepOthers_unique WorkoutEntry.id);
      [now apply Hwnd|exact He|reflexivity].
  - intros Hnd e He.
    apply (RecordStore.keepOthers_unique Lift.id);
      [now apply Hlnd|exact He|reflexivity].
Qed.

Lemma delete_removes_one_witness :
  exists l1 l2,
    workouts (session "anonymous" (map Perform Sample.clockSetBack) initial)
    = l1 ++ WorkoutEntry.mk "20" "1" (JS.parseFloat "105") (JS.parseInt "5")
                            (JS.parseInt "3") D3 20
            :: l2
    /\ workouts (deleteWorkout "anonymous" "20"
                   (session "anonymous" (map Perform Sample.clockSetBack)
                            initial))
       = l1 ++ l2.
Proof.
  destruct (delete_removes_one "anonymous" (map Perform Sample.clockSetBack))
    as [Hw _].
  apply (Hw ltac:(repeat constructor; simpl; intuition discriminate)
            (WorkoutEntry.mk "20" "1" (JS.parseFloat "105") (JS.parseInt "5")
                             (JS.parseInt "3") D3 20)).
  vm_compute. auto.
Defined.

(** *** Exercise names by identifier *)

Lemma find_none_iff {A : Type} (p : A -> bool) (l : list A) :
  List.find p l = None <-> forall x, In x l -> p x = false.
Proof.
  split; [apply find_none|].
  induction l as [|x xs IH]; simpl; intros H; [reflexivity|].
  rewrite (H x) by auto. apply IH. intros y Hy. apply H. auto.
Qed.

Lemma getLiftName_absent (liftId : string) (s : State) :
  (forall l, In l (lifts s) -> Lift.id l <> liftId) ->
  Page.getLiftName liftId s = "Unknown Lift".
Proof.
  intros H. unfold Page.getLiftName.
  rewrite (proj2 (find_none_iff _ _)); [reflexivity|].
  intros l Hl. apply String.eqb_neq. now apply H.
Qed.

Lemma find_filter_other {A : Type} (p q : A -> bool) (l : list A) :
  (forall x, p x = true -> q x = true) ->
  List.find p (List.filter q l) = List.find p l.
Proof.
  intros Hpq. induction l as [|x xs IH]; simpl; [reflexivity|].
  destruct (q x) eqn:Hq; simpl.
  - now rewrite IH.
  - destruct (p x) eqn:Hp; [|exact IH].
    apply Hpq in Hp. congruence.
Qed.

Lemma find_app_absent {A : Type} (p : A -> bool) (l1 l2 : list A) :
  (forall x, In x l1 -> p x = false) ->
  List.find p (l1 ++ l2) = List.find p l2.
Proof.
  induction l1 as [|x xs IH]; simpl; intros H; [reflexivity|].
  rewrite (H x) by auto. apply IH. intros y Hy. apply H. auto.
Qed.

Lemma find_app_present {A : Type} (p : A -> bool) (l1 l2 : list A) (x : A) :
  List.find p l1 = Some x -> List.find p (l1 ++ l2) = Some x.
Proof.
  induction l1 as [|y ys IH]; simpl; [discriminate|].
  destruct (p y); [trivial|exact IH].
Qed.

(** X10. The name shown for an exercise identifier is "Unknown Lift" when
    no exercise of the list has it, in particular right after that exercise
    was deleted; deleting or adding another exercise does not change the
    name shown for an identifier already in the list; and a newly added
    exercise whose identifier is not yet in the list is shown under its
    trimmed name. *)
Theorem names_follow_the_exercise_list (key liftId : string) (s : State) :
  ((forall l, In l (lifts s) -> Lift.id l <> liftId) ->
   Page.getLiftName liftId s = "Unknown Lift")
  /\ Page.getLiftName liftId (deleteLift key liftId s) = "Unknown Lift"
  /\ (forall other, other <> liftId ->
        Page.getLiftName liftId (deleteLift key other s)
        = Page.getLiftName liftId s)
  /\ (forall now nowDate,
        (exists l, In l (lifts s) /\ Lift.id l = liftId) ->
        Page.getLiftName liftId (addLift key now nowDate s)
        = Page.getLiftName liftId s)
  /\ (forall now nowDate,
        ~ blank (newLiftName s) ->
        (forall l, In l (lifts s) -> Lift.id l <> pretty now) ->
        Page.getLiftName (pretty now) (addLift key now nowDate s)
        = JS.trim (newLiftName s)).
Proof.
  split; [apply getLiftName_absent|].
  split.
  { apply getLiftName_absent. simpl. intros l Hl.
    apply (RecordStore.keepOthers_In Lift.id) in Hl. tauto. }
  split.
  { intros other Hne. unfold Page.getLiftName. simpl.
    rewrite find_filter_other; [reflexivity|].
    intros l Hl. apply String.eqb_eq in Hl. apply negb_true_iff.
    apply String.eqb_neq. congruence. }
  split.
  { intros now nowDate (l & Hl & Hid). unfold Page.getLiftName, addLift.
    destruct (JS.truthyS (JS.trim (newLiftName s))); [|reflexivity].
    simpl.
    destruct (List.find (fun lift => String.eqb (Lift.id lift) liftId) (lifts s))
      as [found|] eqn:Hfind.
    - now rewrite (find_app_present _ _ _ _ Hfind).
    - exfalso. pose proof (find_none _ _ Hfind l Hl) as Hno.
      simpl in Hno. apply String.eqb_neq in Hno. congruence. }
  intros now nowDate Hb Hfresh.
  apply truthyS_trim_blank' in Hb.
  unfold Page.getLiftName, addLift. rewrite Hb.
  cbn [lifts setNewLiftName setLifts].
  rewrite find_app_absent.
  - cbn [List.find Lift.id]. rewrite String.eqb_refl.
    cbn [Lift.name]. now rewrite Hb.
  - intros l Hl. apply String.eqb_neq. now apply Hfresh.
Qed.

Lemma names_follow_the_exercise_list_witness :
  Page.getLiftName "3" Sample.twoLifts = "Unknown Lift"
  /\ Page.getLiftName "2" (deleteLift "anonymous" "1" Sample.twoLifts)
     = "Bench Press"
  /\ Page.getLiftName "3"
       (addLift "anonymous" 3 3 (setNewLiftName " Row " Sample.twoLifts))
     = "Row".
Proof.
  destruct (names_follow_the_exercise_list "anonymous" "3" Sample.twoLifts)
    as (Habsent & _).
  destruct (names_follow_the_exercise_list "anonymous" "2" Sample.twoLifts)
    as (_ & _ & Hother & _).
  destruct (names_follow_the_exercise_list "anonymous" "3"
              (setNewLiftName " Row " Sample.twoLifts))
    as (_ & _ & _ & _ & Hnew).
  split; [|split].
  - apply Habsent. simpl. intuition (subst; discriminate).
  - rewrite Hother by discriminate. reflexivity.
  - refine (Hnew 3 3 _ _).
    + intros H. apply TrimFacts.trim_blank in H. discriminate H.
    + simpl. intuition (subst; discriminate).
Defined.

(** X11. Deleting the selected exercise leaves it selected, so the form
    can still be submitted for it: the entry created then belongs to no
    exercise of the list and is shown as "Unknown Lift". *)
Theorem deleted_exercise_stays_selected (key : string) (now nowDate : Z)
    (s : State) :
  complete s = true ->
  let s' := logWorkout key now nowDate (deleteLift key (selectedLiftId s) s) in
  (exists e rest,
      workouts s' = e :: rest
      /\ WorkoutEntry.liftId e = selectedLiftId s
      /\ WorkoutEntry.id e = pretty now)
  /\ (forall l, In l (lifts s') -> Lift.id l <> selectedLiftId s)
  /\ Page.getLiftName (selectedLiftId s) s' = "Unknown Lift".
Proof.
  intros Hc. cbv zeta.
  assert (Hc' : complete (deleteLift key (selectedLiftId s) s) = true)
    by exact Hc.
  assert (Hlifts : lifts (logWorkout key now nowDate
                            (deleteLift key (selectedLiftId s) s))
                   = Spec.keepOthers Lift.id (selectedLiftId s) (lifts s)).
  { unfold logWorkout. unfold complete in Hc'. now rewrite Hc'. }
  split; [|split].
  - rewrite (LogForm.logWorkout_accepts _ _ _ _ Hc').
    eexists _, _. split; [reflexivity|]. split; reflexivity.
  - intros l. rewrite Hlifts. intros Hl.
    apply (RecordStore.keepOthers_In Lift.id) in Hl. tauto.
  - apply getLiftName_absent. intros l. rewrite Hlifts. intros Hl.
    apply (RecordStore.keepOthers_In Lift.id) in Hl. tauto.
Qed.

Lemma deleted_exercise_stays_selected_witness :
  (exists e rest,
      workouts (logWorkout "anonymous" 30 30
                  (deleteLift "anonymous" "1"
                     (setSets "3" (setReps "5" (setWeight "100"
                        (setSelectedLiftId "1" Sample.twoLifts))))))
      = e :: rest
      /\ WorkoutEntry.liftId e = "1" /\ WorkoutEntry.id e = "30")
  /\ (forall l,
        In l (lifts (logWorkout "anonymous" 30 30
                       (deleteLift "anonymous" "1"
                          (setSets "3" (setReps "5" (setWeight "100"
                             (setSelectedLiftId "1" Sample.twoLifts))))))) ->
        Lift.id l <> "1")
  /\ Page.getLiftName "1"
       (logWorkout "anonymous" 30 30
          (deleteLift "anonymous" "1"
             (setSets "3" (setReps "5" (setWeight "100"
                (setSelectedLiftId "1" Sample.twoLifts))))))
     = "Unknown Lift".
Proof.
  apply (deleted_exercise_stays_selected "anonymous" 30 30
           (setSets "3" (setReps "5" (setWeight "100"
              (setSelectedLiftId "1" Sample.twoLifts))))).
  reflexivity.
Defined.

(** *** How deletions compose *)

Ltac same_state :=
  apply State_eq; simpl; try reflexivity;
  rewrite ?filter_idempotent; try reflexivity;
  try apply filter_commute;
  try (apply map_eq; intros k; rewrite ?lookup_insert;
       repeat case_decide; try reflexivity;
       rewrite ?filter_idempotent; try reflexivity;
       f_equal; f_equal; apply filter_commute).

(** X12. Deleting the same exercise, or the same workout, twice is the
    same as deleting it once, and deletions can be performed in any order:
    the resulting state, stored copies included, is the same. *)
Theorem deletions_compose (key a b : string) (s : State) :
  deleteLift key a (deleteLift key a s) = deleteLift key a s
  /\ deleteWorkout key a (deleteWorkout key a s) = deleteWorkout key a s
  /\ deleteLift key a (deleteLift key b s)
     = deleteLift key b (deleteLift key a s)
  /\ deleteWorkout key a (deleteWorkout key b s)
     = deleteWorkout key b (deleteWorkout key a s)
  /\ deleteLift key a (deleteWorkout key b s)
     = deleteWorkout key b (deleteLift key a s).
Proof.
  pose proof (liftsKey_workoutsKey key key) as Hne.
  unfold deleteLift, deleteWorkout.
  split; [same_state|]. split; [same_state|]. split; [same_state|].
  split; same_state.
Qed.

(** X13. Adding an exercise and then deleting it gives back the two lists
    as they were, when its identifier was not in use by an exercise or an
    entry; logging a session and then deleting it gives back the two lists
    as they were, when its identifier was not in use by an entry. *)
Theorem add_then_delete_restores (key : string) (now nowDate : Z) (s : State) :
  ((forall l, In l (lifts s) -> Lift.id l <> pretty now) ->
   (forall w, In w (workouts s) -> WorkoutEntry.liftId w <> pretty now) ->
   lifts (deleteLift key (pretty now) (addLift key now nowDate s)) = lifts s
   /\ workouts (deleteLift key (pretty now) (addLift key now nowDate s))
      = workouts s)
  /\ ((forall w, In w (workouts s) -> WorkoutEntry.id w <> pretty now) ->
      lifts (deleteWorkout key (pretty now) (logWorkout key now nowDate s))
      = lifts s
      /\ workouts (deleteWorkout key (pretty now)
                                 (logWorkout key now nowDate s))
         = workouts s).
Proof.
  split.
  - intros Hl Hw.
    assert (Hwk : Spec.keepOthers WorkoutEntry.liftId (pretty now) (workouts s)
                  = workouts s)
      by now apply RecordStore.keepOthers_all.
    assert (Hlk : Spec.keepOthers Lift.id (pretty now) (lifts s) = lifts s)
      by now apply RecordStore.keepOthers_all.
    unfold deleteLift, addLift.
    destruct (JS.truthyS (JS.trim (newLiftName s))); simpl.
    + split; [|exact Hwk].
      rewrite List.filter_app. simpl. rewrite String.eqb_refl. simpl.
      rewrite app_nil_r. exact Hlk.
    + split; [exact Hlk|exact Hwk].
  - intros Hw.
    assert (Hwk : Spec.keepOthers WorkoutEntry.id (pretty now) (workouts s)
                  = workouts s)
      by now apply RecordStore.keepOthers_all.
    unfold deleteWorkout, logWorkout.
    destruct (_ && _); simpl.
    + split; [reflexivity|]. rewrite String.eqb_refl. simpl. exact Hwk.
    + split; [reflexivity|exact Hwk].
Qed.

Lemma add_then_delete_restores_witness :
  lifts (deleteLift "anonymous" "3"
           (addLift "anonymous" 3 3 (setNewLiftName "Row" Sample.twoLifts)))
  = [Sample.squat; Sample.bench]
  /\ workouts (deleteWorkout "anonymous" "30"
                 (logWorkout "anonymous" 30 30
                    (setSets "3" (setReps "5" (setWeight "100"
                       (setSelectedLiftId "1" Sample.twoLifts))))))
     = workouts Sample.twoLifts.
Proof.
  destruct (add_then_delete_restores "anonymous" 3 3
              (setNewLiftName "Row" Sample.twoLifts)) as [Hadd _].
  destruct (add_then_delete_restores "anonymous" 30 30
              (setSets "3" (setReps "5" (setWeight "100"
                 (setSelectedLiftId "1" Sample.twoLifts))))) as [_ Hlog].
  split.
  - apply Hadd; simpl; intuition (subst; discriminate).
  - apply Hlog; simpl; intuition (subst; discriminate).
Defined.

End OperationProps.

(* ===================================================================== *)
(** ** More of the metrics *)
(* ===================================================================== *)

Module MetricsProps.

Import Component Spec Page NumberFacts.

(** *** The last workout *)

Lemma maxOf_spec (others : list Z) (first : Z) :
  In (maxOf first others) (first :: others)
  /\ forall x, In x (first :: others) -> x <= maxOf first others.
Proof.
  unfold maxOf. revert first.
  induction others as [|y ys IH]; intros first; simpl.
  - split; [now left|]. intros x [<-|[]]. lia.
  - destruct (IH (Z.max first y)) as [Hin Hmax]. split.
    + destruct Hin as [Heq|Hin]; [|now right; right].
      rewrite <- Heq. destruct (Z.max_spec first y) as [[_ ->]|[_ ->]]; auto.
    + intros x [Hx|[Hx|Hx]].
      * specialize (Hmax (Z.max first y) (or_introl eq_refl)). lia.
      * specialize (Hmax (Z.max first y) (or_introl eq_refl)). lia.
      * apply Hmax. now right.
Qed.

Lemma lastWorkoutDate_spec (now : Z) (s : State) :
  match lastWorkoutDate (fst (getMetrics now s)) with
  | None => workouts s = []
  | Some d =>
      (exists w, In w (workouts s) /\ WorkoutEntry.date w = d)
      /\ forall w, In w (workouts s) -> WorkoutEntry.date w <= d
  end.
Proof.
  simpl. destruct (workouts s) as [|w ws]; simpl; [reflexivity|].
  destruct (maxOf_spec (map WorkoutEntry.date ws) (WorkoutEntry.date w))
    as [Hin Hmax].
  split.
  - destruct Hin as [Heq|Hin]; [exists w; auto|].
    apply in_map_iff in Hin as (w' & Hw' & Hin). exists w'. auto.
  - intros w' [<-|Hw']; apply Hmax; [now left|right; now apply in_map].
Qed.

Lemma sorted_newest_first (ws : list WorkoutEntry.t) :
  StronglySorted notEarlier (JS.sort byDateDescending ws).
Proof.
  apply (MetricsEngine.StronglySorted_weaken (keyLe negDate)).
  - unfold keyLe, negDate, notEarlier. intros a b. lia.
  - apply SortFacts.sort_sorted, MetricsEngine.byDateDescending_key.
Qed.

(** X14. The last workout date is absent exactly when there is no entry;
    otherwise it is the date of an entry and no entry is dated later, and it
    is the date of the first of the recent entries. *)
Theorem last_workout_is_latest (now : Z) (s : State) :
  (lastWorkoutDate (fst (getMetrics now s)) = None <-> workouts s = [])
  /\ (forall d, lastWorkoutDate (fst (getMetrics now s)) = Some d ->
        (exists w, In w (workouts s) /\ WorkoutEntry.date w = d)
        /\ forall w, In w (workouts s) -> WorkoutEntry.date w <= d)
  /\ lastWorkoutDate (fst (getMetrics now s))
     = option_map WorkoutEntry.date (List.head (fst (getRecentWorkouts s))).
Proof.
  pose proof (lastWorkoutDate_spec now s) as Hspec.
  remember (lastWorkoutDate (fst (getMetrics now s))) as last eqn:Hlast.
  clear Hlast.
  split; [|split].
  - destruct last.
    + split; [discriminate|]. intros Hws.
      destruct Hspec as [(w & Hw & _) _]. rewrite Hws in Hw. destruct Hw.
    + tauto.
  - intros d ->. exact Hspec.
  - unfold getRecentWorkouts, JS.slice0. cbn [fst sortWorkoutsInPlace workouts].
    pose proof (SortFacts.sort_perm byDateDescending (workouts s)) as Hperm.
    pose proof (sorted_newest_first (workouts s)) as Hsorted.
    destruct (JS.sort byDateDescending (workouts s)) as [|top rest] eqn:Hord.
    + apply Permutation_nil in Hperm.
      destruct last; [|reflexivity].
      destruct Hspec as [(w & Hw & _) _]. rewrite Hperm in Hw. destruct Hw.
    + simpl.
      destruct last as [d|].
      * destruct Hspec as [(w & Hw & Hd) Hmax]. f_equal.
        assert (Htop : In top (workouts s)).
        { apply (Permutation_in _ Hperm). now left. }
        assert (Hw' : In w (top :: rest)).
        { apply (Permutation_in _ (Permutation_sym Hperm)), Hw. }
        apply Z.le_antisymm; [|now apply Hmax].
        rewrite <- Hd. destruct Hw' as [<-|Hw']; [lia|].
        inversion Hsorted as [|? ? _ Hall]; subst.
        rewrite List.Forall_forall in Hall. now apply Hall.
      * rewrite Hspec in Hperm. symmetry in Hperm.
        now apply Permutation_nil in Hperm.
Qed.

(** X15. The days since the last workout are absent exactly when there is
    no entry; otherwise they are the whole number of 24-hour periods between
    the last workout date and now, rounded down: not negative exactly when
    the last workout is not dated after now, and 0 exactly during the 24
    hours that follow it. *)
Theorem days_since_rounds_down (now : Z) (s : State) :
  (daysSinceLastWorkout (fst (getMetrics now s)) = None <-> workouts s = [])
  /\ (forall last,
        lastWorkoutDate (fst (getMetrics now s)) = Some last ->
        exists days,
          daysSinceLastWorkout (fst (getMetrics now s)) = Some days
          /\ days * msPerDay <= now - last < (days + 1) * msPerDay
          /\ (0 <= days <-> last <= now)
          /\ (days = 0 <-> last <= now < last + msPerDay)).
Proof.
  split.
  - simpl. destruct (workouts s); simpl; split; congruence.
  - intros last Hlast. exists ((now - last) / msPerDay).
    split.
    + simpl in *. destruct (map WorkoutEntry.date (workouts s)); [discriminate|].
      injection Hlast as <-. reflexivity.
    + unfold msPerDay.
      pose proof (Z.div_mod (now - last) (1000 * 60 * 60 * 24) ltac:(lia)).
      pose proof (Z.mod_pos_bound (now - last) (1000 * 60 * 60 * 24) ltac:(lia)).
      lia.
Qed.

(** *** Order of the workout list *)

Section SortedByKey.
Context {A : Type} (key : A -> Z) (comparefn : A -> A -> Z).
Hypothesis comparefn_key : forall a b, comparefn a b = key a - key b.

Local Abbreviation byKey := (Spec.keyLe key).
Local Abbreviation ofKey := (Spec.hasKey key).

(** Sorting a sorted list changes nothing. *)
Lemma sort_sorted_same (l : list A) :
  StronglySorted byKey l -> JS.sort comparefn l = l.
Proof.
  induction 1 as [|x xs Hs IH Hx]; simpl; [reflexivity|].
  rewrite IH. destruct xs as [|y ys]; [reflexivity|]. simpl.
  rewrite comparefn_key. inversion Hx as [|? ? Hxy _]; subst.
  unfold keyLe in Hxy.
  destruct (Z.leb_spec (key x - key y) 0); [reflexivity|lia].
Qed.

Lemma filter_own_key (a : A) (l : list A) :
  List.filter (ofKey (key a)) (a :: l) = a :: List.filter (ofKey (key a)) l.
Proof. cbn [List.filter]. unfold hasKey at 1. now rewrite Z.eqb_refl. Qed.

Lemma same_keys_member (a : A) (l l' : list A) :
  (forall d, List.filter (ofKey d) l' = List.filter (ofKey d) (a :: l)) ->
  exists b, In b l' /\ key b = key a.
Proof.
  intros H. specialize (H (key a)). rewrite filter_own_key in H.
  assert (Ha : In a (List.filter (ofKey (key a)) l'))
    by (rewrite H; now left).
  apply filter_In in Ha as [Ha _]. eauto.
Qed.

(** Two sorted lists with the same elements of each key, in the same
    order, are the same list. *)
Lemma sorted_same_keys (l1 l2 : list A) :
  StronglySorted byKey l1 -> StronglySorted byKey l2 ->
  (forall d, List.filter (ofKey d) l1 = List.filter (ofKey d) l2) ->
  l1 = l2.
Proof.
  intros Hs1. revert l2.
  induction Hs1 as [|x xs Hs1 IH Hx]; intros l2 Hs2 Hk.
  - destruct l2 as [|y ys]; [reflexivity|].
    destruct (same_keys_member y ys [] Hk) as (b & [] & _).
  - destruct Hs2 as [|y ys Hs2 Hy].
    + destruct (same_keys_member x xs [] (fun d => eq_sym (Hk d)))
        as (b & [] & _).
    + rewrite List.Forall_forall in Hx, Hy. unfold keyLe in Hx, Hy.
      assert (Hxy : key x = key y).
      { destruct (same_keys_member x xs (y :: ys) (fun d => eq_sym (Hk d)))
          as (b & Hb & Hbx).
        destruct (same_keys_member y ys (x :: xs) Hk) as (c & Hc & Hcy).
        assert (key y <= key x).
        { rewrite <- Hbx. destruct Hb as [<-|Hb]; [lia|]. now apply Hy. }
        assert (key x <= key y).
        { rewrite <- Hcy. destruct Hc as [<-|Hc]; [lia|]. now apply Hx. }
        lia. }
      assert (Heq : x = y).
      { pose proof (Hk (key x)) as Hkx.
        rewrite filter_own_key in Hkx. rewrite Hxy in Hkx at 2.
        rewrite filter_own_key in Hkx. congruence. }
      subst y. f_equal. apply IH; [exact Hs2|].
      intros d. specialize (Hk d). cbn [List.filter] in Hk.
      destruct (ofKey d x); congruence.
Qed.

Lemma sort_same_keys (l1 l2 : list A) :
  (forall d, List.filter (ofKey d) l1 = List.filter (ofKey d) l2) ->
  JS.sort comparefn l1 = JS.sort comparefn l2.
Proof.
  intros Hk. apply sorted_same_keys.
  - now apply SortFacts.sort_sorted.
  - now apply SortFacts.sort_sorted.
  - intros d.
    now rewrite !(SortFacts.sort_hasKey key comparefn comparefn_key).
Qed.

End SortedByKey.

Lemma byDateAscending_key (a b : WorkoutEntry.t) :
  byDateAscending a b = WorkoutEntry.date a - WorkoutEntry.date b.
Proof. reflexivity. Qed.

Lemma notEarlier_negDate (l : list WorkoutEntry.t) :
  StronglySorted notEarlier l <-> StronglySorted (keyLe negDate) l.
Proof.
  split; apply MetricsEngine.StronglySorted_weaken;
    unfold keyLe, negDate, notEarlier; intros a b; lia.
Qed.

Lemma onDate_sorted (d : Z) (ws : list WorkoutEntry.t) :
  onDate d (JS.sort byDateDescending ws) = onDate d ws.
Proof.
  rewrite !MetricsEngine.onDate_negDate.
  apply SortFacts.sort_hasKey, MetricsEngine.byDateDescending_key.
Qed.

Lemma sort_newest_first_same (ws : list WorkoutEntry.t) :
  StronglySorted notEarlier ws -> JS.sort byDateDescending ws = ws.
Proof.
  intros Hws. apply (sort_sorted_same negDate).
  - apply MetricsEngine.byDateDescending_key.
  - now apply notEarlier_negDate.
Qed.

(** X16. [getRecentWorkouts] leaves the state as it was exactly when the
    workout list is already in descending order of date; whatever the list,
    a second call returns what the first returned and changes nothing
    more. *)
Theorem recent_reorders_once (s : State) :
  (snd (getRecentWorkouts s) = s <-> StronglySorted notEarlier (workouts s))
  /\ getRecentWorkouts (snd (getRecentWorkouts s)) = getRecentWorkouts s.
Proof.
  split.
  - split.
    + intros H. apply (f_equal workouts) in H. simpl in H.
      rewrite <- H. apply sorted_newest_first.
    + intros H. unfold getRecentWorkouts, sortWorkoutsInPlace. simpl.
      rewrite (sort_newest_first_same _ H). now destruct s.
  - unfold getRecentWorkouts, sortWorkoutsInPlace. simpl.
    now rewrite (sort_newest_first_same _ (sorted_newest_first (workouts s))).
Qed.

(** X17. The reordering done by [getRecentWorkouts] never changes a
    progression: more generally, two workout lists with the same entries of
    each date, in the same order, give the same progression for every
    exercise. *)
Theorem progression_ignores_reordering (liftId : string) (s : State) :
  fst (getExerciseProgression liftId (snd (getRecentWorkouts s)))
  = fst (getExerciseProgression liftId s)
  /\ (forall s',
        (forall d, onDate d (workouts s') = onDate d (workouts s)) ->
        fst (getExerciseProgression liftId s')
        = fst (getExerciseProgression liftId s)).
Proof.
  assert (Hgen : forall s',
            (forall d, onDate d (workouts s') = onDate d (workouts s)) ->
            fst (getExerciseProgression liftId s')
            = fst (getExerciseProgression liftId s)).
  { intros s' Hd. rewrite !MetricsEngine.progression_of_sorted.
    rewrite (sort_same_keys WorkoutEntry.date byDateAscending
               byDateAscending_key
               (entriesOf liftId (workouts s')) (entriesOf liftId (workouts s)));
      [reflexivity|].
    intros d. unfold entriesOf.
    rewrite !(OperationProps.filter_commute (hasKey WorkoutEntry.date d)).
    f_equal. apply Hd. }
  split; [|exact Hgen].
  apply Hgen. intros d. simpl. apply onDate_sorted.
Qed.

Lemma StronglySorted_filter {A : Type} (R : A -> A -> Prop) (p : A -> bool)
    (l : list A) :
  StronglySorted R l -> StronglySorted R (List.filter p l).
Proof.
  induction 1 as [|x xs Hs IH Hx]; simpl; [constructor|].
  destruct (p x); [|exact IH].
  constructor; [exact IH|]. now apply Invariants.Forall_filter_keep.
Qed.

Lemma steady_clock_sorted (key : string) (events : list Event) :
  StronglySorted Z.le (logDates events) ->
  StronglySorted notEarlier (workouts (session key events initial))
  /\ forall w, In w (workouts (session key events initial)) ->
               In (WorkoutEntry.date w) (logDates events).
Proof.
  induction events as [|e events IH] using rev_ind; intros Hclock.
  { split; [constructor|intros w []]. }
  unfold logDates in *. rewrite !flat_map_app in *. cbn [flat_map] in *.
  rewrite !app_nil_r in *.
  apply MetricsEngine.StronglySorted_app in Hclock as [Hclock Hcross].
  destruct (IH Hclock) as [Hsorted Hdates]. clear IH.
  unfold session in *. rewrite fold_left_app. cbn [fold_left].
  set (s := fold_left (handle key) events initial) in *.
  assert (Hkeep : forall s', workouts s' = workouts s ->
            StronglySorted notEarlier (workouts s')
            /\ forall w, In w (workouts s') ->
                 In (WorkoutEntry.date w)
                    (flat_map logDate (flat_map performed events)
                     ++ flat_map logDate (performed e))).
  { intros s' ->. split; [exact Hsorted|].
    intros w Hw. apply in_or_app. left. now apply Hdates. }
  assert (Hfilter : forall s' p, workouts s' = List.filter p (workouts s) ->
            StronglySorted notEarlier (workouts s')
            /\ forall w, In w (workouts s') ->
                 In (WorkoutEntry.date w)
                    (flat_map logDate (flat_map performed events)
                     ++ flat_map logDate (performed e))).
  { intros s' p ->. split; [now apply StronglySorted_filter|].
    intros w Hw. apply filter_In in Hw as [Hw _].
    apply in_or_app. left. now apply Hdates. }
  destruct e as [a|now]; cbn [handle].
  - destruct a; try (apply Hkeep; reflexivity).
    + apply Hkeep. cbn [step]. unfold addLift.
      now destruct (JS.truthyS _).
    + cbn [step]. destruct (complete s) eqn:Hc.
      * rewrite (LogForm.logWorkout_accepts key now nowDate s Hc). split.
        -- constructor; [exact Hsorted|].
           apply List.Forall_forall. intros w Hw. unfold notEarlier. simpl.
           apply Hcross; [now apply Hdates|]. simpl. now left.
        -- intros w [<-|Hw]; apply in_or_app.
           ++ right. simpl. now left.
           ++ left. now apply Hdates.
      * apply Hkeep. now rewrite (LogForm.logWorkout_rejects key now nowDate s Hc).
    + eapply Hfilter. reflexivity.
    + eapply Hfilter. reflexivity.
  - rewrite StoreProps.renderDashboard_state. apply Hkeep. simpl.
    apply (sort_sorted_same negDate).
    + apply MetricsEngine.byDateDescending_key.
    + now apply notEarlier_negDate.
Qed.

(** X18. As long as the dates given to the sessions logged never
    decrease, the workout list is in descending order of date after any
    sequence of operations and renders, and rendering the dashboard leaves
    the state exactly as it was. *)
Theorem steady_clock_never_reorders (key : string) (events : list Event)
    (now : Z) :
  StronglySorted Z.le (logDates events) ->
  StronglySorted notEarlier (workouts (session key events initial))
  /\ renderDashboard now (session key events initial)
     = session key events initial.
Proof.
  intros Hclock.
  destruct (steady_clock_sorted key events Hclock) as [Hsorted _].
  split; [exact Hsorted|].
  rewrite StoreProps.renderDashboard_state.
  unfold sortWorkoutsInPlace. rewrite (sort_newest_first_same _ Hsorted).
  now destruct (session key events initial).
Qed.

Lemma steady_clock_never_reorders_witness :
  logDates steadySession = [10; 10; 20]
  /\ map WorkoutEntry.id (workouts (session "anonymous" steadySession initial))
     = ["20"; "11"]
  /\ StronglySorted notEarlier
       (workouts (session "anonymous" steadySession initial))
  /\ renderDashboard 31 (session "anonymous" steadySession initial)
     = session "anonymous" steadySession initial.
Proof.
  split; [reflexivity|]. split; [reflexivity|].
  apply (steady_clock_never_reorders "anonymous" steadySession 31).
  repeat (constructor; try (vm_compute; discriminate)).
Defined.

(** *** Metrics and the order of the list *)

Lemma rationalSum_perm (l1 l2 : list WorkoutEntry.t) :
  Permutation l1 l2 -> rationalSum l1 = rationalSum l2.
Proof.
  induction 1 as [|x l1 l2 _ IH|x y l|l1 l2 l3 _ IH1 _ IH2];
    cbn [rationalSum].
  - reflexivity.
  - now rewrite IH.
  - ring.
  - congruence.
Qed.

Lemma magnitude_perm (k : Z) (l1 l2 : list WorkoutEntry.t) :
  Permutation l1 l2 -> magnitude k l1 = magnitude k l2.
Proof.
  induction 1 as [|x l1 l2 _ IH|x y l|l1 l2 l3 _ IH1 _ IH2];
    cbn [magnitude].
  - reflexivity.
  - now rewrite IH.
  - destruct (volumeUnits k x), (volumeUnits k y), (magnitude k l);
      try reflexivity.
    f_equal. lia.
  - congruence.
Qed.

Lemma exactTotal_perm (k : Z) (l1 l2 : list WorkoutEntry.t) :
  Permutation l1 l2 -> exactTotal k l1 -> exactTotal k l2.
Proof.
  intros Hperm (Hk & m & Hm & Hbound). split; [assumption|].
  exists m. now rewrite <- (magnitude_perm k _ _ Hperm).
Qed.

Lemma exerciseIds_perm (l1 l2 : list WorkoutEntry.t) :
  Permutation l1 l2 -> exerciseIds l1 = exerciseIds l2.
Proof.
  intros H. unfold exerciseIds. apply set_eq. intros k.
  rewrite !elem_of_list_to_set, !list_elem_of_In.
  split; apply Permutation_in; [|symmetry]; now apply Permutation_map.
Qed.

Lemma filter_perm {A : Type} (p : A -> bool) (l1 l2 : list A) :
  Permutation l1 l2 -> Permutation (List.filter p l1) (List.filter p l2).
Proof.
  induction 1 as [|x l1 l2 _ IH|x y l|l1 l2 l3 _ IH1 _ IH2]; simpl.
  - reflexivity.
  - destruct (p x); [now apply perm_skip|exact IH].
  - destruct (p x), (p y); try reflexivity. apply perm_swap.
  - now transitivity (List.filter p l2).
Qed.

Lemma liftedIds_perm (l1 l2 : list WorkoutEntry.t) :
  Permutation l1 l2 -> liftedIds l1 = liftedIds l2.
Proof.
  intros H. unfold liftedIds. apply set_eq. intros k.
  rewrite !elem_of_list_to_set, !list_elem_of_In.
  split; apply Permutation_in; [|symmetry];
    now apply Permutation_map, filter_perm.
Qed.

Lemma lastWorkoutDate_perm (now : Z) (s s' : State) :
  Permutation (workouts s) (workouts s') ->
  lastWorkoutDate (fst (getMetrics now s))
  = lastWorkoutDate (fst (getMetrics now s')).
Proof.
  intros Hperm.
  pose proof (lastWorkoutDate_spec now s) as H1.
  pose proof (lastWorkoutDate_spec now s') as H2.
  destruct (lastWorkoutDate (fst (getMetrics now s))) as [d1|],
           (lastWorkoutDate (fst (getMetrics now s'))) as [d2|].
  - destruct H1 as [(w1 & Hw1 & <-) Hmax1], H2 as [(w2 & Hw2 & <-) Hmax2].
    f_equal. apply Z.le_antisymm.
    + apply Hmax2. now apply (Permutation_in _ Hperm).
    + apply Hmax1. now apply (Permutation_in _ (Permutation_sym Hperm)).
  - destruct H1 as [(w1 & Hw1 & _) _]. rewrite H2 in Hperm.
    symmetry in Hperm. apply Permutation_nil in Hperm.
    rewrite Hperm in Hw1. destruct Hw1.
  - destruct H2 as [(w2 & Hw2 & _) _]. rewrite H1 in Hperm.
    apply Permutation_nil in Hperm. rewrite Hperm in Hw2. destruct Hw2.
  - reflexivity.
Qed.

Lemma Metrics_eq (m1 m2 : Metrics) :
  totalSessions m1 = totalSessions m2 -> totalWeight m1 = totalWeight m2 ->
  uniqueExercises m1 = uniqueExercises m2 ->
  lastWorkoutDate m1 = lastWorkoutDate m2 ->
  daysSinceLastWorkout m1 = daysSinceLastWorkout m2 ->
  personalRecords m1 = personalRecords m2 -> m1 = m2.
Proof. destruct m1, m2. simpl. now intros -> -> -> -> -> ->. Qed.

Lemma daysSince_of_last (now : Z) (s : State) :
  daysSinceLastWorkout (fst (getMetrics now s))
  = option_map (fun d => (now - d) / msPerDay)
               (lastWorkoutDate (fst (getMetrics now s))).
Proof. simpl. now destruct (map WorkoutEntry.date (workouts s)). Qed.

Lemma counts_perm (now : Z) (s s' : State) :
  Permutation (workouts s) (workouts s') ->
  sameButTotal (fst (getMetrics now s)) (fst (getMetrics now s')).
Proof.
  intros Hperm. unfold sameButTotal.
  split; [simpl; now apply Permutation_length|].
  split.
  { change (size (exerciseIds (workouts s)) = size (exerciseIds (workouts s'))).
    now rewrite (exerciseIds_perm _ _ Hperm). }
  split; [now apply lastWorkoutDate_perm|].
  split.
  { rewrite !daysSince_of_last. f_equal. now apply lastWorkoutDate_perm. }
  rewrite !MetricsEngine.personalRecords_liftedIds.
  now rewrite (liftedIds_perm _ _ Hperm).
Qed.

Lemma total_perm (k now : Z) (s s' : State) :
  Permutation (workouts s) (workouts s') -> exactTotal k (workouts s) ->
  totalWeight (fst (getMetrics now s)) = totalWeight (fst (getMetrics now s')).
Proof.
  intros Hperm Hexact.
  rewrite (MetricsEngine.totalWeight_exact k now s Hexact).
  rewrite (MetricsEngine.totalWeight_exact k now s')
    by now apply (exactTotal_perm k (workouts s)).
  now rewrite (rationalSum_perm _ _ Hperm).
Qed.

(** X19. The session count, the exercises trained, the last workout date,
    the days since it and the personal records do not depend on the order of
    the workout list, so the reordering done by [getRecentWorkouts] leaves
    them as they were.  The total volume is a binary64 sum taken in list
    order: it is the same for every order when the entries can be totalled
    without rounding, and it can differ otherwise, as it does before and
    after [getRecentWorkouts] for three entries with fractional weights held
    oldest first. *)
Theorem metrics_ignore_order (now : Z) (s : State) :
  (forall s', Permutation (workouts s) (workouts s') ->
              sameButTotal (fst (getMetrics now s)) (fst (getMetrics now s'))
              /\ forall k, exactTotal k (workouts s) ->
                    fst (getMetrics now s) = fst (getMetrics now s'))
  /\ sameButTotal (fst (getMetrics now s))
                  (fst (getMetrics now (snd (getRecentWorkouts s))))
  /\ (forall k, exactTotal k (workouts s) ->
        fst (getMetrics now (snd (getRecentWorkouts s)))
        = fst (getMetrics now s))
  /\ totalWeight (fst (getMetrics now Sample.threeOldestFirst))
     <> totalWeight
          (fst (getMetrics now (snd (getRecentWorkouts Sample.threeOldestFirst)))).
Proof.
  assert (Hgen : forall s', Permutation (workouts s) (workouts s') ->
            sameButTotal (fst (getMetrics now s)) (fst (getMetrics now s'))
            /\ forall k, exactTotal k (workouts s) ->
                  fst (getMetrics now s) = fst (getMetrics now s')).
  { intros s' Hperm.
    pose proof (counts_perm now s s' Hperm) as Hsame.
    split; [exact Hsame|]. intros k Hexact.
    destruct Hsame as (H1 & H2 & H3 & H4 & H5).
    apply Metrics_eq; try assumption. now apply (total_perm k). }
  assert (Hsorted : Permutation (workouts s)
                      (workouts (snd (getRecentWorkouts s)))).
  { simpl. symmetry. apply SortFacts.sort_perm. }
  split; [exact Hgen|].
  split; [apply (Hgen _ Hsorted)|].
  split.
  - intros k Hexact. symmetry. now apply (proj2 (Hgen _ Hsorted) k).
  - vm_compute. intros H. inversion H.
Qed.

Lemma metrics_ignore_order_witness :
  fst (getMetrics 50 Sample.oldestFirst)
  = fst (getMetrics 50 (snd (getRecentWorkouts Sample.oldestFirst))).
Proof.
  destruct (metrics_ignore_order 50 Sample.oldestFirst) as (_ & _ & Hsort & _).
  symmetry. apply (Hsort 0).
  split; [lia|]. eexists.
  split; [vm_compute; reflexivity | vm_compute; discriminate].
Defined.

(** *** The record of an exercise *)

(** What the map of records holds for one exercise once the entries [ws]
    were seen. *)
Lemma record_spec (ws : list WorkoutEntry.t) (k : string) :
  match recordOf k ws with
  | Some v =>
      JS.gt v JS.zero = true
      /\ (exists w, In w ws /\ WorkoutEntry.liftId w = k
                    /\ WorkoutEntry.weight w = v)
      /\ (forall w, In w ws -> WorkoutEntry.liftId w = k ->
                    JS.gt (WorkoutEntry.weight w) v = false)
  | None =>
      forall w, In w ws -> WorkoutEntry.liftId w = k ->
                JS.gt (WorkoutEntry.weight w) JS.zero = false
  end.
Proof.
  unfold recordOf.
  induction ws as [|w ws IH] using rev_ind.
  { simpl. rewrite lookup_empty. intros w []. }
  rewrite fold_left_app. cbn [fold_left].
  set (m := fold_left trackRecord ws ∅) in *.
  assert (Hother : WorkoutEntry.liftId w <> k ->
                   trackRecord m w !! k = m !! k).
  { intros Hne. unfold trackRecord.
    destruct (JS.gt _ _); [|reflexivity]. now rewrite lookup_insert_ne. }
  assert (Hext : forall (P : WorkoutEntry.t -> Prop),
            (forall w', In w' ws -> WorkoutEntry.liftId w' = k -> P w') ->
            (WorkoutEntry.liftId w = k -> P w) ->
            forall w', In w' (ws ++ [w]) -> WorkoutEntry.liftId w' = k -> P w').
  { intros P Hold Hnew w' Hw' Hk. apply in_app_or in Hw' as [Hw'|[<-|[]]]; auto. }
  destruct (String.eqb_spec (WorkoutEntry.liftId w) k) as [Hk|Hk].
  2:{ rewrite (Hother Hk). destruct (m !! k) as [v|].
      - destruct IH as (Hpos & (w' & Hw' & Hid & Hv) & Hmax).
        split; [exact Hpos|]. split.
        + exists w'. split; [apply in_or_app; now left|]. auto.
        + apply Hext; [exact Hmax|congruence].
      - apply Hext; [exact IH|congruence]. }
  unfold trackRecord. rewrite Hk.
  destruct (m !! k) as [v|] eqn:Hm; cbn [JS.orDefault].
  - destruct IH as (Hpos & (w' & Hw' & Hid & Hv) & Hmax).
    rewrite (positive_truthy v Hpos).
    destruct (JS.gt (WorkoutEntry.weight w) v) eqn:Hgt.
    + rewrite lookup_insert_eq. split; [|split].
      * unfold JS.gt in *. eapply lt_trans; eassumption.
      * exists w. split; [apply in_or_app; right; now left|]. auto.
      * apply Hext.
        -- intros w1 Hw1 Hk1. unfold JS.gt in *.
           destruct (JS.lt (WorkoutEntry.weight w) (WorkoutEntry.weight w1))
             eqn:Hlt; [|reflexivity].
           rewrite <- (Hmax w1 Hw1 Hk1). symmetry.
           eapply lt_trans; eassumption.
        -- intros _. apply lt_irrefl.
    + rewrite Hm. split; [exact Hpos|]. split.
      * exists w'. split; [apply in_or_app; now left|]. auto.
      * apply Hext; [exact Hmax|]. intros _. exact Hgt.
  - destruct (JS.gt (WorkoutEntry.weight w) JS.zero) eqn:Hgt.
    + rewrite lookup_insert_eq. split; [exact Hgt|]. split.
      * exists w. split; [apply in_or_app; right; now left|]. auto.
      * apply Hext.
        -- intros w1 Hw1 Hk1. unfold JS.gt in *.
           destruct (JS.lt (WorkoutEntry.weight w) (WorkoutEntry.weight w1))
             eqn:Hlt; [|reflexivity].
           rewrite <- (IH w1 Hw1 Hk1). symmetry.
           eapply lt_trans; eassumption.
        -- intros _. apply lt_irrefl.
    + rewrite Hm. apply Hext; [exact IH|]. intros _. exact Hgt.
Qed.

(** X20. The record kept for an exercise while the metrics are computed
    is the greatest weight above zero among its entries: it is the weight of
    one of them and no entry of the exercise is heavier.  An exercise has no
    record exactly when none of its entries has a weight above zero. *)
Theorem record_is_heaviest_entry (ws : list WorkoutEntry.t) (k : string) :
  (forall v, recordOf k ws = Some v ->
     JS.gt v JS.zero = true
     /\ (exists w, In w ws /\ WorkoutEntry.liftId w = k
                   /\ WorkoutEntry.weight w = v)
     /\ (forall w, In w ws -> WorkoutEntry.liftId w = k ->
                   JS.gt (WorkoutEntry.weight w) v = false))
  /\ (recordOf k ws = None <->
      forall w, In w ws -> WorkoutEntry.liftId w = k ->
                JS.gt (WorkoutEntry.weight w) JS.zero = false).
Proof.
  pose proof (record_spec ws k) as H.
  split.
  - intros v Hv. now rewrite Hv in H.
  - destruct (recordOf k ws) as [v|].
    + split; [discriminate|]. intros Hnone.
      destruct H as (Hpos & (w & Hw & Hk & <-) & _).
      rewrite (Hnone w Hw Hk) in Hpos. discriminate Hpos.
    + tauto.
Qed.

Lemma record_is_heaviest_entry_witness :
  recordOf "1" (workouts Sample.oldestFirst) = Some (JS.ofZ 105)
  /\ JS.gt (JS.ofZ 100) (JS.ofZ 105) = false.
Proof.
  split; [reflexivity|].
  destruct (record_is_heaviest_entry (workouts Sample.oldestFirst) "1")
    as [Hmax _].
  destruct (Hmax (JS.ofZ 105) eq_refl) as (_ & _ & Hall).
  apply (Hall (Sample.entry "10" "1" 100 5 3 D3 10)); [simpl; auto|reflexivity].
Defined.

(** *** Metrics after an operation *)

Lemma rationalSum_split (p : WorkoutEntry.t -> bool)
    (ws : list WorkoutEntry.t) :
  rationalSum ws
  = (rationalSum (List.filter (fun w => negb (p w)) ws)
     + rationalSum (List.filter p ws))%Qc.
Proof.
  induction ws as [|w ws IH]; cbn [List.filter rationalSum].
  - ring.
  - rewrite IH. destruct (p w); cbn [negb rationalSum]; ring.
Qed.

Lemma magnitude_filter (k : Z) (p : WorkoutEntry.t -> bool)
    (ws : list WorkoutEntry.t) (m : Z) :
  magnitude k ws = Some m ->
  exists m', magnitude k (List.filter p ws) = Some m' /\ m' <= m.
Proof.
  revert m. induction ws as [|w ws IH]; cbn [List.filter magnitude]; intros m.
  - intros [= <-]. exists 0. split; [reflexivity | lia].
  - destruct (volumeUnits k w) as [v|] eqn:Hv; [|discriminate].
    destruct (magnitude k ws) as [m1|]; [|discriminate].
    intros [= <-]. destruct (IH m1 eq_refl) as (m' & Hm' & Hle).
    destruct (p w); cbn [magnitude].
    + rewrite Hv, Hm'. exists (Z.abs v + m'). split; [reflexivity | lia].
    + exists m'. split; [assumption | lia].
Qed.

Lemma exactTotal_filter (k : Z) (p : WorkoutEntry.t -> bool)
    (ws : list WorkoutEntry.t) :
  exactTotal k ws -> exactTotal k (List.filter p ws).
Proof.
  intros (Hk & m & Hm & Hbound). split; [assumption|].
  destruct (magnitude_filter k p ws m Hm) as (m' & Hm' & Hle).
  exists m'. split; [assumption | lia].
Qed.

Lemma length_split {A : Type} (p : A -> bool) (l : list A) :
  length l
  = (length (List.filter (fun x => negb (p x)) l) + length (List.filter p l))%nat.
Proof.
  induction l as [|x xs IH]; simpl; [reflexivity|].
  destruct (p x); simpl; lia.
Qed.

Lemma exerciseIds_without (E : string) (ws : list WorkoutEntry.t) :
  exerciseIds (keepOthers WorkoutEntry.liftId E ws) = exerciseIds ws ∖ {[E]}.
Proof.
  unfold exerciseIds. apply set_eq. intros k.
  rewrite elem_of_difference, !elem_of_list_to_set, !list_elem_of_In,
    !in_map_iff, elem_of_singleton.
  split.
  - intros (w & <- & Hw).
    apply (RecordStore.keepOthers_In WorkoutEntry.liftId) in Hw as [Hw Hne].
    eauto.
  - intros [(w & <- & Hw) Hne]. exists w. split; [reflexivity|].
    now apply (RecordStore.keepOthers_In WorkoutEntry.liftId).
Qed.

(** X21. Deleting an exercise takes its entries, and only them, out of the
    metrics: the session count drops by the number of its entries and the
    exercises trained are the old ones without it (one fewer when it had
    entries, as many when it had none).  When the entries can be totalled
    without rounding, the total volume before and after are the exact sums,
    and they differ by the volume of the entries of the exercise. *)
Theorem deleting_an_exercise_updates_metrics (key E : string) (now : Z)
    (s : State) :
  let before := fst (getMetrics now s) in
  let after := fst (getMetrics now (deleteLift key E s)) in
  totalSessions before
  = (totalSessions after + length (entriesOf E (workouts s)))%nat
  /\ (forall k, exactTotal k (workouts s) ->
        totalWeight before = JS.Fin (rationalSum (workouts s))
        /\ totalWeight after
           = JS.Fin (rationalSum (workouts (deleteLift key E s)))
        /\ rationalSum (workouts s)
           = (rationalSum (workouts (deleteLift key E s))
              + rationalSum (entriesOf E (workouts s)))%Qc)
  /\ exerciseIds (workouts (deleteLift key E s))
     = exerciseIds (workouts s) ∖ {[E]}
  /\ uniqueExercises before
     = (uniqueExercises after
        + if bool_decide (E ∈ exerciseIds (workouts s)) then 1 else 0)%nat.
Proof.
  cbv zeta.
  split; [|split; [|split]].
  - simpl. apply (length_split (fun w => String.eqb (WorkoutEntry.liftId w) E)).
  - intros k Hexact.
    split; [now apply (MetricsEngine.totalWeight_exact k)|].
    split.
    + apply (MetricsEngine.totalWeight_exact k).
      now apply exactTotal_filter.
    + apply (rationalSum_split
               (fun w => String.eqb (WorkoutEntry.liftId w) E)).
  - apply exerciseIds_without.
  - change (size (exerciseIds (workouts s))
            = (size (exerciseIds (workouts (deleteLift key E s)))
               + if bool_decide (E ∈ exerciseIds (workouts s)) then 1 else 0)%nat).
    change (workouts (deleteLift key E s))
      with (keepOthers WorkoutEntry.liftId E (workouts s)).
    rewrite exerciseIds_without.
    set (X := exerciseIds (workouts s)).
    case_bool_decide as HE.
    + assert (HX : X = {[E]} ∪ X ∖ {[E]}).
      { apply set_eq. intros k. rewrite elem_of_union, elem_of_difference,
          elem_of_singleton.
        destruct (decide (k = E)) as [->|]; tauto. }
      rewrite HX at 1. rewrite size_union by set_solver.
      rewrite size_singleton. lia.
    + assert (HX : X ∖ {[E]} = X) by set_solver.
      rewrite HX. lia.
Qed.

Lemma maxOf_cons (a b : Z) (l : list Z) :
  maxOf a (b :: l) = Z.max a (maxOf b l).
Proof.
  unfold maxOf. simpl. revert a b.
  induction l as [|x xs IH]; intros a b; simpl; [reflexivity|].
  rewrite IH, (IH b x). lia.
Qed.

(** X22. Logging a complete form adds one session, counts the selected
    exercise among the exercises trained, and moves the last workout date to
    the date of the new entry unless an entry is dated later.  When the
    entries, the new one included, can be totalled without rounding, the
    total volume grows by exactly the product of the parsed weight, reps and
    sets. *)
Theorem logging_updates_metrics (key : string) (clock clockDate now : Z)
    (s : State) :
  complete s = true ->
  let before := fst (getMetrics now s) in
  let after := fst (getMetrics now (logWorkout key clock clockDate s)) in
  totalSessions after = S (totalSessions before)
  /\ (forall k, exactTotal k (workouts (logWorkout key clock clockDate s)) ->
        totalWeight before = JS.Fin (rationalSum (workouts s))
        /\ totalWeight after
           = JS.Fin (rationalSum (workouts s)
                     + rational (JS.parseFloat (weight s))
                       * rational (JS.parseInt (reps s))
                       * rational (JS.parseInt (sets s)))%Qc)
  /\ uniqueExercises after
     = size ({[selectedLiftId s]} ∪ exerciseIds (workouts s))
  /\ lastWorkoutDate after
     = Some match lastWorkoutDate before with
            | Some d => Z.max clockDate d
            | None => clockDate
            end.
Proof.
  intros Hc. cbv zeta.
  pose proof (LogForm.logWorkout_accepts key clock clockDate s Hc) as Hws.
  split; [|split; [|split]].
  - simpl. now rewrite Hws.
  - intros k Hexact. split.
    + apply (MetricsEngine.totalWeight_exact k). rewrite Hws in Hexact.
      now apply (MetricsEngine.exactTotal_without k [] (workouts s)) in Hexact.
    + rewrite (MetricsEngine.totalWeight_exact k _ _ Hexact), Hws.
      cbn [rationalSum WorkoutEntry.weight WorkoutEntry.reps WorkoutEntry.sets].
      now rewrite Qcplus_comm.
  - change (size (exerciseIds (workouts (logWorkout key clock clockDate s)))
            = size ({[selectedLiftId s]} ∪ exerciseIds (workouts s))).
    rewrite Hws. reflexivity.
  - cbn [fst getMetrics lastWorkoutDate]. rewrite Hws. cbn [map WorkoutEntry.date].
    destruct (map WorkoutEntry.date (workouts s)) as [|d ds]; [reflexivity|].
    now rewrite maxOf_cons.
Qed.

Lemma logging_updates_metrics_witness :
  totalSessions
    (fst (getMetrics 40 (logWorkout "anonymous" 30 30
                           (Sample.filled Sample.halves))))
  = 3%nat
  /\ totalWeight
       (fst (getMetrics 40 (logWorkout "anonymous" 30 30
                              (Sample.filled Sample.halves))))
     = JS.ofZ 3290
  /\ lastWorkoutDate
       (fst (getMetrics 40 (logWorkout "anonymous" 30 30
                              (Sample.filled Sample.halves))))
     = Some 30.
Proof.
  destruct (logging_updates_metrics "anonymous" 30 30 40
              (Sample.filled Sample.halves) eq_refl)
    as (Hn & Htotal & _ & Hlast).
  split; [rewrite Hn; reflexivity|].
  split; [|rewrite Hlast; reflexivity].
  destruct (Htotal 1) as [_ Hafter].
  - split; [lia|]. eexists.
    split; [vm_compute; reflexivity | vm_compute; discriminate].
  - rewrite Hafter. js_number_eq.
Defined.

End MetricsProps.

(* ===================================================================== *)
(** ** More of the synchronisation *)
(* ===================================================================== *)

Module SyncProps.

Import Database Component Spec SyncBridge SignIn.

(** X23. A manual sync never changes the local lists, the stored copies
    or the form, whatever the network answers; it sends nothing when there
    is no user or a sync is under way, and otherwise sends one push of the
    lists of the render it was created in and leaves the sync flag off. *)
Theorem manual_sync_keeps_local_data (ss : Session) (closure s : State)
    (net : Network) :
  let after := fst (syncToCloud ss closure s net) in
  let sent := snd (syncToCloud ss closure s net) in
  lifts after = lifts s /\ workouts after = workouts s
  /\ localStorage after = localStorage s
  /\ (newLiftName after, selectedLiftId after, weight after, reps after,
      sets after, difficulty after)
     = (newLiftName s, selectedLiftId s, weight s, reps s, sets s, difficulty s)
  /\ (hasUserId ss = false \/ issyncing closure = true ->
      after = s /\ sent = [])
  /\ (hasUserId ss = true -> issyncing closure = false ->
      sent = [PostSyncData (lifts closure) (workouts closure) (userId ss)]
      /\ issyncing after = false).
Proof.
  cbv zeta. destruct (hasUserId ss) eqn:Hu.
  - rewrite (syncToCloud_cases ss closure s net Hu).
    destruct (issyncing closure) eqn:Hs; cbn [fst snd].
    + split; [reflexivity|]. split; [reflexivity|]. split; [reflexivity|].
      split; [reflexivity|]. split; [auto|]. discriminate.
    + split; [reflexivity|]. split; [reflexivity|]. split; [reflexivity|].
      split; [reflexivity|]. split; [|auto].
      intros [Hf|Hf]; discriminate Hf.
  - unfold syncToCloud. rewrite Hu. cbn [negb orb ret fst snd].
    split; [reflexivity|]. split; [reflexivity|]. split; [reflexivity|].
    split; [reflexivity|]. split; [auto|]. discriminate.
Qed.

(** Every way in which a pull can fail. *)
Lemma failed_pull_carries_nothing (net : Network) (uid : string) :
  net (GetLoadData uid) = Throw
  \/ (exists r, net (GetLoadData uid) = Normal r
                /\ (ok r = false \/ body r = JsonInvalid \/ body r = JsonNull)) ->
  carried (net (GetLoadData uid)) = emptyData.
Proof.
  intros [->|(r & -> & H)]; [reflexivity|]. simpl.
  destruct (ok r); [|reflexivity].
  destruct H as [H|[->| ->]]; [discriminate|reflexivity|reflexivity].
Qed.

Lemma autoSync_local (ss : Session) (s : State) (net : Network) :
  carried (net (GetLoadData (userId ss))) = emptyData ->
  lifts (fst (autoSync ss s net)) = lifts s
  /\ workouts (fst (autoSync ss s net)) = workouts s
  /\ localStorage (fst (autoSync ss s net)) = localStorage s.
Proof.
  intros Hempty.
  destruct (isSignedIn ss && hasUserId ss && isLoaded ss) eqn:Hin.
  - apply andb_true_iff in Hin as [Hin Hl].
    apply andb_true_iff in Hin as [Hs Hu].
    destruct (autoSync_lists ss s net (conj Hs (conj Hu Hl))) as (-> & -> & ->).
    rewrite loadFromCloud_cases by exact Hu. rewrite Hempty. simpl. auto.
  - unfold autoSync. rewrite Hin. simpl. auto.
Qed.

(** X24. When the pull fails (the request is rejected, the response is not
    ok, or its body is not a JSON object), the sign-in effect leaves the
    local lists and the stored copies as they were. *)
Theorem failed_pull_keeps_local_data (ss : Session) (s : State)
    (net : Network) :
  net (GetLoadData (userId ss)) = Throw
  \/ (exists r, net (GetLoadData (userId ss)) = Normal r
                /\ (ok r = false \/ body r = JsonInvalid \/ body r = JsonNull)) ->
  lifts (fst (autoSync ss s net)) = lifts s
  /\ workouts (fst (autoSync ss s net)) = workouts s
  /\ localStorage (fst (autoSync ss s net)) = localStorage s.
Proof.
  intros H. apply autoSync_local, failed_pull_carries_nothing, H.
Qed.

Lemma failed_pull_keeps_local_data_witness :
  lifts (fst (autoSync Sample.session Sample.localOnly Sample.offline))
  = [Sample.bench]
  /\ workouts (fst (autoSync Sample.session Sample.localOnly Sample.offline))
     = [Sample.entry "10" "2" 135 8 3 D3 10]
  /\ localStorage (fst (autoSync Sample.session Sample.localOnly Sample.offline))
     = ∅.
Proof.
  apply (failed_pull_keeps_local_data Sample.session Sample.localOnly
           Sample.offline).
  left. reflexivity.
Defined.

(** X25. On sign-in with data on both sides, the local lists become the
    pulled lists while the push that is sent carries the local lists as they
    were before the pull: each side is given the other side's data. *)
Theorem sign_in_exchanges_both_sides (ss : Session) (s : State)
    (net : Network) (cloud : CloudData) :
  signedIn ss ->
  pulled ss net = Normal cloud ->
  Database.lifts cloud <> [] \/ Database.workouts cloud <> [] ->
  lifts s <> [] \/ workouts s <> [] ->
  issyncing s = false ->
  lifts (fst (autoSync ss s net)) = Database.lifts cloud
  /\ workouts (fst (autoSync ss s net)) = Database.workouts cloud
  /\ snd (autoSync ss s net)
     = [GetLoadData (userId ss);
        PostSyncData (lifts s) (workouts s) (userId ss)].
Proof.
  intros Hin Hpull Hcloud Hlocal Hsync.
  rewrite (autoSync_requests ss s net Hin), Hsync.
  assert (nonEmpty (lifts s) || nonEmpty (workouts s) = true) as ->.
  { apply orb_true_iff.
    destruct Hlocal as [H|H]; [left|right]; now apply nonEmpty_true. }
  destruct (autoSync_lists ss s net Hin) as (-> & -> & _).
  destruct Hin as (Hs & Hu & Hl).
  rewrite loadFromCloud_cases by exact Hu.
  unfold pulled in Hpull.
  rewrite loadDataFromCloud_cases, (hasUserId_truthy _ Hu) in Hpull.
  simpl in Hpull. injection Hpull as ->. cbv zeta.
  assert (nonEmpty (Database.lifts cloud)
          || nonEmpty (Database.workouts cloud) = true) as ->.
  { apply orb_true_iff.
    destruct Hcloud as [H|H]; [left|right]; now apply nonEmpty_true. }
  repeat split.
Qed.

Lemma sign_in_exchanges_both_sides_witness :
  lifts (fst (autoSync Sample.session Sample.localOnly
                       (Sample.serving Sample.remote)))
  = [Sample.squat]
  /\ workouts (fst (autoSync Sample.session Sample.localOnly
                             (Sample.serving Sample.remote)))
     = []
  /\ snd (autoSync Sample.session Sample.localOnly
                   (Sample.serving Sample.remote))
     = [GetLoadData "user_1";
        PostSyncData [Sample.bench] [Sample.entry "10" "2" 135 8 3 D3 10]
                     "user_1"].
Proof.
  apply (sign_in_exchanges_both_sides Sample.session Sample.localOnly
           (Sample.serving Sample.remote) Sample.remote).
  - repeat split.
  - reflexivity.
  - left. discriminate.
  - left. discriminate.
  - reflexivity.
Defined.

End SyncProps.

(* ===================================================================== *)
(** ** The API routes *)
(* ===================================================================== *)

Module ServerProps.

Import Database Component Spec Server.

Section Routes.
Context {Store : Type}.
Variable getUser : Store -> string -> completion Metadata.
Variable updateUserMetadata :
  Store -> string -> Metadata -> completion unit * Store.

Local Abbreviation post := (POST updateUserMetadata).
Local Abbreviation get := (GET getUser).
Local Abbreviation served := (serves getUser updateUserMetadata).

(** X26. Both routes answer every request with status 200, 400 or 500,
    and nothing escapes them: 400 exactly when the user identifier is
    missing or empty, 500 when the body of a POST is not JSON or the
    provider throws, 200 when the provider resolves.  The provider is called
    only for a POST with a user identifier: a POST answered 400, and one
    whose body is not JSON, leave the provider's state as it was.  The page
    sees a response as ok exactly when its status is 200. *)
Theorem routes_answer_every_request (now : Z) (body : PostBody)
    (userId : option string) (st : Store) :
  let posted := post now body st in
  let got := get userId st in
  (status (fst posted) = 200 \/ status (fst posted) = 400
   \/ status (fst posted) = 500)
  /\ (status (fst posted) = 400 \/ body = NotJson -> snd posted = st)
  /\ (forall l w u, body = Body l w u ->
        (status (fst posted) = 400 <-> noUserId u = true)
        /\ (forall id, u = Some id -> id <> "" ->
              let metadata :=
                mkMetadata (Some (orEmpty l)) (Some (orEmpty w)) (Some now) in
              (status (fst posted) = 200 <->
               fst (updateUserMetadata st id metadata) = Normal tt)
              /\ (status (fst posted) = 500 <->
                  fst (updateUserMetadata st id metadata) = Throw)
              /\ snd posted = snd (updateUserMetadata st id metadata)))
  /\ (body = NotJson -> status (fst posted) = 500)
  /\ (ok (delivered (fst posted)) = true <-> status (fst posted) = 200)
  /\ (status got = 400 <-> noUserId userId = true)
  /\ (forall u, userId = Some u -> u <> "" ->
        (status got = 200 <-> exists m, getUser st u = Normal m)
        /\ (status got = 500 <-> getUser st u = Throw))
  /\ (ok (delivered got) = true <-> status got = 200).
Proof.
  cbv zeta.
  assert (Hok : forall r, ok (delivered r) = true <-> 200 <= status r <= 299).
  { intros r. unfold delivered. cbn [ok].
    rewrite andb_true_iff, !Z.leb_le. tauto. }
  rewrite !Hok.
  split; [|split; [|split; [|split; [|split]]]].
  - destruct body as [|l w [u|]]; cbn [POST noUserId fst status]; auto.
    destruct (negb (JS.truthyS u)); cbn [fst status]; auto.
    destruct (updateUserMetadata _ _ _) as [[[]|] st']; cbn [fst status]; auto.
  - intros [H|H]; [|now rewrite H].
    revert H.
    destruct body as [|l w [u|]]; cbn [POST noUserId fst snd status]; auto.
    destruct (negb (JS.truthyS u)); cbn [fst snd status]; auto.
    destruct (updateUserMetadata _ _ _) as [[[]|] st']; cbn [fst snd status];
      discriminate.
  - intros l w u ->. split.
    + destruct u as [u|]; cbn [POST noUserId fst status]; [|tauto].
      destruct (negb (JS.truthyS u)); cbn [fst status]; [tauto|].
      destruct (updateUserMetadata _ _ _) as [[[]|] st']; cbn [fst status];
        split; (lia || discriminate).
    + intros id -> Hid. apply SyncBridge.truthyS_true in Hid.
      cbn [POST noUserId]. rewrite Hid. cbn [negb].
      destruct (updateUserMetadata _ _ _) as [[[]|] st'];
        cbn [fst snd status]; repeat split; try lia; try discriminate.
  - now intros ->.
  - destruct body as [|l w [u|]]; cbn [POST noUserId fst status]; try lia.
    destruct (negb (JS.truthyS u)); cbn [fst status]; try lia.
    destruct (updateUserMetadata _ _ _) as [[[]|] st']; cbn [fst status]; lia.
  - split; [|split].
    + unfold GET. destruct userId as [u|]; cbn [noUserId status]; [|tauto].
      destruct (negb (JS.truthyS u)); cbn [status]; [tauto|].
      destruct (getUser st u); cbn [status]; split; (lia || discriminate).
    + intros u -> Hu. apply SyncBridge.truthyS_true in Hu.
      unfold GET. cbn [noUserId]. rewrite Hu. cbn [negb].
      destruct (getUser st u) as [m|]; cbn [status]; split; split;
        try lia; try discriminate; eauto.
      intros (m & H). discriminate H.
    + unfold GET. destruct userId as [u|]; cbn [noUserId status]; try lia.
      destruct (negb (JS.truthyS u)); cbn [status]; try lia.
      destruct (getUser st u); cbn [status]; lia.
Qed.

Lemma querySafe_truthy (u : string) : querySafe u = true -> JS.truthyS u = true.
Proof. unfold querySafe. now intros [H _]%andb_true_iff. Qed.

Lemma pull_after_push (now later : Z) (l : list Lift.t)
    (w : list WorkoutEntry.t) (u : string) (st : Store)
    (net net' : Network) :
  keepsMetadata getUser updateUserMetadata ->
  querySafe u = true -> jsonSafe w = true ->
  status (fst (post now (Body (Some l) (Some w) (Some u)) st)) = 200 ->
  served net now st ->
  served net' later (snd (post now (Body (Some l) (Some w) (Some u)) st)) ->
  fst (syncDataToCloud l w u net) = Normal true
  /\ get (Some u) (snd (post now (Body (Some l) (Some w) (Some u)) st))
     = mkHttp 200 (Data l w (Some now))
  /\ fst (loadDataFromCloud u net') = Normal (mkCloudData l w)
  /\ (forall u', u' <> u -> u' <> "" ->
        get (Some u') (snd (post now (Body (Some l) (Some w) (Some u)) st))
        = get (Some u') st).
Proof.
  intros Hkeeps Hu Hw Hok Hnet Hnet'.
  pose proof (querySafe_truthy u Hu) as Ht.
  rewrite SyncBridge.syncDataToCloud_cases, SyncBridge.loadDataFromCloud_cases, Ht.
  cbn [fst].
  rewrite (Hnet (PostSyncData l w u) _ ltac:(cbn [answer]; rewrite Hw; reflexivity)).
  revert Hok Hnet'. unfold POST at 1 2 4 5. cbn [noUserId]. rewrite Ht. cbn [negb].
  destruct (updateUserMetadata st u _) as [[[]|] st'] eqn:Hupd;
    cbn [fst snd status]; [intros _ Hnet'|discriminate].
  destruct (Hkeeps _ _ _ _ Hupd) as [Hget Hothers].
  assert (Hgot : get (Some u) st' = mkHttp 200 (Data l w (Some now))).
  { unfold GET. cbn [noUserId]. rewrite Ht, Hget. reflexivity. }
  rewrite (Hnet' (GetLoadData u) (delivered (get (Some u) st'))).
  2:{ cbn [answer]. rewrite Hu, Hgot. cbn [payload]. now rewrite Hw. }
  rewrite Hgot.
  split.
  { unfold POST. cbn [noUserId]. rewrite Ht, Hupd. reflexivity. }
  split; [reflexivity|]. split; [reflexivity|].
  intros u' Hne Hu'. apply SyncBridge.truthyS_true in Hu'.
  unfold GET. cbn [noUserId]. rewrite Hu'. cbn [negb].
  now rewrite (Hothers u' Hne).
Qed.

(** X27. Let the provider keep what it is given, the user identifier need
    no escaping and the entries hold finite numbers only.  Then a push
    answered 200 is what the next pull of the same user returns, through
    both routes and both functions of the bridge: the same two lists,
    stamped with the time of the push; the pulls of other users are not
    affected. *)
Theorem push_then_pull_round_trip (now later : Z) (l : list Lift.t)
    (w : list WorkoutEntry.t) (u : string) (st : Store)
    (net net' : Network) :
  keepsMetadata getUser updateUserMetadata ->
  querySafe u = true -> jsonSafe w = true ->
  status (fst (post now (Body (Some l) (Some w) (Some u)) st)) = 200 ->
  let st' := snd (post now (Body (Some l) (Some w) (Some u)) st) in
  served net now st -> served net' later st' ->
  fst (syncDataToCloud l w u net) = Normal true
  /\ get (Some u) st' = mkHttp 200 (Data l w (Some now))
  /\ fst (loadDataFromCloud u net') = Normal (mkCloudData l w)
  /\ (forall u', u' <> u -> u' <> "" -> get (Some u') st' = get (Some u') st).
Proof.
  intros Hkeeps Hu Hw Hok st' Hnet Hnet'. now apply (pull_after_push now later).
Qed.

(** X28. The first sign-in of a user whose remote partition is empty backs
    the local data up: with a provider that keeps what it is given, an
    identifier that needs no escaping and local entries that hold finite
    numbers only, the pull leaves the local lists alone, the push carries
    them, and when it is answered 200 a later pull returns them. *)
Theorem first_sign_in_backs_up (now later : Z) (ss : Session) (s : State)
    (st : Store) (m : Metadata) (net net' : Network) :
  keepsMetadata getUser updateUserMetadata ->
  signedIn ss ->
  querySafe (userId ss) = true -> jsonSafe (Component.workouts s) = true ->
  getUser st (userId ss) = Normal m ->
  orEmpty (lifts m) = [] -> orEmpty (workouts m) = [] ->
  Component.lifts s <> [] \/ Component.workouts s <> [] ->
  issyncing s = false ->
  status (fst (post now (Body (Some (Component.lifts s))
                              (Some (Component.workouts s))
                              (Some (userId ss))) st)) = 200 ->
  served net now st ->
  served net' later
    (snd (post now (Body (Some (Component.lifts s))
                         (Some (Component.workouts s))
                         (Some (userId ss))) st)) ->
  Component.lifts (fst (autoSync ss s net)) = Component.lifts s
  /\ Component.workouts (fst (autoSync ss s net)) = Component.workouts s
  /\ snd (autoSync ss s net)
     = [GetLoadData (userId ss);
        PostSyncData (Component.lifts s) (Component.workouts s) (userId ss)]
  /\ fst (syncDataToCloud (Component.lifts s) (Component.workouts s)
                          (userId ss) net)
     = Normal true
  /\ fst (loadDataFromCloud (userId ss) net')
     = Normal (mkCloudData (Component.lifts s) (Component.workouts s)).
Proof.
  intros Hkeeps Hin Hq Hj Hget Hl Hw Hlocal Hsync Hok Hnet Hnet'.
  pose proof Hin as (Hs & Hu & Hld).
  pose proof (SignIn.hasUserId_truthy _ Hu) as Ht.
  assert (Hempty : carried (net (GetLoadData (userId ss))) = emptyData).
  { assert (Hgot : get (Some (userId ss)) st
                   = mkHttp 200 (Data [] [] (lastSync m))).
    { unfold GET. cbn [noUserId]. rewrite Ht, Hget. cbn [negb].
      now rewrite Hl, Hw. }
    rewrite (Hnet (GetLoadData (userId ss))
                  (delivered (get (Some (userId ss)) st))).
    - rewrite Hgot. reflexivity.
    - cbn [answer]. rewrite Hq, Hgot. reflexivity. }
  destruct (SyncProps.autoSync_local ss s _ Hempty) as (-> & -> & _).
  rewrite (SignIn.autoSync_requests ss s _ Hin), Hsync.
  assert (nonEmpty (Component.lifts s) || nonEmpty (Component.workouts s)
          = true) as ->.
  { apply orb_true_iff.
    destruct Hlocal as [H|H]; [left|right]; now apply SignIn.nonEmpty_true. }
  split; [reflexivity|]. split; [reflexivity|]. split; [reflexivity|].
  destruct (pull_after_push now later _ _ _ st net net' Hkeeps Hq Hj Hok
              Hnet Hnet') as (Hpush & _ & Hpull & _).
  now split.
Qed.

End Routes.

Lemma mapProvider_keeps : keepsMetadata mapGetUser mapUpdate.
Proof.
  intros st u m st'. unfold mapUpdate, mapGetUser.
  destruct (st !! u) eqn:Hu; [|discriminate]. intros [= <-]. split.
  - now rewrite lookup_insert_eq.
  - intros u' Hne. now rewrite lookup_insert_ne.
Qed.

Lemma routed_serves {Store : Type}
    (getUser : Store -> string -> completion Metadata)
    (updateUserMetadata : Store -> string -> Metadata -> completion unit * Store)
    (now : Z) (st : Store) :
  serves getUser updateUserMetadata
         (routed getUser updateUserMetadata now st) now st.
Proof. intros request response H. unfold routed. now rewrite H. Qed.

Lemma push_then_pull_round_trip_witness :
  let st := oneUser in
  let pushed := Body (Some (Component.lifts Sample.localOnly))
                     (Some (Component.workouts Sample.localOnly))
                     (Some "user_1") in
  fst (syncDataToCloud (Component.lifts Sample.localOnly)
         (Component.workouts Sample.localOnly) "user_1"
         (routed mapGetUser mapUpdate 5 st))
  = Normal true
  /\ GET mapGetUser (Some "user_1") (snd (POST mapUpdate 5 pushed st))
     = mkHttp 200 (Data (Component.lifts Sample.localOnly)
                        (Component.workouts Sample.localOnly) (Some 5))
  /\ fst (loadDataFromCloud "user_1"
            (routed mapGetUser mapUpdate 9 (snd (POST mapUpdate 5 pushed st))))
     = Normal (mkCloudData (Component.lifts Sample.localOnly)
                           (Component.workouts Sample.localOnly)).
Proof.
  cbv zeta.
  destruct (push_then_pull_round_trip mapGetUser mapUpdate 5 9
              (Component.lifts Sample.localOnly)
              (Component.workouts Sample.localOnly) "user_1"
              oneUser
              (routed mapGetUser mapUpdate 5
                      oneUser)
              (routed mapGetUser mapUpdate 9
                 (snd (POST mapUpdate 5
                         (Body (Some (Component.lifts Sample.localOnly))
                               (Some (Component.workouts Sample.localOnly))
                               (Some "user_1"))
                         oneUser)))
              mapProvider_keeps eq_refl eq_refl
              ltac:(vm_compute; reflexivity)
              (routed_serves _ _ _ _) (routed_serves _ _ _ _))
    as (Hpush & Hget & Hpull & _).
  split; [exact Hpush|]. split; [exact Hget|exact Hpull].
Defined.

Lemma first_sign_in_backs_up_witness :
  let st := oneUser in
  let pushed := Body (Some (Component.lifts Sample.localOnly))
                     (Some (Component.workouts Sample.localOnly))
                     (Some "user_1") in
  snd (autoSync Sample.session Sample.localOnly
         (routed mapGetUser mapUpdate 5 st))
  = [GetLoadData "user_1";
     PostSyncData (Component.lifts Sample.localOnly)
                  (Component.workouts Sample.localOnly) "user_1"]
  /\ fst (loadDataFromCloud "user_1"
            (routed mapGetUser mapUpdate 9 (snd (POST mapUpdate 5 pushed st))))
     = Normal (mkCloudData (Component.lifts Sample.localOnly)
                           (Component.workouts Sample.localOnly)).
Proof.
  cbv zeta.
  destruct (first_sign_in_backs_up mapGetUser mapUpdate 5 9 Sample.session
              Sample.localOnly oneUser (mkMetadata None None None)
              (routed mapGetUser mapUpdate 5 oneUser)
              (routed mapGetUser mapUpdate 9
                 (snd (POST mapUpdate 5
                         (Body (Some (Component.lifts Sample.localOnly))
                               (Some (Component.workouts Sample.localOnly))
                               (Some "user_1"))
                         oneUser)))
              mapProvider_keeps
              ltac:(repeat split)
              eq_refl eq_refl
              ltac:(vm_compute; reflexivity)
              eq_refl eq_refl
              ltac:(left; discriminate)
              eq_refl
              ltac:(vm_compute; reflexivity)
              (routed_serves _ _ _ _) (routed_serves _ _ _ _))
    as (_ & _ & Hsent & _ & Hpull).
  split; [exact Hsent|exact Hpull].
Defined.

End ServerProps.

(* ===================================================================== *)
(** ** Difficulty labels *)
(* ===================================================================== *)

Module LabelProps.

Import Page.

Lemma Qred_whole (n : Z) : Qred (inject_Z n) = inject_Z n.
Proof.
  pose proof (Qred_correct (inject_Z n)) as Heq.
  pose proof (gcd_Qred (inject_Z n)) as Hgcd.
  destruct (Qred (inject_Z n)) as [p q].
  unfold Qeq, inject_Z in *. cbn [Qnum Qden] in *.
  assert (Hdiv : (Zpos q | p)).
  { exists n. lia. }
  apply Z.divide_gcd_iff in Hdiv; [|lia].
  rewrite Z.gcd_comm in Hdiv.
  assert (Hq : q = 1%positive) by lia.
  subst q. f_equal. lia.
Qed.

(** X29. The label of a difficulty from 1 to 5 is "RPE" followed by the
    difficulty plus 5, so the five labels differ; the label of 0 is empty,
    and a whole number below 0 or above 5 has no label. *)
Theorem difficulty_labels_are_rpe :
  (forall d : Difficulty,
      getDifficultyLabel (JS.ofZ (Difficulty_value d))
      = Some ("RPE " +:+ pretty (Difficulty_value d + 5)))
  /\ (forall d1 d2 : Difficulty,
        getDifficultyLabel (JS.ofZ (Difficulty_value d1))
        = getDifficultyLabel (JS.ofZ (Difficulty_value d2)) -> d1 = d2)
  /\ getDifficultyLabel (JS.ofZ 0) = Some ""
  /\ (forall n, n < 0 \/ 5 < n -> getDifficultyLabel (JS.ofZ n) = None)
  /\ getDifficultyLabel JS.NaN = None.
Proof.
  split; [intros []; reflexivity|].
  split; [intros [] []; simpl; intros H; try reflexivity; discriminate H|].
  split; [reflexivity|]. split; [|reflexivity].
  intros n Hn. unfold getDifficultyLabel, JS.ofZ, Q2Qc. cbn [this].
  rewrite Qred_whole. cbn [inject_Z Qnum Qden].
  destruct (Z.leb_spec 0 n) as [Hpos|Hneg]; cbn [andb Pos.eqb];
    [|reflexivity].
  destruct Hn as [Hn|Hn]; [lia|].
  apply lookup_ge_None_2. unfold labels. simpl. lia.
Qed.

End LabelProps.
